(** * DebMaster: the backend process listeners of [src/main.js]

    A shallow embedding of the three [ipcMain] listeners that launch the
    Python backend ([fetch-github-releases], [download-and-compile-deb],
    [start-patching]), of the callbacks they register on the child process
    and on [fs], and of the renderer's identifier fallback in the
    ['backend-message'] receiver.

    The Node/Electron runtime is modelled by the events it delivers to the
    callbacks the source registers; the builtins the callbacks call
    ([Buffer.prototype.toString], [String.prototype.indexOf], [substring],
    [trim], [JSON.parse]) are modelled next to them.

    Beside the backend listeners stand the window controls of
    [src/main.js], the bridge of [src/renderer/scripts/preload.js], the
    GitHub client of [src/renderer/scripts/github-api.js], and the file
    queue and the download buttons of the renderer's main script. *)

From Stdlib Require Import ZArith String Ascii List Bool Lia.
From stdpp Require Import base option list gmap pretty.
Import ListNotations.
Local Open Scope Z_scope.

(* ===================================================================== *)
(** ** JavaScript strings and buffers *)
(* ===================================================================== *)

(** A JavaScript string is a sequence of UTF-16 code units. *)
Abbreviation jsstring := (list Z).

(** A Node [Buffer] is a sequence of bytes. *)
Abbreviation Buffer := (list Byte.byte).

(** String literals of the source (all of them are ASCII). *)
Definition js (s : string) : jsstring :=
  map (fun a => Z.of_N (N_of_ascii a)) (list_ascii_of_string s).

Definition bytes (s : string) : Buffer := list_byte_of_string s.

(** Protocol text in examples is written with an apostrophe where the
    text has a double quote and a bar where it has a line feed:
    [jsq "{'a':1}|"] is the line [{"a":1}] with its terminator. *)
Definition unquote (a : ascii) : ascii :=
  if Ascii.eqb a "'"%char then ascii_of_nat 34
  else if Ascii.eqb a "|"%char then ascii_of_nat 10
  else a.

Definition jsq (s : string) : jsstring :=
  js (string_of_list_ascii (unquote <$> list_ascii_of_string s)).

Definition bytesq (s : string) : Buffer :=
  bytes (string_of_list_ascii (unquote <$> list_ascii_of_string s)).

Definition byte_val (b : Byte.byte) : Z := Z.of_N (Byte.to_N b).

Arguments js : simpl never.
Arguments jsq : simpl never.
Arguments bytes : simpl never.
Arguments bytesq : simpl never.

Definition LF : Z := 10.

Module Utf8.

(** [Buffer.prototype.toString()] with the default ['utf8'] encoding:
    every maximal ill-formed subsequence is replaced by U+FFFD, as the
    WHATWG decoder does; an incomplete sequence at the end of the buffer
    is ill-formed too. *)

Definition REPLACEMENT : Z := 65533.

Definition in_range (lo hi b : Z) : bool := (lo <=? b) && (b <=? hi).

Definition cont (b : Z) : bool := in_range 128 191 b.

Definition payload (b : Z) : Z := Z.land b 63.

(** UTF-16 code units of a scalar value. *)
Definition utf16 (cp : Z) : jsstring :=
  if cp <? 65536 then [cp]
  else [55296 + Z.shiftr (cp - 65536) 10; 56320 + Z.land (cp - 65536) 1023].

(** Allowed range of the first continuation byte of a three-byte
    sequence (no overlong forms, no surrogates). *)
Definition second3 (b0 b1 : Z) : bool :=
  if b0 =? 224 then in_range 160 191 b1
  else if b0 =? 237 then in_range 128 159 b1
  else cont b1.

(** Allowed range of the first continuation byte of a four-byte
    sequence (no overlong forms, nothing above U+10FFFF). *)
Definition second4 (b0 b1 : Z) : bool :=
  if b0 =? 240 then in_range 144 191 b1
  else if b0 =? 244 then in_range 128 143 b1
  else cont b1.

Fixpoint decode (bs : Buffer) : jsstring :=
  match bs with
  | [] => []
  | c0 :: r0 =>
    let b0 := byte_val c0 in
    if b0 <? 128 then b0 :: decode r0
    else if in_range 194 223 b0 then
      match r0 with
      | c1 :: r1 =>
        let b1 := byte_val c1 in
        if cont b1
        then (Z.shiftl (Z.land b0 31) 6 + payload b1) :: decode r1
        else REPLACEMENT :: decode r0
      | [] => REPLACEMENT :: decode r0
      end
    else if in_range 224 239 b0 then
      match r0 with
      | c1 :: r1 =>
        let b1 := byte_val c1 in
        if second3 b0 b1 then
          match r1 with
          | c2 :: r2 =>
            let b2 := byte_val c2 in
            if cont b2
            then (Z.shiftl (Z.land b0 15) 12 + Z.shiftl (payload b1) 6
                  + payload b2) :: decode r2
            else REPLACEMENT :: decode r1
          | [] => REPLACEMENT :: decode r1
          end
        else REPLACEMENT :: decode r0
      | [] => REPLACEMENT :: decode r0
      end
    else if in_range 240 244 b0 then
      match r0 with
      | c1 :: r1 =>
        let b1 := byte_val c1 in
        if second4 b0 b1 then
          match r1 with
          | c2 :: r2 =>
            let b2 := byte_val c2 in
            if cont b2 then
              match r2 with
              | c3 :: r3 =>
                let b3 := byte_val c3 in
                if cont b3
                then utf16 (Z.shiftl (Z.land b0 7) 18
                            + Z.shiftl (payload b1) 12
                            + Z.shiftl (payload b2) 6 + payload b3)
                     ++ decode r3
                else REPLACEMENT :: decode r2
              | [] => REPLACEMENT :: decode r2
              end
            else REPLACEMENT :: decode r1
          | [] => REPLACEMENT :: decode r1
          end
        else REPLACEMENT :: decode r0
      | [] => REPLACEMENT :: decode r0
      end
    else REPLACEMENT :: decode r0
  end.

(** A buffer that is a sequence of whole well-formed characters: it
    neither ends inside a character nor holds an ill-formed byte. *)
Fixpoint whole (bs : Buffer) : bool :=
  match bs with
  | [] => true
  | c0 :: r0 =>
    let b0 := byte_val c0 in
    if b0 <? 128 then whole r0
    else if in_range 194 223 b0 then
      match r0 with
      | c1 :: r1 => cont (byte_val c1) && whole r1
      | _ => false
      end
    else if in_range 224 239 b0 then
      match r0 with
      | c1 :: c2 :: r2 =>
        second3 b0 (byte_val c1) && cont (byte_val c2) && whole r2
      | _ => false
      end
    else if in_range 240 244 b0 then
      match r0 with
      | c1 :: c2 :: c3 :: r3 =>
        second4 b0 (byte_val c1) && cont (byte_val c2)
        && cont (byte_val c3) && whole r3
      | _ => false
      end
    else false
  end.

End Utf8.

(** [data.toString()] on a [Buffer]. *)
Definition toString (data : Buffer) : jsstring := Utf8.decode data.

(** [buffer.indexOf('\n')]: the index of the first occurrence, [None] for
    JavaScript's [-1]. *)
Fixpoint indexOf (s : jsstring) (c : Z) : option nat :=
  match s with
  | [] => None
  | x :: r => if x =? c then Some O else S <$> indexOf r c
  end.

(** [s.substring(from, to)] and [s.substring(from)], for indices within
    the string, which is how the listeners call them. *)
Definition substring (s : jsstring) (from to : nat) : jsstring :=
  take (to - from) (drop from s).

Definition substring_from (s : jsstring) (from : nat) : jsstring :=
  drop from s.

(** White space and line terminators removed by [String.prototype.trim]. *)
Definition is_js_space (c : Z) : bool :=
  (9 <=? c) && (c <=? 13) || (c =? 32) || (c =? 160) || (c =? 5760)
  || (8192 <=? c) && (c <=? 8202) || (c =? 8232) || (c =? 8233)
  || (c =? 8239) || (c =? 8287) || (c =? 12288) || (c =? 65279).

Fixpoint trim_start (s : jsstring) : jsstring :=
  match s with
  | c :: r => if is_js_space c then trim_start r else s
  | [] => []
  end.

Definition trim (s : jsstring) : jsstring :=
  rev (trim_start (rev (trim_start s))).

(** Decimal rendering of an integer inside a template literal. *)
Definition number_toString (n : Z) : jsstring := js (pretty n).

Arguments toString : simpl never.
Arguments trim : simpl never.
Arguments number_toString : simpl never.

(* ===================================================================== *)
(** ** JavaScript values and [JSON.parse] *)
(* ===================================================================== *)

Set Warnings "-register-all".

(** The values that cross the listeners: what [JSON.parse] returns and the
    object literals the listeners build.  A number is kept as the exact
    decimal [mantissa * 10 ^ exp10] of its literal and stands for the
    double nearest to it, which is what [JSON.parse] returns; no listener
    computes with a number, and the two tests the code makes on one
    ([if (x)] and [x !== 0]) go through [rounds_to_zero], so that they
    see the double and not the literal.  An array carries its expando
    properties, since the patch listener assigns [identifier] on whatever
    was parsed. *)
Inductive JsValue :=
| JUndefined
| JNull
| JBool (b : bool)
| JNum (mantissa exp10 : Z)
| JStr (s : jsstring)
| JArr (elems : list JsValue) (props : gmap jsstring JsValue)
| JObj (props : gmap jsstring JsValue).

Set Warnings "+register-all".

Definition JInt (n : Z) : JsValue := JNum n 0.

(** An object literal [{k1: v1, k2: v2, ...}]. *)
Definition object (kvs : list (string * JsValue)) : JsValue :=
  JObj (list_to_map (prod_map js id <$> kvs)).

(** Whether the double nearest to [m * 10 ^ e] is [0] or [-0].  The
    least positive double is [2 ^ -1074]; rounding is to nearest, ties
    to even, so a decimal becomes a zero exactly when its magnitude is at
    most [2 ^ -1075], and no decimal becomes a [NaN]. *)
Definition rounds_to_zero (m e : Z) : bool :=
  (m =? 0) || ((e <? 0) && (Z.abs m * 2 ^ 1075 <=? 10 ^ (- e))).

Arguments rounds_to_zero : simpl never.

(** JavaScript truthiness ([if (x)], [!x], [x || y]): of the numbers,
    [0], [-0] and [NaN] are falsy. *)
Definition truthy (v : JsValue) : bool :=
  match v with
  | JUndefined | JNull => false
  | JBool b => b
  | JNum m e => negb (rounds_to_zero m e)
  | JStr s => match s with [] => false | _ => true end
  | JArr _ _ | JObj _ => true
  end.

(** [a || b]. *)
Definition js_or (a b : JsValue) : JsValue := if truthy a then a else b.

(** [v === 'literal']. *)
Definition strict_eq_str (v : JsValue) (s : jsstring) : bool :=
  match v with
  | JStr t => bool_decide (t = s)
  | _ => false
  end.

Inductive Exn := TypeError | SyntaxError | ErrnoException.

Inductive Completion (A : Type) :=
| Normal (a : A)
| Throw (e : Exn).
Arguments Normal {A} a.
Arguments Throw {A} e.

(** [v.k] for a property name [k] that is neither an array index nor
    [length]: reading off [null] or [undefined] throws, a primitive has
    no such property. *)
Definition get_prop (v : JsValue) (k : jsstring) : Completion JsValue :=
  match v with
  | JUndefined | JNull => Throw TypeError
  | JObj props | JArr _ props => Normal (default JUndefined (props !! k))
  | _ => Normal JUndefined
  end.

(** [v.k = x] in sloppy mode ([main.js] has no ['use strict']): throws on
    [null] and [undefined], is silently dropped on a primitive. *)
Definition set_prop (v : JsValue) (k : jsstring) (x : JsValue)
  : Completion JsValue :=
  match v with
  | JUndefined | JNull => Throw TypeError
  | JObj props => Normal (JObj (<[k := x]> props))
  | JArr elems props => Normal (JArr elems (<[k := x]> props))
  | _ => Normal v
  end.

Module Json.

(** The JSON grammar of ECMA-404, which is what [JSON.parse] accepts,
    over UTF-16 code units. *)

Definition is_ws (c : Z) : bool :=
  (c =? 32) || (c =? 9) || (c =? 10) || (c =? 13).

Definition is_digit (c : Z) : bool := (48 <=? c) && (c <=? 57).

Fixpoint skip_ws (s : jsstring) : jsstring :=
  match s with
  | c :: r => if is_ws c then skip_ws r else s
  | [] => []
  end.

(** [eat lit s] removes the prefix [lit] from [s]. *)
Fixpoint eat (lit s : jsstring) : option jsstring :=
  match lit, s with
  | [], _ => Some s
  | l :: lit', c :: s' => if l =? c then eat lit' s' else None
  | _ :: _, [] => None
  end.

Definition hex (c : Z) : option Z :=
  if is_digit c then Some (c - 48)
  else if (97 <=? c) && (c <=? 102) then Some (c - 87)
  else if (65 <=? c) && (c <=? 70) then Some (c - 55)
  else None.

Definition hex4 (a b c d : Z) : option Z :=
  a ← hex a; b ← hex b; c ← hex c; d ← hex d;
  Some (((a * 16 + b) * 16 + c) * 16 + d).

Definition unescape (c : Z) : option Z :=
  if (c =? 34) || (c =? 92) || (c =? 47) then Some c
  else if c =? 98 then Some 8
  else if c =? 102 then Some 12
  else if c =? 110 then Some 10
  else if c =? 114 then Some 13
  else if c =? 116 then Some 9
  else None.

Definition prepend (c : Z) (r : option (jsstring * jsstring))
  : option (jsstring * jsstring) :=
  prod_map (cons c) id <$> r.

(** The characters of a string after its opening quote, up to and
    including the closing quote. *)
Fixpoint parse_string (s : jsstring) : option (jsstring * jsstring) :=
  match s with
  | [] => None
  | c :: r =>
    if c =? 34 then Some ([], r)
    else if c =? 92 then
      match r with
      | e :: r1 =>
        if e =? 117 then
          match r1 with
          | h1 :: h2 :: h3 :: h4 :: r2 =>
            match hex4 h1 h2 h3 h4 with
            | Some u => prepend u (parse_string r2)
            | None => None
            end
          | _ => None
          end
        else
          match unescape e with
          | Some u => prepend u (parse_string r1)
          | None => None
          end
      | [] => None
      end
    else if c <? 32 then None
    else prepend c (parse_string r)
  end.

(** The longest prefix of digits, and what follows it. *)
Fixpoint digits (s : jsstring) : list Z * jsstring :=
  match s with
  | c :: r =>
    if is_digit c then prod_map (cons (c - 48)) id (digits r) else ([], s)
  | [] => ([], [])
  end.

Definition decimal (ds : list Z) : Z :=
  fold_left (fun acc d => acc * 10 + d) ds 0.

(** A number: an optional minus sign, an integer part (a single zero, or
    a non-zero digit and more digits), an optional fraction (a dot and
    at least one digit), an optional exponent ([e] or [E], an optional
    sign, at least one digit).  The value is the decimal of the literal,
    not rounded: [1] and [1.0] give two terms for one double, and
    [1e-400] gives a term for the double [0].  The listeners only forward
    a number; the renderer's tests on one read it through
    [rounds_to_zero]. *)
Definition parse_number (s : jsstring) : option (JsValue * jsstring) :=
  let '(neg, s) := match s with
                   | c :: r => if c =? 45 then (true, r) else (false, s)
                   | [] => (false, s)
                   end in
  let int_part :=
    match s with
    | c :: r =>
      if c =? 48 then Some ([0], r)
      else if is_digit c then Some (digits s)
      else None
    | [] => None
    end in
  match int_part with
  | None => None
  | Some (int, s) =>
    let frac_part :=
      match s with
      | c :: r =>
        if c =? 46 then
          match digits r with
          | ([], _) => None
          | (fs, r') => Some (fs, r')
          end
        else Some ([], s)
      | [] => Some ([], s)
      end in
    match frac_part with
    | None => None
    | Some (frac, s) =>
      let exp_part :=
        match s with
        | c :: r =>
          if (c =? 101) || (c =? 69) then
            let '(eneg, r) :=
              match r with
              | g :: r' =>
                if g =? 45 then (true, r')
                else if g =? 43 then (false, r')
                else (false, r)
              | [] => (false, r)
              end in
            match digits r with
            | ([], _) => None
            | (es, r') =>
              Some (if eneg : bool then - decimal es else decimal es, r')
            end
          else Some (0, s)
        | [] => Some (0, s)
        end in
      match exp_part with
      | None => None
      | Some (e, s) =>
        let m := decimal (int ++ frac) in
        Some (JNum (if neg : bool then - m else m)
                   (e - Z.of_nat (length frac)), s)
      end
    end
  end.

(** One value, with leading white space.  [parse_elements] and
    [parse_members] read the rest of an array or object after its first
    bracket.  Every call consumes at least one code unit before the next
    one, so [S (length s)] calls suffice for an input [s].  A repeated
    key keeps its last value, as [JSON.parse] does. *)
Fixpoint parse_value (fuel : nat) (s : jsstring)
  : option (JsValue * jsstring) :=
  match fuel with
  | O => None
  | S fuel =>
    match skip_ws s with
    | [] => None
    | c :: r =>
      if c =? 123 then
        match skip_ws r with
        | c' :: r' =>
          if c' =? 125 then Some (JObj ∅, r')
          else parse_members fuel ∅ r
        | [] => None
        end
      else if c =? 91 then
        match skip_ws r with
        | c' :: r' =>
          if c' =? 93 then Some (JArr [] ∅, r')
          else parse_elements fuel [] r
        | [] => None
        end
      else if c =? 34 then prod_map JStr id <$> parse_string r
      else if c =? 110 then pair JNull <$> eat (js "ull") r
      else if c =? 116 then pair (JBool true) <$> eat (js "rue") r
      else if c =? 102 then pair (JBool false) <$> eat (js "alse") r
      else parse_number (c :: r)
    end
  end
with parse_elements (fuel : nat) (acc : list JsValue) (s : jsstring)
  : option (JsValue * jsstring) :=
  match fuel with
  | O => None
  | S fuel =>
    match parse_value fuel s with
    | Some (v, r) =>
      match skip_ws r with
      | c :: r' =>
        if c =? 44 then parse_elements fuel (acc ++ [v]) r'
        else if c =? 93 then Some (JArr (acc ++ [v]) ∅, r')
        else None
      | [] => None
      end
    | None => None
    end
  end
with parse_members (fuel : nat) (acc : gmap jsstring JsValue) (s : jsstring)
  : option (JsValue * jsstring) :=
  match fuel with
  | O => None
  | S fuel =>
    match skip_ws s with
    | q :: r =>
      if q =? 34 then
        match parse_string r with
        | Some (k, r1) =>
          match skip_ws r1 with
          | c1 :: r2 =>
            if c1 =? 58 then
              match parse_value fuel r2 with
              | Some (v, r3) =>
                match skip_ws r3 with
                | c3 :: r4 =>
                  if c3 =? 44 then parse_members fuel (<[k := v]> acc) r4
                  else if c3 =? 125 then Some (JObj (<[k := v]> acc), r4)
                  else None
                | [] => None
                end
              | None => None
              end
            else None
          | [] => None
          end
        | None => None
        end
      else None
    | [] => None
    end
  end.

(** [JSON.parse(text)]; [None] stands for the [SyntaxError] it throws. *)
Definition parse (text : jsstring) : option JsValue :=
  match parse_value (S (length text)) text with
  | Some (v, r) => match skip_ws r with [] => Some v | _ => None end
  | None => None
  end.

End Json.

Definition JSON_parse (text : jsstring) : Completion JsValue :=
  match Json.parse text with
  | Some v => Normal v
  | None => Throw SyntaxError
  end.

Arguments JSON_parse : simpl never.

(* ===================================================================== *)
(** ** The main process: state, effects, listeners *)
(* ===================================================================== *)

(** What the listeners read from the machine they run on. *)
Class Host := {
  __dirname : jsstring;
  os_tmpdir : jsstring;
  path_join : list jsstring -> jsstring
}.

Inductive Kind := Fetch | Download | Patch.

Inductive Level := Log | Warn | Error.

Variant BrowserWindow := browserWindow.

(** The variables a child's listeners close over, and the child itself:
    [subject] is the listener's [repoUrl], [downloadUrl] or [identifier];
    [pid] is [None] when the program could not be launched; [closed]
    holds once ['close'] has been emitted. *)
Record Child := mkChild {
  kind : Kind;
  subject : jsstring;
  processKey : jsstring;
  tempIpaPath : jsstring;
  pid : option Z;
  buffer : jsstring;
  closed : bool
}.

(** The [data] argument of ['start-patching'], destructured: an absent
    field is [None] ([undefined]). *)
Record PatchData := mkPatchData {
  ipaBuffer : option Buffer;
  tweakPath : option jsstring;
  identifier : jsstring;
  ipaName : option jsstring
}.

(** A [fs.writeFile] in progress, with what its callback closes over. *)
Record PendingWrite := mkPendingWrite {
  w_path : jsstring;
  w_data : Buffer;
  w_tweakPath : jsstring;
  w_identifier : jsstring;
  w_processKey : jsstring;
  w_done : bool
}.

(** A [fs.unlink] in progress. *)
Record PendingUnlink := mkPendingUnlink {
  u_path : jsstring;
  u_done : bool
}.

(** Everything the listeners do that is visible outside them, in order. *)
Inductive Action :=
| Spawn (command : jsstring) (args : list jsstring)
| RegistrySet (key : jsstring) (child : nat)
| RegistryDelete (key : jsstring)
| Send (channel : jsstring) (payload : JsValue)
| Console (level : Level) (text : jsstring)
| WriteFile (path : jsstring) (data : Buffer)
| Unlink (path : jsstring)
| Uncaught (e : Exn).

(** The main process.  [mainWindow] is [None] for [null];
    [activeProcesses] is the [Map] of the source, from a key to the child
    registered under it, a child being named by its index in [children],
    which holds every [ChildProcess] that [spawn] has returned; [writes]
    and [unlinks] are the [fs] calls made so far, each marked done once
    its callback has run; [files] is the file system, from a path to the
    content of the file; [trace] is what the listeners have done. *)
Record State := mkState {
  mainWindow : option BrowserWindow;
  activeProcesses : gmap jsstring nat;
  children : list Child;
  writes : list PendingWrite;
  unlinks : list PendingUnlink;
  files : gmap jsstring Buffer;
  trace : list Action
}.

(** The state once [app] is ready: the window exists, nothing runs. *)
Definition ready (fs : gmap jsstring Buffer) : State :=
  mkState (Some browserWindow) ∅ [] [] [] fs [].

Definition set_mainWindow (w : option BrowserWindow) (st : State) : State :=
  mkState w (activeProcesses st) (children st) (writes st) (unlinks st)
          (files st) (trace st).

Definition set_activeProcesses (m : gmap jsstring nat) (st : State) : State :=
  mkState (mainWindow st) m (children st) (writes st) (unlinks st)
          (files st) (trace st).

Definition set_children (cs : list Child) (st : State) : State :=
  mkState (mainWindow st) (activeProcesses st) cs (writes st) (unlinks st)
          (files st) (trace st).

Definition set_writes (ws : list PendingWrite) (st : State) : State :=
  mkState (mainWindow st) (activeProcesses st) (children st) ws (unlinks st)
          (files st) (trace st).

Definition set_unlinks (us : list PendingUnlink) (st : State) : State :=
  mkState (mainWindow st) (activeProcesses st) (children st) (writes st) us
          (files st) (trace st).

Definition set_files (fs : gmap jsstring Buffer) (st : State) : State :=
  mkState (mainWindow st) (activeProcesses st) (children st) (writes st)
          (unlinks st) fs (trace st).

Definition emit_all (l : list Action) (st : State) : State :=
  mkState (mainWindow st) (activeProcesses st) (children st) (writes st)
          (unlinks st) (files st) (trace st ++ l).

Definition emit (a : Action) (st : State) : State := emit_all [a] st.

(** The state with another trace: all of the state that a listener can
    read. *)
Definition with_trace (t : list Action) (st : State) : State :=
  mkState (mainWindow st) (activeProcesses st) (children st) (writes st)
          (unlinks st) (files st) t.

Definition set_buffer (b : jsstring) (c : Child) : Child :=
  mkChild (kind c) (subject c) (processKey c) (tempIpaPath c) (pid c) b
          (closed c).

Definition set_closed (c : Child) : Child :=
  mkChild (kind c) (subject c) (processKey c) (tempIpaPath c) (pid c)
          (buffer c) true.

Definition set_w_done (w : PendingWrite) : PendingWrite :=
  mkPendingWrite (w_path w) (w_data w) (w_tweakPath w) (w_identifier w)
                 (w_processKey w) true.

(** A listener body: it runs on the state and completes normally or by
    throwing. *)
Definition M (A : Type) : Type := State -> Completion A * State.

#[global] Instance M_ret : MRet M := fun A a st => (Normal a, st).

#[global] Instance M_bind : MBind M := fun A B f m st =>
  match m st with
  | (Normal a, st') => f a st'
  | (Throw e, st') => (Throw e, st')
  end.

Definition lift {A} (c : Completion A) : M A := fun st => (c, st).

Definition act (a : Action) : M unit := fun st => (Normal tt, emit a st).

(** [try { body } catch (e) { handler }] *)
Definition try_catch (body handler : M unit) : M unit := fun st =>
  match body st with
  | (Normal _, st') => (Normal tt, st')
  | (Throw _, st') => handler st'
  end.

Definition console (l : Level) (text : jsstring) : M unit :=
  act (Console l text).

(** [mainWindow.webContents.send(channel, payload)]; reading
    [webContents] off a [null] window throws. *)
Definition webContents_send (channel : string) (payload : JsValue) : M unit :=
  fun st =>
    match mainWindow st with
    | Some _ => (Normal tt, emit (Send (js channel) payload) st)
    | None => (Throw TypeError, st)
    end.

Definition activeProcesses_has (key : jsstring) : M bool := fun st =>
  (Normal (bool_decide (is_Some (activeProcesses st !! key))), st).

Definition activeProcesses_set (key : jsstring) (child : nat) : M unit :=
  fun st =>
    (Normal tt,
     emit (RegistrySet key child)
          (set_activeProcesses (<[key := child]> (activeProcesses st)) st)).

Definition activeProcesses_delete (key : jsstring) : M unit := fun st =>
  (Normal tt,
   emit (RegistryDelete key)
        (set_activeProcesses (delete key (activeProcesses st)) st)).

(** [spawn('python', args)] returns a [ChildProcess] whether or not the
    program could be launched; [c] is what the listeners registered on it
    close over. *)
Definition spawn (args : list jsstring) (c : Child) : M nat := fun st =>
  (Normal (length (children st)),
   emit (Spawn (js "python") args) (set_children (children st ++ [c]) st)).

Definition fs_writeFile (w : PendingWrite) : M unit := fun st =>
  (Normal tt,
   emit (WriteFile (w_path w) (w_data w)) (set_writes (writes st ++ [w]) st)).

Definition fs_unlink (path : jsstring) : M unit := fun st =>
  (Normal tt,
   emit (Unlink path)
        (set_unlinks (unlinks st ++ [mkPendingUnlink path false]) st)).

Definition get_buffer (child : nat) : M jsstring := fun st =>
  (Normal (default [] (buffer <$> children st !! child)), st).

Definition put_buffer (child : nat) (b : jsstring) : M unit := fun st =>
  (Normal tt, set_children (alter (set_buffer b) child (children st)) st).

Definition code_toString (code : option Z) : jsstring :=
  match code with Some n => number_toString n | None => js "null" end.

Definition code_value (code : option Z) : JsValue :=
  match code with Some n => JInt n | None => JNull end.

(** [code === 0 ? 'completed' : 'failed'] *)
Definition exit_status (code : option Z) : JsValue :=
  JStr (js (if bool_decide (code = Some 0) then "completed" else "failed")).

Definition pid_toString (pid : option Z) : jsstring :=
  match pid with Some n => number_toString n | None => js "undefined" end.

Definition string_truthy (s : option jsstring) : bool :=
  match s with Some (_ :: _) => true | _ => false end.

Inductive WriteResult :=
| Written
| WriteFailed (err : jsstring) (residue : option Buffer).

(** What the runtime delivers to the main process.  The events that make
    a listener call [spawn] say whether the launch works ([pid]); a failed
    write says what it left at the path ([residue]: nothing when the file
    could not be opened, the bytes written so far when the disk filled
    up); [code] is [None] for the [null] of a worker killed by a signal.
    A child whose launch failed emits ['error'], for which the source
    registers no listener.  [window_closed] is the ['closed'] event of
    the main window, where the source sets [mainWindow] to [null], and
    [app_activate] the ['activate'] event, where it creates the window
    again. *)
Inductive Event :=
| ipc_fetch_github_releases (repoUrl : jsstring) (pid : option Z)
| ipc_download_and_compile_deb (downloadUrl : jsstring) (pid : option Z)
| ipc_start_patching (data : PatchData) (now : Z)
| writeFile_done (op : nat) (result : WriteResult) (pid : option Z)
| unlink_done (op : nat) (err : option jsstring)
| stdout_data (child : nat) (data : Buffer)
| stderr_data (child : nat) (data : Buffer)
| child_close (child : nat) (code : option Z)
| child_error (child : nat)
| window_closed
| app_activate.

Section Listeners.

Context `{Host}.

Definition pythonScript : jsstring :=
  path_join [__dirname; js "backend"; js "DebMaster.py"].

(** The loop of the three stdout listeners:
    [while (boundary !== -1) { line = ...; buffer = ...; if (line) {...} }].
    Every turn shortens [buffer], so [S (length buffer)] turns are
    enough. *)
Fixpoint while_boundary (fuel : nat) (child : nat)
         (on_line : jsstring -> M unit) : M unit :=
  match fuel with
  | O => mret tt
  | S fuel =>
    buffer ← get_buffer child;
    match indexOf buffer LF with
    | None => mret tt
    | Some boundary =>
      let line := substring buffer 0 boundary in
      put_buffer child (substring_from buffer (boundary + 1));;
      (if truthy (JStr line) then on_line line else mret tt);;
      while_boundary fuel child on_line
    end
  end.

(** [buffer += data.toString()] and the loop. *)
Definition feed (child : nat) (on_line : jsstring -> M unit)
           (data : Buffer) : M unit :=
  buffer ← get_buffer child;
  put_buffer child (buffer ++ toString data);;
  buffer ← get_buffer child;
  while_boundary (S (length buffer)) child on_line.

(** *** ['fetch-github-releases'] *)

Definition fetch_on_line (line : jsstring) : M unit :=
  try_catch
    (jsonData ← lift (JSON_parse line);
     type ← lift (get_prop jsonData (js "type"));
     releases_completed ←
       (if strict_eq_str type (js "github_releases")
        then status ← lift (get_prop jsonData (js "status"));
             mret (strict_eq_str status (js "completed"))
        else mret false);
     if releases_completed : bool then
       releases ← lift (get_prop jsonData (js "releases"));
       webContents_send "github-releases-data" releases
     else
       type ← lift (get_prop jsonData (js "type"));
       github_failed ←
         (if strict_eq_str type (js "github")
          then status ← lift (get_prop jsonData (js "status"));
               mret (strict_eq_str status (js "failed"))
          else mret false);
       if github_failed : bool then
         error ← lift (get_prop jsonData (js "error"));
         webContents_send "github-releases-error" error
       else mret tt)
    (console Warn
       (js "[MAIN PROCESS] Non-JSON line from backend during fetch: "
        ++ line)).

Definition fetch_on_close (repoUrl processKey : jsstring)
           (code : option Z) : M unit :=
  console Log (js "[MAIN PROCESS] Backend fetch process for " ++ repoUrl
               ++ js " exited with code " ++ code_toString code);;
  activeProcesses_delete processKey.

Definition on_fetch_github_releases (repoUrl : jsstring) (pid : option Z)
  : M unit :=
  let processKey := js "fetch:" ++ repoUrl in
  running ← activeProcesses_has processKey;
  if running : bool then
    console Warn (js "[MAIN PROCESS] Fetch process already running for: "
                  ++ repoUrl)
  else
    console Log (js "[MAIN PROCESS] Fetching releases for: " ++ repoUrl);;
    pythonProcess ←
      spawn [pythonScript; js "--github"; repoUrl; js "--verbose"]
            (mkChild Fetch repoUrl processKey [] pid [] false);
    activeProcesses_set processKey pythonProcess.

(** *** ['download-and-compile-deb'] *)

Definition download_on_line (line : jsstring) : M unit :=
  try_catch
    (jsonData ← lift (JSON_parse line);
     webContents_send "backend-message" jsonData)
    (console Warn
       (js "[MAIN PROCESS] Non-JSON line from backend during download: "
        ++ line)).

Definition download_exit_message (downloadUrl : jsstring)
           (code : option Z) : JsValue :=
  object [("type", JStr (js "process_exit"));
          ("status", exit_status code);
          ("download_url", JStr downloadUrl);
          ("code", code_value code)].

Definition download_on_close (downloadUrl processKey : jsstring)
           (code : option Z) : M unit :=
  console Log (js "[MAIN PROCESS] Backend download process for "
               ++ downloadUrl ++ js " exited with code "
               ++ code_toString code);;
  activeProcesses_delete processKey;;
  webContents_send "backend-message"
                   (download_exit_message downloadUrl code).

Definition on_download_and_compile_deb (downloadUrl : jsstring)
           (pid : option Z) : M unit :=
  let processKey := js "download:" ++ downloadUrl in
  running ← activeProcesses_has processKey;
  if running : bool then
    console Warn (js "[MAIN PROCESS] Download process already running for: "
                  ++ downloadUrl)
  else
    console Log (js "[MAIN PROCESS] Starting download/convert for: "
                 ++ downloadUrl);;
    pythonProcess ←
      spawn [pythonScript; js "--download-url"; downloadUrl; js "--verbose"]
            (mkChild Download downloadUrl processKey [] pid [] false);
    activeProcesses_set processKey pythonProcess.

(** *** ['start-patching'] *)

Definition operation_failed (error identifier : jsstring) : JsValue :=
  object [("type", JStr (js "operation"));
          ("status", JStr (js "failed"));
          ("error", JStr error);
          ("identifier", JStr identifier)].

Definition patch_on_line (identifier line : jsstring) : M unit :=
  try_catch
    (jsonData ← lift (JSON_parse line);
     jsonData ← lift (set_prop jsonData (js "identifier") (JStr identifier));
     webContents_send "backend-message" jsonData)
    (console Warn
       (js "[MAIN PROCESS] Non-JSON line from backend during patch: "
        ++ line)).

Definition patch_on_data (child : nat) (identifier : jsstring)
           (data : Buffer) : M unit :=
  console Log (js "[PATCH STDOUT] Raw data for " ++ identifier ++ js ": "
               ++ trim (toString data));;
  feed child (patch_on_line identifier) data.

Definition patch_exit_message (identifier : jsstring) (code : option Z)
  : JsValue :=
  object [("type", JStr (js "process_exit"));
          ("status", exit_status code);
          ("identifier", JStr identifier);
          ("code", code_value code)].

Definition patch_on_close (identifier processKey tempIpaPath : jsstring)
           (code : option Z) : M unit :=
  console Log (js "[MAIN PROCESS] Backend patch process for " ++ identifier
               ++ js " exited with code " ++ code_toString code);;
  activeProcesses_delete processKey;;
  fs_unlink tempIpaPath;;
  webContents_send "backend-message" (patch_exit_message identifier code).

Definition unlink_callback (tempIpaPath : jsstring)
           (unlinkErr : option jsstring) : M unit :=
  match unlinkErr with
  | Some e =>
    console Error (js "[MAIN PROCESS] Error deleting temporary IPA file: "
                   ++ tempIpaPath ++ js " " ++ e)
  | None =>
    console Log
      (js "[MAIN PROCESS] Successfully deleted temporary IPA file: "
       ++ tempIpaPath)
  end.

(** The callback of [fs.writeFile].  The source also computes
    [absoluteTweakPath] here, which nothing reads. *)
Definition writeFile_callback (w : PendingWrite) (err : option jsstring)
           (pid : option Z) : M unit :=
  match err with
  | Some e =>
    console Error (js "[MAIN PROCESS] Error writing temporary IPA file: "
                   ++ e);;
    webContents_send "backend-message"
      (operation_failed (js "Could not save IPA file for patching.")
                        (w_identifier w))
  | None =>
    console Log (js "[MAIN PROCESS] Starting patch process. IPA: "
                 ++ w_path w ++ js ", Tweak: " ++ w_tweakPath w);;
    pythonProcess ←
      spawn [pythonScript; js "--patch"; w_path w; js "--with-data-tar";
             w_tweakPath w; js "--verbose"]
            (mkChild Patch (w_identifier w) (w_processKey w) (w_path w) pid
                     [] false);
    console Log (js "[MAIN PROCESS] Spawned patch process with PID: "
                 ++ pid_toString pid ++ js " for identifier: "
                 ++ w_identifier w);;
    activeProcesses_set (w_processKey w) pythonProcess
  end.

Definition on_start_patching (data : PatchData) (now : Z) : M unit :=
  let processKey := js "patch:" ++ identifier data in
  running ← activeProcesses_has processKey;
  if running : bool then
    console Warn
      (js "[MAIN PROCESS] Patching process already running for identifier: "
       ++ identifier data)
  else
    match ipaBuffer data, string_truthy (tweakPath data), tweakPath data with
    | Some ipa, true, Some tweak =>
      let tempDir := os_tmpdir in
      let name :=
        if string_truthy (ipaName data) then default [] (ipaName data)
        else js "temp_ipa_" ++ number_toString now ++ js ".ipa" in
      let tempIpaPath := path_join [tempDir; name] in
      fs_writeFile (mkPendingWrite tempIpaPath ipa tweak (identifier data)
                                   processKey false)
    | _, _, _ =>
      console Error
        (js "[MAIN PROCESS] Invalid data for patching. IPA Buffer present: "
         ++ js (if bool_decide (is_Some (ipaBuffer data)) then "true"
                else "false")
         ++ js ", Tweak: " ++ default (js "undefined") (tweakPath data));;
      webContents_send "backend-message"
        (operation_failed (js "Invalid file data provided.")
                          (identifier data))
    end.

(** *** Dispatch of the runtime's events to the registered listeners *)

Definition stdout_on_data (child : nat) (c : Child) (data : Buffer)
  : M unit :=
  match kind c with
  | Fetch => feed child fetch_on_line data
  | Download => feed child download_on_line data
  | Patch => patch_on_data child (subject c) data
  end.

Definition stderr_on_data (c : Child) (data : Buffer) : M unit :=
  match kind c with
  | Fetch | Download =>
    console Error (js "[BACKEND STDERR] " ++ trim (toString data))
  | Patch =>
    console Error (js "[PATCH STDERR] For " ++ subject c ++ js ": "
                   ++ trim (toString data))
  end.

Definition on_close (c : Child) (code : option Z) : M unit :=
  match kind c with
  | Fetch => fetch_on_close (subject c) (processKey c) code
  | Download => download_on_close (subject c) (processKey c) code
  | Patch => patch_on_close (subject c) (processKey c) (tempIpaPath c) code
  end.

(** A listener that throws leaves an uncaught exception behind; Electron
    reports it and the main process goes on. *)
Definition run (m : M unit) (st : State) : State :=
  match m st with
  | (Normal _, st') => st'
  | (Throw e, st') => emit (Uncaught e) st'
  end.

(** What a write has done to the file system by the time its callback
    runs. *)
Definition write_effect (w : PendingWrite) (r : WriteResult)
           (fs : gmap jsstring Buffer) : gmap jsstring Buffer :=
  match r with
  | Written => <[w_path w := w_data w]> fs
  | WriteFailed _ (Some partial) => <[w_path w := partial]> fs
  | WriteFailed _ None => fs
  end.

Definition write_error (r : WriteResult) : option jsstring :=
  match r with
  | Written => None
  | WriteFailed e _ => Some e
  end.

(** One event.  Callbacks run once: an event for a write or unlink that
    is done, or for a child that has closed, finds no listener.  The
    ['error'] event of a child finds none either, which the emitter turns
    into an uncaught exception. *)
Definition step (st : State) (ev : Event) : State :=
  match ev with
  | ipc_fetch_github_releases repoUrl pid =>
    run (on_fetch_github_releases repoUrl pid) st
  | ipc_download_and_compile_deb downloadUrl pid =>
    run (on_download_and_compile_deb downloadUrl pid) st
  | ipc_start_patching data now =>
    run (on_start_patching data now) st
  | writeFile_done op r pid =>
    match writes st !! op with
    | Some w =>
      if w_done w then st
      else run (writeFile_callback w (write_error r) pid)
               (set_files (write_effect w r (files st))
                  (set_writes (alter set_w_done op (writes st)) st))
    | None => st
    end
  | unlink_done op err =>
    match unlinks st !! op with
    | Some u =>
      if u_done u then st
      else run (unlink_callback (u_path u) err)
               (set_files (match err with
                           | Some _ => files st
                           | None => delete (u_path u) (files st)
                           end)
                  (set_unlinks
                     (alter (fun u => mkPendingUnlink (u_path u) true) op
                            (unlinks st)) st))
    | None => st
    end
  | stdout_data child data =>
    match children st !! child with
    | Some c => if closed c then st else run (stdout_on_data child c data) st
    | None => st
    end
  | stderr_data child data =>
    match children st !! child with
    | Some c => if closed c then st else run (stderr_on_data c data) st
    | None => st
    end
  | child_close child code =>
    match children st !! child with
    | Some c =>
      if closed c then st
      else run (on_close c code)
               (set_children (alter set_closed child (children st)) st)
    | None => st
    end
  | child_error child =>
    match children st !! child with
    | Some c => if closed c then st else emit (Uncaught ErrnoException) st
    | None => st
    end
  | window_closed => set_mainWindow None st
  | app_activate =>
    match mainWindow st with
    | None => set_mainWindow (Some browserWindow) st
    | Some _ => st
    end
  end.

Definition steps (st : State) (evs : list Event) : State :=
  fold_left step evs st.

End Listeners.

(** A POSIX machine for the examples: the application lives in [/app],
    scratch files go to [/tmp]; the joined segments are plain names. *)
Definition join_posix (segments : list jsstring) : jsstring :=
  match segments with
  | [] => js "."
  | s :: r => fold_left (fun acc x => acc ++ js "/" ++ x) r s
  end.

#[global] Instance posix : Host := {|
  __dirname := js "/app";
  os_tmpdir := js "/tmp";
  path_join := join_posix
|}.

(* ===================================================================== *)
(** ** The renderer's ['backend-message'] receiver *)
(* ===================================================================== *)

(** [const identifier = data.identifier || data.download_url;
     if (!identifier) return;]
    The identifier the renderer routes a message by, [None] when it drops
    the message. *)
Definition backend_message_identifier (data : JsValue)
  : Completion (option JsValue) :=
  match get_prop data (js "identifier") with
  | Throw e => Throw e
  | Normal i =>
    if truthy i then Normal (Some i)
    else
      match get_prop data (js "download_url") with
      | Throw e => Throw e
      | Normal u => Normal (if truthy u then Some u else None)
      end
  end.

(* ===================================================================== *)
(** ** Observations on a run *)
(* ===================================================================== *)

(** What reached the renderer: channel and payload of every
    [webContents.send], in order. *)
Definition sends (l : list Action) : list (jsstring * JsValue) :=
  omap (fun a => match a with Send ch p => Some (ch, p) | _ => None end) l.

Definition dispatched (st : State) : list (jsstring * JsValue) :=
  sends (trace st).

(** The argument vectors of the processes spawned so far. *)
Definition spawns (l : list Action) : list (list jsstring) :=
  omap (fun a => match a with Spawn _ args => Some args | _ => None end) l.

Definition spawned (st : State) : list (list jsstring) := spawns (trace st).

(** The paths [fs.unlink] was called on. *)
Definition unlinked (l : list Action) : list jsstring :=
  omap (fun a => match a with Unlink p => Some p | _ => None end) l.

(** How often [activeProcesses.delete(key)] ran. *)
Definition releases (key : jsstring) (l : list Action) : nat :=
  length (omap (fun a => match a with
                         | RegistryDelete k =>
                           if bool_decide (k = key) then Some k else None
                         | _ => None
                         end) l).

(** The [buffer] variable of a child's stdout listener. *)
Definition buffer_of (st : State) (child : nat) : jsstring :=
  default [] (buffer <$> children st !! child).

(** [v.k === 's'], [false] where reading the property throws. *)
Definition has_field (v : JsValue) (k : string) (s : string) : bool :=
  match get_prop v (js k) with
  | Normal x => strict_eq_str x (js s)
  | Throw _ => false
  end.

(** A message with a final outcome: an operation result or a
    [process_exit], with status [completed] or [failed]. *)
Definition is_terminal (v : JsValue) : bool :=
  (has_field v "type" "operation" || has_field v "type" "process_exit")
  && (has_field v "status" "completed" || has_field v "status" "failed").

(** The messages with a final outcome that reached the renderer. *)
Definition terminal_dispatches (st : State) : list (jsstring * JsValue) :=
  filter (fun m => is_terminal m.2 = true) (dispatched st).

(** A listener body is framed when it reads everything but the trace and
    only appends to the trace. *)
Definition framed {A} (m : M A) : Prop :=
  forall t st,
    m (with_trace t st)
    = ((m (with_trace [] st)).1,
       with_trace (t ++ trace (m (with_trace [] st)).2)
                  (m (with_trace [] st)).2).

(** The complete line-feed-terminated segments of a text, and the
    partial segment after the last line feed: [segments cur s] splits
    [cur ++ s] where [cur] is a partial segment read so far. *)
Fixpoint segments (cur s : jsstring) : list jsstring * jsstring :=
  match s with
  | [] => ([], cur)
  | c :: r =>
    if c =? LF then prod_map (cons cur) id (segments [] r)
    else segments (cur ++ [c]) r
  end.

Definition complete_lines (s : jsstring) : list jsstring :=
  fst (segments [] s).

Definition partial_line (s : jsstring) : jsstring := snd (segments [] s).

(** The text that has segments [ls] and then the partial segment [rest]. *)
Definition join_lines (ls : list jsstring) (rest : jsstring) : jsstring :=
  concat ((fun l => l ++ [LF]) <$> ls) ++ rest.

Definition nonempty (s : jsstring) : bool :=
  match s with [] => false | _ => true end.

(** The key a job is registered under. *)
Definition registry_key (k : Kind) (key : jsstring) : jsstring :=
  match k with
  | Fetch => js "fetch:" ++ key
  | Download => js "download:" ++ key
  | Patch => js "patch:" ++ key
  end.

(** The kind and key of a request event. *)
Definition request_of (ev : Event) : option (Kind * jsstring) :=
  match ev with
  | ipc_fetch_github_releases repoUrl _ => Some (Fetch, repoUrl)
  | ipc_download_and_compile_deb downloadUrl _ => Some (Download, downloadUrl)
  | ipc_start_patching data _ => Some (Patch, identifier data)
  | _ => None
  end.

Section Observations.

Context `{Host}.

(** The per-line handler of a job's stdout listener. *)
Definition on_line (k : Kind) (subject : jsstring) : jsstring -> M unit :=
  match k with
  | Fetch => fetch_on_line
  | Download => download_on_line
  | Patch => patch_on_line subject
  end.

(** What the per-line handler does with one non-empty line, given the
    window: the actions it adds to an empty trace. *)
Definition line_actions (k : Kind) (subject : jsstring)
           (w : option BrowserWindow) (line : jsstring) : list Action :=
  trace (snd (on_line k subject line (mkState w ∅ [] [] [] ∅ []))).

(** The line the patch listener logs for every chunk before decoding
    it; the other two listeners log nothing there. *)
Definition raw_data_log (k : Kind) (subject : jsstring) (data : Buffer)
  : list Action :=
  match k with
  | Patch => [Console Log (js "[PATCH STDOUT] Raw data for " ++ subject
                           ++ js ": " ++ trim (toString data))]
  | _ => []
  end.

(** What one chunk makes the stdout listener do, given the retained
    buffer [b]. *)
Definition chunk_actions (k : Kind) (subject : jsstring)
           (w : option BrowserWindow) (b : jsstring) (data : Buffer)
  : list Action :=
  raw_data_log k subject data
  ++ flat_map (line_actions k subject w)
              (filter (fun l => nonempty l = true)
                      (complete_lines (b ++ toString data))).

(** The values of the lines that [JSON.parse] accepts, in order. *)
Definition parsed_messages (lines : list jsstring) : list JsValue :=
  omap (fun l => match JSON_parse l with
                 | Normal v => Some v
                 | Throw _ => None
                 end) lines.

(** The payload a stdout listener sends on [backend-message] for a line
    that parsed to [v]: the value as it is for a download job; for a patch
    job the value after [jsonData.identifier = identifier], and nothing
    when that assignment throws; nothing for a fetch job, whose results
    go to channels of their own. *)
Definition forwarded (k : Kind) (subject : jsstring) (v : JsValue)
  : option JsValue :=
  match k with
  | Fetch => None
  | Download => Some v
  | Patch =>
    match set_prop v (js "identifier") (JStr subject) with
    | Normal v' => Some v'
    | Throw _ => None
    end
  end.

(** The [process_exit] message the ['close'] listener of a download or
    patch job sends. *)
Definition exit_message (c : Child) (code : option Z) : JsValue :=
  match kind c with
  | Patch => patch_exit_message (subject c) code
  | _ => download_exit_message (subject c) code
  end.

(** The warning a stdout listener logs for a line it cannot use. *)
Definition non_json_warning (k : Kind) (line : jsstring) : Action :=
  Console Warn
    (match k with
     | Fetch =>
       js "[MAIN PROCESS] Non-JSON line from backend during fetch: "
     | Download =>
       js "[MAIN PROCESS] Non-JSON line from backend during download: "
     | Patch =>
       js "[MAIN PROCESS] Non-JSON line from backend during patch: "
     end ++ line).

(** The warning a request logs when its key is registered. *)
Definition already_running (k : Kind) (key : jsstring) : Action :=
  Console Warn
    (match k with
     | Fetch => js "[MAIN PROCESS] Fetch process already running for: "
     | Download =>
       js "[MAIN PROCESS] Download process already running for: "
     | Patch =>
       js "[MAIN PROCESS] Patching process already running for identifier: "
     end ++ key).

(** The path a patch request stages its input at, and the write it
    starts. *)
Definition staged_path (data : PatchData) (now : Z) : jsstring :=
  path_join [os_tmpdir;
             if string_truthy (ipaName data) then default [] (ipaName data)
             else js "temp_ipa_" ++ number_toString now ++ js ".ipa"].

Definition staged_write (data : PatchData) (now : Z) (ipa : Buffer)
           (tweak : jsstring) : PendingWrite :=
  mkPendingWrite (staged_path data now) ipa tweak (identifier data)
                 (registry_key Patch (identifier data)) false.

(** What [mainWindow.webContents.send] leaves in the trace when it is
    the last statement of a listener. *)
Definition send_action (w : option BrowserWindow) (channel : string)
           (payload : JsValue) : Action :=
  match w with
  | Some _ => Send (js channel) payload
  | None => Uncaught TypeError
  end.

(** The line a ['close'] listener logs. *)
Definition exit_log (c : Child) (code : option Z) : jsstring :=
  match kind c with
  | Fetch => js "[MAIN PROCESS] Backend fetch process for "
  | Download => js "[MAIN PROCESS] Backend download process for "
  | Patch => js "[MAIN PROCESS] Backend patch process for "
  end ++ subject c ++ js " exited with code " ++ code_toString code.

(** Every registry entry points at a child of the kind and key its name
    says, every write in progress carries a patch key, and no retained
    buffer holds a line feed. *)
Definition well_formed (st : State) : Prop :=
  (forall key child, activeProcesses st !! key = Some child ->
     exists c, children st !! child = Some c
               /\ key = registry_key (kind c) (subject c))
  /\ (forall op w, writes st !! op = Some w ->
        w_processKey w = registry_key Patch (w_identifier w))
  /\ (forall child c, children st !! child = Some c -> LF ∉ buffer c).

(** The states the main process can be in. *)
Inductive reachable : State -> Prop :=
| reachable_ready fs : reachable (ready fs)
| reachable_step st ev : reachable st -> reachable (step st ev).

End Observations.

(* ===================================================================== *)
(** ** Scenarios *)
(* ===================================================================== *)

(** The runs the examples below are about, on the POSIX machine. *)

Definition app_deb : jsstring := js "https://host/app.deb".

Definition download_child : Child :=
  mkChild Download app_deb (registry_key Download app_deb) [] (Some 4242) []
          false.

(** A download job has just been admitted. *)
Definition download_started : State :=
  step (ready ∅) (ipc_download_and_compile_deb app_deb (Some 4242)).

(** Its worker prints an operation result and exits with code 0. *)
Definition operation_completed_then_exit : State :=
  steps download_started
        [stdout_data 0 (bytesq "{'type':'operation','status':'completed'}|");
         child_close 0 (Some 0)].

(** The two bytes of U+00E9 end one chunk and begin the next. *)
Definition e_acute_head : Buffer := bytesq "{'a':'" ++ [Byte.xc3].

Definition e_acute_tail : Buffer := [Byte.xa9] ++ bytesq "'}|".

(** A fetch and a download are requested for one and the same string. *)
Definition fetch_and_download_of_one_key : State :=
  steps (ready ∅)
        [ipc_fetch_github_releases (js "owner/repo") (Some 4242);
         ipc_download_and_compile_deb (js "owner/repo") (Some 4243)].

(** A fetch worker exits with code 1 having printed nothing. *)
Definition fetch_crashed : State :=
  steps (ready ∅)
        [ipc_fetch_github_releases (js "owner/repo") (Some 4242);
         child_close 0 (Some 1)].

Definition patch_request : PatchData :=
  mkPatchData (Some (bytes "IPA")) (Some (js "tweaks/t.tar"))
              (js "https://host/tweak.deb") (Some (js "App.ipa")).

Definition patch_child : Child :=
  mkChild Patch (js "https://host/tweak.deb")
          (registry_key Patch (js "https://host/tweak.deb"))
          (js "/tmp/App.ipa") (Some 4242) [] false.

(** A patch request has been received and its input is being written. *)
Definition patch_staging : State :=
  step (ready ∅) (ipc_start_patching patch_request 1700000000000).

(** The write succeeded and the worker was launched. *)
Definition patch_started : State :=
  step patch_staging (writeFile_done 0 Written (Some 4242)).

(** The write failed on a full disk, leaving two bytes behind. *)
Definition staging_failed : State :=
  step patch_staging
       (writeFile_done 0 (WriteFailed (js "ENOSPC") (Some (bytes "IP"))) None).

(** The main window is closed while the input is being written, and the
    write then fails. *)
Definition staging_failed_without_window : State :=
  steps patch_staging
        [window_closed;
         writeFile_done 0 (WriteFailed (js "ENOSPC") (Some (bytes "IP")))
                        None].

(** The patch request is made a second time while the input of the first
    is still being written. *)
Definition patch_requested_twice : State :=
  step patch_staging (ipc_start_patching patch_request 1700000000001).

(** Both writes then succeed. *)
Definition patch_launched_twice : State :=
  steps patch_requested_twice
        [writeFile_done 0 Written (Some 4242);
         writeFile_done 1 Written (Some 4243)].

(** The download is requested a second time while its worker runs. *)
Definition download_requested_twice : State :=
  step download_started (ipc_download_and_compile_deb app_deb (Some 4243)).

(** The write succeeded and the launch failed: the child reports an
    error and never closes. *)
Definition launch_failed : State :=
  steps patch_staging [writeFile_done 0 Written None; child_error 0].

(** The patch worker prints a message that names an identifier of its
    own. *)
Definition patch_message_with_identifier : State :=
  step patch_started
       (stdout_data 0
          (bytesq "{'identifier':'asset-9','status':'unpacking'}|")).

(* ===================================================================== *)
(** ** More observations on the main process *)
(* ===================================================================== *)

Section Invariants.

Context `{Host}.

(** Every registry entry points at a child that has not closed and whose
    listeners close over the entry's key. *)
Definition registered_open (st : State) : Prop :=
  forall key child, activeProcesses st !! key = Some child ->
    exists c, children st !! child = Some c
              /\ closed c = false /\ processKey c = key.

(** The three argument vectors the listeners pass to [spawn]. *)
Definition worker_command_line (args : list jsstring) : Prop :=
  (exists repoUrl,
     args = [pythonScript; js "--github"; repoUrl; js "--verbose"])
  \/ (exists downloadUrl,
        args = [pythonScript; js "--download-url"; downloadUrl;
                js "--verbose"])
  \/ (exists tempIpaPath tweakPath,
        tweakPath <> []
        /\ args = [pythonScript; js "--patch"; tempIpaPath;
                   js "--with-data-tar"; tweakPath; js "--verbose"]).

(** The value of [v.k], [undefined] where reading it throws. *)
Definition prop (v : JsValue) (k : string) : JsValue :=
  match get_prop v (js k) with
  | Normal x => x
  | Throw _ => JUndefined
  end.

(** Every write in progress carries a tweak path that is not empty. *)
Definition staged_with_tweak (st : State) : Prop :=
  forall op w, writes st !! op = Some w -> w_tweakPath w <> [].

(** The commands [spawn] was called with. *)
Definition commands (l : list Action) : list jsstring :=
  omap (fun a => match a with Spawn c _ => Some c | _ => None end) l.

(** The exceptions no listener caught. *)
Definition uncaught (l : list Action) : list Exn :=
  omap (fun a => match a with Uncaught e => Some e | _ => None end) l.

(** The lines written to the console at level [Error]. *)
Definition console_errors (l : list Action) : list jsstring :=
  omap (fun a => match a with Console Error t => Some t | _ => None end) l.

(** Every process was spawned as [python] on one of the three argument
    vectors, and every child is what one call of [spawn] returned. *)
Definition spawned_by_listeners (st : State) : Prop :=
  Forall worker_command_line (spawned st)
  /\ Forall (fun c => c = js "python") (commands (trace st))
  /\ length (spawned st) = length (children st).

End Invariants.

(* ===================================================================== *)
(** ** The window controls of [src/main.js] *)
(* ===================================================================== *)

(** The methods of [mainWindow] the window-control listeners call. *)
Inductive WindowMethod := minimize | close | maximize | unmaximize.

(** The main process with its window controls: the backend state, whether
    the window is maximized ([mainWindow.isMaximized()]), the listeners
    that [ipcMain.once('animation-finished', ...)] has registered and that
    have not run, in registration order, each named by the method it
    calls, and the methods called on the window so far. *)
Record Shell := mkShell {
  backend : State;
  isMaximized : bool;
  animation_finished : list WindowMethod;
  window_calls : list WindowMethod
}.

(** What the runtime delivers: the events of the backend listeners, the
    three window-control messages of the renderer, its
    ['animation-finished'] message, and the window's ['restore'] event. *)
Inductive ShellEvent :=
| backend_event (ev : Event)
| ipc_minimize_window
| ipc_close_window
| ipc_maximize_window
| ipc_animation_finished
| window_restore.

Section WindowControls.

Context `{Host}.

Definition set_backend (st : State) (sh : Shell) : Shell :=
  mkShell st (isMaximized sh) (animation_finished sh) (window_calls sh).

Definition set_animation_finished (ls : list WindowMethod) (sh : Shell)
  : Shell :=
  mkShell (backend sh) (isMaximized sh) ls (window_calls sh).

(** [mainWindow.minimize()] and the like, on a window that exists;
    [maximize] and [unmaximize] are reflected by [isMaximized] at once,
    and [close] only starts the closing: ['closed'] is an event of its
    own. *)
Definition call (m : WindowMethod) (sh : Shell) : Shell :=
  mkShell (backend sh)
          (match m with
           | maximize => true
           | unmaximize => false
           | _ => isMaximized sh
           end)
          (animation_finished sh) (window_calls sh ++ [m]).

(** [mainWindow.webContents.send(channel);
     ipcMain.once('animation-finished', () => { mainWindow.m(); });]
    A message sent with no argument has payload [undefined].  When the
    window is [null] the first statement throws and [once] is not
    reached. *)
Definition start_animation (channel : string) (m : WindowMethod)
           (sh : Shell) : Shell :=
  match webContents_send channel JUndefined (backend sh) with
  | (Normal _, st) =>
    set_animation_finished (animation_finished sh ++ [m]) (set_backend st sh)
  | (Throw e, st) => set_backend (emit (Uncaught e) st) sh
  end.

(** [ipcMain.emit('animation-finished')] on the listeners [ls] that were
    registered when it started: a [once] listener is removed, then
    called; one that throws ends the emit, and the listeners after it
    stay registered. *)
Fixpoint emit_animation_finished (ls : list WindowMethod) (sh : Shell)
  : Shell :=
  match ls with
  | [] => sh
  | m :: ls =>
    let sh := set_animation_finished (tail (animation_finished sh)) sh in
    match mainWindow (backend sh) with
    | Some _ => emit_animation_finished ls (call m sh)
    | None => set_backend (emit (Uncaught TypeError) (backend sh)) sh
    end
  end.

(** The ['maximize-window'] listener. *)
Definition on_maximize_window (sh : Shell) : Shell :=
  match mainWindow (backend sh) with
  | Some _ => if isMaximized sh then call unmaximize sh else call maximize sh
  | None => sh
  end.

(** One event.  [createWindow] makes a window that is not maximized. *)
Definition shell_step (sh : Shell) (ev : ShellEvent) : Shell :=
  match ev with
  | backend_event ev =>
    mkShell (step (backend sh) ev)
            (match ev, mainWindow (backend sh) with
             | app_activate, None => false
             | _, _ => isMaximized sh
             end)
            (animation_finished sh) (window_calls sh)
  | ipc_minimize_window => start_animation "start-minimize-animation" minimize sh
  | ipc_close_window => start_animation "start-close-animation" close sh
  | ipc_maximize_window => on_maximize_window sh
  | ipc_animation_finished =>
    emit_animation_finished (animation_finished sh) sh
  | window_restore =>
    set_backend (run (webContents_send "window-restored" JUndefined)
                     (backend sh)) sh
  end.

Definition shell_steps (sh : Shell) (evs : list ShellEvent) : Shell :=
  fold_left shell_step evs sh.

(** The main process once [app] is ready. *)
Definition shell_ready (fs : gmap jsstring Buffer) : Shell :=
  mkShell (ready fs) false [] [].

Inductive shell_reachable : Shell -> Prop :=
| shell_reachable_ready fs : shell_reachable (shell_ready fs)
| shell_reachable_step sh ev :
    shell_reachable sh -> shell_reachable (shell_step sh ev).

(** The window method a window-control message asks for after the
    animation. *)
Definition requested (ev : ShellEvent) : option WindowMethod :=
  match ev with
  | ipc_minimize_window => Some minimize
  | ipc_close_window => Some close
  | _ => None
  end.

(** The channel an event of the renderer arrives on. *)
Definition channel_of (ev : ShellEvent) : option jsstring :=
  match ev with
  | backend_event (ipc_fetch_github_releases _ _) =>
    Some (js "fetch-github-releases")
  | backend_event (ipc_download_and_compile_deb _ _) =>
    Some (js "download-and-compile-deb")
  | backend_event (ipc_start_patching _ _) => Some (js "start-patching")
  | ipc_minimize_window => Some (js "minimize-window")
  | ipc_close_window => Some (js "close-window")
  | ipc_maximize_window => Some (js "maximize-window")
  | ipc_animation_finished => Some (js "animation-finished")
  | _ => None
  end.

End WindowControls.

(* ===================================================================== *)
(** ** The bridge of [src/renderer/scripts/preload.js] *)
(* ===================================================================== *)

Module Preload.

(** The [validChannels] of [send]. *)
Definition send_validChannels : list jsstring :=
  js <$> ["minimize-window"; "maximize-window"; "close-window";
          "run-conversion"; "open-external-link"; "fetch-github-releases";
          "download-and-compile-deb"; "start-patching";
          "animation-finished"]%string.

(** The [validChannels] of [receive]. *)
Definition receive_validChannels : list jsstring :=
  js <$> ["conversion-progress"; "conversion-error"; "conversion-complete";
          "github-releases-data"; "github-releases-error"; "backend-message";
          "start-minimize-animation"; "start-close-animation";
          "window-restored"]%string.

(** [validChannels.includes(channel)] *)
Definition includes (validChannels : list jsstring) (channel : jsstring)
  : bool :=
  bool_decide (channel ∈ validChannels).

(** [send(channel, data)]: what goes to [ipcRenderer.send], if anything. *)
Definition send (channel : jsstring) (data : JsValue)
  : option (jsstring * JsValue) :=
  if includes send_validChannels channel then Some (channel, data) else None.

(** [receive(channel, func)]: whether [func] is registered with
    [ipcRenderer.on]. *)
Definition receive (channel : jsstring) : bool :=
  includes receive_validChannels channel.

(** The messages of the main process that a renderer which has called
    [receive] for every channel it names gets to see. *)
Definition delivered (msgs : list (jsstring * JsValue))
  : list (jsstring * JsValue) :=
  filter (fun m => receive m.1 = true) msgs.

End Preload.

(** The channels [src/main.js] names in a [webContents.send]. *)
Definition main_channels : list jsstring :=
  js <$> ["github-releases-data"; "github-releases-error"; "backend-message";
          "start-minimize-animation"; "start-close-animation";
          "window-restored"]%string.

(** Every message among the actions [l] is on one of these channels. *)
Definition whitelisted (l : list Action) : Prop :=
  Forall (fun m => m.1 ∈ main_channels) (sends l).

(* ===================================================================== *)
(** ** [src/renderer/scripts/github-api.js] *)
(* ===================================================================== *)

#[global] Instance Completion_ret : MRet Completion := fun A a => Normal a.

#[global] Instance Completion_bind : MBind Completion := fun A B f c =>
  match c with
  | Normal a => f a
  | Throw e => Throw e
  end.

(** [s.startsWith(prefix)] *)
Fixpoint startsWith (s prefix : jsstring) : bool :=
  match prefix, s with
  | [], _ => true
  | p :: prefix, c :: s => (c =? p) && startsWith s prefix
  | _ :: _, [] => false
  end.

(** [s.endsWith(suffix)] *)
Definition endsWith (s suffix : jsstring) : bool :=
  startsWith (rev s) (rev suffix).

Definition SLASH : Z := 47.

(** [s.split('/')]: [split_from cur s] splits [cur ++ s] where [cur] is
    the piece read so far and holds no slash. *)
Fixpoint split_from (cur s : jsstring) : list jsstring :=
  match s with
  | [] => [cur]
  | c :: r =>
    if c =? SLASH then cur :: split_from [] r else split_from (cur ++ [c]) r
  end.

Definition split (s : jsstring) : list jsstring := split_from [] s.

(** A method of [Array.prototype] looked up on [v]: the elements it runs
    on.  On anything but an array there is no such method, or the
    property of that name is no function, and the call throws. *)
Definition array_method (v : JsValue) (name : string)
  : Completion (list JsValue) :=
  match v with
  | JArr elems props =>
    if bool_decide (is_Some (props !! js name)) then Throw TypeError
    else Normal elems
  | _ => Throw TypeError
  end.

(** [elems.some(cb)] stops at the first element [cb] accepts. *)
Fixpoint array_some (cb : JsValue -> Completion bool) (elems : list JsValue)
  : Completion bool :=
  match elems with
  | [] => Normal false
  | x :: r => b ← cb x; if b : bool then Normal true else array_some cb r
  end.

(** [elems.filter(cb)] *)
Fixpoint array_filter (cb : JsValue -> Completion bool)
         (elems : list JsValue) : Completion (list JsValue) :=
  match elems with
  | [] => Normal []
  | x :: r =>
    b ← cb x;
    kept ← array_filter cb r;
    Normal (if b : bool then x :: kept else kept)
  end.

(** Whether a callback returned [true]. *)
Definition accepted (c : Completion bool) : bool :=
  match c with
  | Normal true => true
  | _ => false
  end.

Module GithubApi.

(** The browser: [new URL(url).pathname], which throws on what is no
    URL. *)
Class Browser := {
  URL_pathname : jsstring -> Completion jsstring
}.

(** A response of [fetch]: [ok], [status] and what [json()] resolves to
    or rejects with. *)
Record Response := mkResponse {
  ok : bool;
  status : Z;
  json : Completion JsValue
}.

(** What a call of [fetchRepoData] does: the URLs it fetches, the
    exception it logs with [console.error], and the object it resolves
    to. *)
Record Outcome := mkOutcome {
  requests : list jsstring;
  logged : list Exn;
  result : JsValue
}.

Section GithubApi.

Context `{Browser}.

(** [parts = s.split('/').filter(p => p);
     if (parts.length >= 2) return { owner: parts[0], repo: parts[1] };] *)
Definition parts (s : jsstring) : list jsstring :=
  filter (fun p => nonempty p = true) (split s).

Definition owner_repo (parts : list jsstring) : option (jsstring * jsstring) :=
  match parts with
  | owner :: repo :: _ => Some (owner, repo)
  | _ => None
  end.

(** [parseRepoUrl(url)], [None] for [null]. *)
Definition parseRepoUrl (url : jsstring) : option (jsstring * jsstring) :=
  if startsWith url (js "http") then
    match URL_pathname url with
    | Normal path => owner_repo (parts path)
    | Throw _ => None
    end
  else owner_repo (parts url).

(** [a => a.name.endsWith('.deb')] *)
Definition is_deb_asset (a : JsValue) : Completion bool :=
  name ← get_prop a (js "name");
  match name with
  | JStr s => Normal (endsWith s (js ".deb"))
  | _ => Throw TypeError
  end.

(** [release => !release.draft && release.assets.some(...)] *)
Definition keeps_release (release : JsValue) : Completion bool :=
  draft ← get_prop release (js "draft");
  if truthy draft then Normal false
  else
    assets ← get_prop release (js "assets");
    elems ← array_method assets "some";
    array_some is_deb_asset elems.

(** The [repo] object of the result. *)
Definition repo_summary (repoData : JsValue) : Completion JsValue :=
  name ← get_prop repoData (js "name");
  description ← get_prop repoData (js "description");
  stars ← get_prop repoData (js "stargazers_count");
  forks ← get_prop repoData (js "forks_count");
  owner ← get_prop repoData (js "owner");
  avatarUrl ← get_prop owner (js "avatar_url");
  Normal (object [("name", name); ("description", description);
                  ("stars", stars); ("forks", forks);
                  ("avatarUrl", avatarUrl)]).

Definition error_result (message : jsstring) : JsValue :=
  object [("error", JStr message)].

Definition repo_url (owner repo : jsstring) : jsstring :=
  js "https://api.github.com/repos/" ++ owner ++ js "/" ++ repo.

Definition releases_url (owner repo : jsstring) : jsstring :=
  repo_url owner repo ++ js "/releases".

(** The body of the [try] block once both fetches have settled; a
    rejected [fetch] rejects [Promise.all]. *)
Definition fetched (repoRes releasesRes : option Response)
  : Completion JsValue :=
  match repoRes, releasesRes with
  | Some repoRes, Some releasesRes =>
    if negb (ok repoRes) then
      Normal (error_result
                (js "Repository not found or API limit exceeded. Status: "
                 ++ number_toString (status repoRes)))
    else if negb (ok releasesRes) then
      Normal (error_result (js "Could not fetch releases. Status: "
                            ++ number_toString (status releasesRes)))
    else
      repoData ← json repoRes;
      releasesData ← json releasesRes;
      repo ← repo_summary repoData;
      elems ← array_method releasesData "filter";
      releases ← array_filter keeps_release elems;
      Normal (object [("repo", repo); ("releases", JArr releases ∅)])
  | _, _ => Throw TypeError
  end.

(** [fetchRepoData(repoUrl)], given what [fetch] answers for a URL
    ([None] when it rejects). *)
Definition fetchRepoData (fetch : jsstring -> option Response)
           (repoUrl : jsstring) : Outcome :=
  match parseRepoUrl repoUrl with
  | None => mkOutcome [] [] (error_result (js "Invalid GitHub Repository URL"))
  | Some (owner, repo) =>
    let urls := [repo_url owner repo; releases_url owner repo] in
    match fetched (fetch (repo_url owner repo))
                  (fetch (releases_url owner repo)) with
    | Normal v => mkOutcome urls [] v
    | Throw e =>
      mkOutcome urls [e]
        (error_result
           (js "Network error or invalid response from GitHub API."))
    end
  end.

End GithubApi.

End GithubApi.

(** A browser for the examples: the path of [scheme://host/path], up to
    the query or fragment, and an exception where there is no [://]. *)
Fixpoint after_scheme (s : jsstring) : option jsstring :=
  match s with
  | 58 :: 47 :: 47 :: r => Some r
  | _ :: r => after_scheme r
  | [] => None
  end.

Fixpoint path_of (in_path : bool) (s : jsstring) : jsstring :=
  match s with
  | [] => if in_path then [] else [SLASH]
  | c :: r =>
    if (c =? 63) || (c =? 35) then (if in_path then [] else [SLASH])
    else if in_path then c :: path_of true r
    else if c =? SLASH then c :: path_of true r
    else path_of false r
  end.

#[global] Instance plain_browser : GithubApi.Browser := {|
  GithubApi.URL_pathname url :=
    match after_scheme url with
    | Some r => Normal (path_of false r)
    | None => Throw TypeError
    end
|}.

(* ===================================================================== *)
(** ** The file queue of the local-files view *)
(* ===================================================================== *)

Module LocalFiles.

(** A [File] of a drop or of the file input, with the [path] Electron
    adds to it. *)
Record File := mkFile {
  name : jsstring;
  path : jsstring
}.

(** The view: the [filesToConvert] variable, the text of the items of
    the list in [#fileQueue], and [batchActions.style.display]. *)
Record View := mkView {
  filesToConvert : list File;
  fileQueue : list jsstring;
  batchActions_display : jsstring
}.

(** The view as [initLocalFiles] leaves it. *)
Definition init : View := mkView [] [] (js "none").

(** [if (!filesToConvert.some(f => f.path === file.path))
       filesToConvert.push(file);] *)
Definition push_new (queue : list File) (file : File) : list File :=
  if existsb (fun f => bool_decide (path f = path file)) queue then queue
  else queue ++ [file].

(** [updateFileQueue()], on the queue it finds. *)
Definition updateFileQueue (queue : list File) : View :=
  match queue with
  | _ :: _ => mkView queue (name <$> queue) (js "flex")
  | [] => mkView queue [] (js "none")
  end.

Definition handleFiles (files : list File) (v : View) : View :=
  updateFileQueue (fold_left push_new files (filesToConvert v)).

(** What the user does: drops files on the drop zone, picks files in the
    file input, clicks the [Remove] button of the item at [index], or
    clicks [Clear Queue]. *)
Inductive Event :=
| drop (files : list File)
| change (files : list File)
| remove_click (index : nat)
| clear_click.

(** One event.  The [Remove] buttons are those of the items on display:
    a click on one that is not there cannot happen, and
    [splice(index, 1)] would remove nothing. *)
Definition step (v : View) (ev : Event) : View :=
  match ev with
  | drop files =>
    handleFiles (filter (fun f => endsWith (name f) (js ".deb") = true) files)
                v
  | change files => handleFiles files v
  | remove_click index => updateFileQueue (delete index (filesToConvert v))
  | clear_click => updateFileQueue []
  end.

Inductive reachable : View -> Prop :=
| reachable_init : reachable init
| reachable_step v ev : reachable v -> reachable (step v ev).

End LocalFiles.

(* ===================================================================== *)
(** ** The download buttons of the GitHub view *)
(* ===================================================================== *)

Module DownloadButton.

(** The conversions the handler leaves to the language: [String(v)] as a
    template literal does it, [Math.round(v)], and [toUpperCase] on a
    string of at most one code unit. *)
Class Coercions := {
  ToString : JsValue -> jsstring;
  Math_round : JsValue -> JsValue;
  toUpperCase : jsstring -> jsstring
}.

(** A button of the releases list with what the handlers read and write
    of it: [dataset.url], [disabled], [classList], [style.position], the
    text of its [.btn-text], the [style.width] of each of its
    [.btn-progress-bar] children in document order, and the prompts
    inserted after its list item. *)
Record Button := mkButton {
  dataset_url : jsstring;
  disabled : bool;
  classList : list jsstring;
  style_position : jsstring;
  textContent : jsstring;
  progressBars : list jsstring;
  prompts : nat
}.

(** A button as the ['github-releases-data'] receiver renders it. *)
Definition rendered (url asset_name : jsstring) : Button :=
  mkButton url false [js "btn-secondary"; js "download-btn"] [] asset_name
           [] 0.

Definition set_disabled (d : bool) (b : Button) : Button :=
  mkButton (dataset_url b) d (classList b) (style_position b)
           (textContent b) (progressBars b) (prompts b).

Definition set_textContent (t : jsstring) (b : Button) : Button :=
  mkButton (dataset_url b) (disabled b) (classList b) (style_position b) t
           (progressBars b) (prompts b).

Definition set_progressBars (bars : list jsstring) (b : Button) : Button :=
  mkButton (dataset_url b) (disabled b) (classList b) (style_position b)
           (textContent b) bars (prompts b).

(** [button.classList.add(c)] *)
Definition classList_add (c : string) (b : Button) : Button :=
  mkButton (dataset_url b) (disabled b)
           (if bool_decide (js c ∈ classList b) then classList b
            else classList b ++ [js c])
           (style_position b) (textContent b) (progressBars b) (prompts b).

(** [button.classList.contains(c)] *)
Definition classList_contains (c : string) (b : Button) : bool :=
  bool_decide (js c ∈ classList b).

(** [progressBar.style.width = w], [progressBar] being the first
    [.btn-progress-bar] of the button. *)
Definition set_width (w : jsstring) (b : Button) : Button :=
  set_progressBars (match progressBars b with
                    | [] => []
                    | _ :: bars => w :: bars
                    end) b.

(** [s.replace(/_/g, ' ')] *)
Definition replace_underscores (s : jsstring) : jsstring :=
  (fun c => if c =? 95 then 32 else c) <$> s.

(** [v !== 0]: false on the numbers [0] and [-0] only. *)
Definition not_zero (v : JsValue) : bool :=
  match v with
  | JNum m e => negb (rounds_to_zero m e)
  | _ => true
  end.

(** Whether [v] is a string, the only value of a message that has a
    [replace] method. *)
Definition is_string (v : JsValue) : bool :=
  match v with
  | JStr _ => true
  | _ => false
  end.

(** [v !== undefined] *)
Definition defined (v : JsValue) : bool :=
  match v with
  | JUndefined => false
  | _ => true
  end.

Section Handlers.

Context `{Coercions}.

(** The click on [Fetch] with [value] in the input: what is handed to
    the bridge's [send], and the [innerHTML] the releases list is set to;
    [None] when the handler does nothing. *)
Definition fetch_click (value : jsstring)
  : option ((jsstring * JsValue) * jsstring) :=
  let repoUrl := trim value in
  if truthy (JStr repoUrl)
  then Some ((js "fetch-github-releases", JStr repoUrl),
             js "<p>Fetching releases...</p>")
  else None.

(** The click on a download button: what becomes of the button and what
    is handed to the bridge's [send]. *)
Definition click (b : Button) : Button * option (jsstring * JsValue) :=
  if disabled b then (b, None)
  else
    (mkButton (dataset_url b) true (classList b) (js "relative")
              (js "Starting...") (progressBars b ++ [[]]) (prompts b),
     Some (js "download-and-compile-deb", JStr (dataset_url b))).

(** The ['backend-message'] receiver from the point where it has found
    the button of the message: the button it leaves, and the exception
    it ends with, if any. *)
Definition update (data : JsValue) (b : Button) : Button * option Exn :=
  match get_prop data (js "type"), get_prop data (js "status"),
        get_prop data (js "progress"), get_prop data (js "error"),
        get_prop data (js "code") with
  | Normal type, Normal status, Normal progress, Normal error, Normal code =>
    if strict_eq_str type (js "tweak_detected") then
      (mkButton (dataset_url b) true (classList b) (style_position b)
                (textContent b) (tail (progressBars b)) (S (prompts b)),
       None)
    else
      let b := match progressBars b with
               | [] => set_progressBars [[]] b
               | _ => b
               end in
      match (if truthy status then
               match status with
               | JStr s => Normal (replace_underscores s)
               | _ => Throw TypeError
               end
             else Normal (textContent b)) with
      | Throw e => (b, Some e)
      | Normal message =>
        let message :=
          if defined progress
          then message ++ js " (" ++ ToString (Math_round progress) ++ js "%)"
          else message in
        let b := set_textContent (toUpperCase (take 1 message)
                                  ++ drop 1 message) b in
        let b := if defined progress
                 then set_width (ToString progress ++ js "%") b else b in
        if strict_eq_str type (js "operation")
           && strict_eq_str status (js "completed") then
          (set_disabled true
             (set_width (js "100%")
                (classList_add "btn-success"
                   (set_textContent (js "Success!") b))), None)
        else if strict_eq_str type (js "operation")
                && strict_eq_str status (js "failed") then
          (set_disabled false
             (set_width (js "100%")
                (classList_add "btn-error"
                   (set_textContent
                      (js "Error: "
                       ++ ToString (js_or error (JStr (js "Failed")))) b))),
           None)
        else if strict_eq_str type (js "process_exit") && not_zero code
                && negb (classList_contains "btn-success" b) then
          (set_disabled false
             (classList_add "btn-error"
                (set_textContent (js "Process Failed") b)), None)
        else (b, None)
      end
  | _, _, _, _, _ => (b, Some TypeError)
  end.

(** The messages for one button, in order; a message that throws is
    reported by the runtime and the next one is handled. *)
Definition updates (msgs : list JsValue) (b : Button) : Button :=
  fold_left (fun b data => (update data b).1) msgs b.

End Handlers.

End DownloadButton.

(** The conversions for the examples: right on strings, on integers
    written without fraction or exponent and on ASCII letters. *)
#[global] Instance plain_coercions : DownloadButton.Coercions := {|
  DownloadButton.ToString v :=
    match v with
    | JStr s => s
    | JNum m _ => number_toString m
    | JBool true => js "true"
    | JBool false => js "false"
    | JNull => js "null"
    | JUndefined => js "undefined"
    | _ => js "[object Object]"
    end;
  DownloadButton.Math_round v := v;
  DownloadButton.toUpperCase s :=
    (fun c => if (97 <=? c) && (c <=? 122) then c - 32 else c) <$> s
|}.

(* ===================================================================== *)
(** ** More scenarios *)
(* ===================================================================== *)

(** A patch request that lacks the bytes of the IPA. *)
Definition patch_request_without_ipa : PatchData :=
  mkPatchData None (Some (js "tweaks/t.tar")) (js "https://host/tweak.deb")
              (Some (js "App.ipa")).

(** The window is closed while the download runs. *)
Definition download_without_window : State :=
  step download_started window_closed.

(** The patch worker has exited; the unlink of its input is in
    progress. *)
Definition patch_exited : State :=
  step patch_started (child_close 0 (Some 0)).

(** A second tweak is to be applied to an IPA of the same name. *)
Definition second_patch_request : PatchData :=
  mkPatchData (Some (bytes "IPB")) (Some (js "tweaks/u.tar"))
              (js "https://host/other.deb") (Some (js "App.ipa")).

(** Both patch jobs have been staged and launched. *)
Definition two_jobs_one_name : State :=
  steps (ready ∅)
        [ipc_start_patching patch_request 1700000000000;
         ipc_start_patching second_patch_request 1700000000001;
         writeFile_done 0 Written (Some 4242);
         writeFile_done 1 Written (Some 4243)].

(** The file [a.deb] under two names, and a text file. *)
Definition a_deb : LocalFiles.File :=
  LocalFiles.mkFile (js "a.deb") (js "/home/u/a.deb").

Definition a_deb_again : LocalFiles.File :=
  LocalFiles.mkFile (js "copy.deb") (js "/home/u/a.deb").

Definition notes_txt : LocalFiles.File :=
  LocalFiles.mkFile (js "notes.txt") (js "/home/u/notes.txt").

(** A network on which every [fetch] rejects. *)
Definition offline (url : jsstring) : option GithubApi.Response := None.

(** A button of the releases list for [app_deb]. *)
Definition app_deb_button : DownloadButton.Button :=
  DownloadButton.rendered app_deb (js "app.deb").

(* ===================================================================== *)
(** * Properties of the listeners *)
(* ===================================================================== *)

Example toString_ascii : toString (bytes "{}") = js "{}".
Proof. reflexivity. Qed.

Example toString_e_acute : toString [Byte.xc3; Byte.xa9] = [233].
Proof. reflexivity. Qed.

Example toString_truncated : toString [Byte.xc3] = [65533].
Proof. reflexivity. Qed.

Example JSON_parse_a1 :
  JSON_parse (jsq "{'a':1}") = Normal (object [("a", JInt 1)]).
Proof. reflexivity. Qed.

Example JSON_parse_underflow :
  JSON_parse (js "1e-400") = Normal (JNum 1 (-400))
  /\ truthy (JNum 1 (-400)) = false
  /\ DownloadButton.not_zero (JNum 1 (-400)) = false.
Proof. repeat split; by vm_compute. Qed.

Example least_double :
  rounds_to_zero 2 (-324) = true /\ rounds_to_zero 3 (-324) = false
  /\ rounds_to_zero 0 3 = true /\ rounds_to_zero 1 (-3) = false.
Proof. repeat split; by vm_compute. Qed.

Example JSON_parse_not_json : JSON_parse (js "not json") = Throw SyntaxError.
Proof. reflexivity. Qed.

Example JSON_parse_nested :
  JSON_parse
    (jsq " {'type': 'progress', 'progress': 12.5e1, 'l': [true, null, 'A\n']} ")
  = Normal (object [("type", JStr (js "progress")); ("progress", JNum 125 0);
                    ("l", JArr [JBool true; JNull; JStr [65; 10]] ∅)]).
Proof. reflexivity. Qed.

Section Facts.

Context `{Host}.

(** ** Bookkeeping *)

Lemma emit_all_nil st : emit_all [] st = st.
Proof. destruct st; unfold emit_all; simpl. by rewrite app_nil_r. Qed.

Lemma emit_all_app l1 l2 st :
  emit_all l2 (emit_all l1 st) = emit_all (l1 ++ l2) st.
Proof. unfold emit_all; simpl. by rewrite app_assoc. Qed.

Lemma set_children_emit_all cs l st :
  set_children cs (emit_all l st) = emit_all l (set_children cs st).
Proof. reflexivity. Qed.

Lemma set_children_twice cs cs' st :
  set_children cs (set_children cs' st) = set_children cs st.
Proof. reflexivity. Qed.

Lemma set_children_id st : set_children (children st) st = st.
Proof. by destruct st. Qed.

(** ** The per-line handlers only append to the trace *)

Lemma on_line_appends k subject line st :
  on_line k subject line st
  = (Normal tt, emit_all (line_actions k subject (mainWindow st) line) st).
Proof.
  unfold line_actions.
  destruct k; simpl;
    unfold fetch_on_line, download_on_line, patch_on_line, try_catch, mbind,
      M_bind, lift, webContents_send, console, act, mret, M_ret, emit; simpl;
    repeat (case_match; simplify_eq/=; try done);
    by rewrite emit_all_nil.
Qed.

(** ** The loop of the stdout listeners *)

(** With fuel above the length of the buffer the loop runs to its end: it
    hands every non-empty complete segment to the handler and leaves the
    partial segment in the buffer. *)

Lemma indexOf_lt s c i : indexOf s c = Some i -> (i < length s)%nat.
Proof.
  revert i. induction s as [|x r IH]; intros i; simpl; [done|].
  destruct (x =? c); [intros [= <-]; lia|].
  destruct (indexOf r c) as [j|]; simpl; [|done].
  intros [= <-]. specialize (IH j eq_refl). lia.
Qed.

Lemma segments_indexOf_None s : forall cur,
  indexOf s LF = None -> segments cur s = ([], cur ++ s).
Proof.
  induction s as [|x r IH]; intros cur; simpl.
  - by rewrite app_nil_r.
  - destruct (x =? LF); [done|].
    destruct (indexOf r LF) eqn:E; simpl; [done|]. intros _.
    rewrite IH by done. by rewrite <- app_assoc.
Qed.

Lemma segments_indexOf_Some s : forall cur i,
  indexOf s LF = Some i ->
  segments cur s
  = prod_map (cons (cur ++ take i s)) id (segments [] (drop (S i) s)).
Proof.
  induction s as [|x r IH]; intros cur i; simpl; [done|].
  destruct (x =? LF) eqn:E.
  - intros [= <-]. simpl. by rewrite app_nil_r.
  - destruct (indexOf r LF) as [j|] eqn:Ej; simpl; [|done].
    intros [= <-]. rewrite (IH _ j) by done. simpl.
    by rewrite <- app_assoc.
Qed.

Lemma alter_set_buffer_same child (cs : list Child) c :
  cs !! child = Some c ->
  alter (set_buffer (buffer c)) child cs = cs.
Proof.
  intros Hc. apply list_eq. intros i.
  destruct (decide (i = child)) as [->|Hne].
  - rewrite list_lookup_alter_eq, Hc. simpl. by destruct c.
  - by rewrite list_lookup_alter_ne.
Qed.

Lemma alter_set_buffer_twice child (cs : list Child) b b' :
  alter (set_buffer b) child (alter (set_buffer b') child cs)
  = alter (set_buffer b) child cs.
Proof.
  rewrite list_alter_alter_eq. apply list_alter_ext; [|done].
  by intros [].
Qed.

Lemma while_boundary_unfold fuel child f st :
  while_boundary (S fuel) child f st
  = match indexOf (buffer_of st child) LF with
    | None => (Normal tt, st)
    | Some i =>
      let line := substring (buffer_of st child) 0 i in
      let st1 := set_children
                   (alter (set_buffer (substring_from (buffer_of st child)
                                                      (i + 1)))
                          child (children st)) st in
      match (if nonempty line then f line else mret tt) st1 with
      | (Normal _, st2) => while_boundary fuel child f st2
      | (Throw e, st2) => (Throw e, st2)
      end
    end.
Proof.
  simpl. unfold mbind, M_bind, get_buffer, put_buffer, buffer_of. simpl.
  destruct (indexOf _ LF); [|done]. simpl.
  by destruct (substring _ 0 n).
Qed.

Lemma while_boundary_spec k subject child fuel : forall st c,
  children st !! child = Some c ->
  (length (buffer c) < fuel)%nat ->
  while_boundary fuel child (on_line k subject) st
  = (Normal tt,
     emit_all (flat_map (line_actions k subject (mainWindow st))
                 (filter (fun l => nonempty l = true)
                         (complete_lines (buffer c))))
       (set_children (alter (set_buffer (partial_line (buffer c))) child
                            (children st)) st)).
Proof.
  induction fuel as [|fuel IH]; intros st c Hc Hlen; [lia|].
  rewrite while_boundary_unfold. unfold buffer_of. rewrite Hc. simpl.
  unfold complete_lines, partial_line.
  destruct (indexOf (buffer c) LF) as [i|] eqn:Ei.
  - rewrite (segments_indexOf_Some _ [] i) by done. simpl.
    pose proof (indexOf_lt _ _ _ Ei) as Hi.
    set (line := substring (buffer c) 0 i).
    set (st1 := set_children _ st).
    assert (Hc1 : children st1 !! child
                  = Some (set_buffer (substring_from (buffer c) (i + 1)) c)).
    { subst st1. simpl. by rewrite list_lookup_alter_eq, Hc. }
    assert (Hstep : (if nonempty line then on_line k subject line
                     else mret tt) st1
                    = (Normal tt,
                       emit_all (if nonempty line
                                 then line_actions k subject (mainWindow st)
                                                   line
                                 else []) st1)).
    { destruct line; simpl.
      - unfold mret, M_ret. by rewrite emit_all_nil.
      - by rewrite on_line_appends. }
    rewrite Hstep.
    erewrite IH; [|exact Hc1|].
    2:{ simpl. unfold substring_from. rewrite length_drop. lia. }
    simpl. f_equal.
    rewrite set_children_emit_all, emit_all_app. subst st1.
    rewrite set_children_twice, alter_set_buffer_twice.
    unfold substring_from, complete_lines, partial_line.
    replace (i + 1)%nat with (S i) by lia.
    f_equal. subst line. unfold substring. rewrite Nat.sub_0_r, drop_0.
    simpl. rewrite filter_cons. by destruct (take i (buffer c)).
  - rewrite segments_indexOf_None by done. simpl.
    rewrite emit_all_nil.
    by rewrite (alter_set_buffer_same _ _ c), set_children_id.
Qed.

Lemma feed_unfold child f data st :
  feed child f data st
  = let st1 := set_children
                 (alter (set_buffer (buffer_of st child ++ toString data))
                        child (children st)) st in
    while_boundary (S (length (buffer_of st1 child))) child f st1.
Proof. reflexivity. Qed.

Lemma feed_spec k subject child data st c :
  children st !! child = Some c ->
  feed child (on_line k subject) data st
  = (Normal tt,
     emit_all (flat_map (line_actions k subject (mainWindow st))
                 (filter (fun l => nonempty l = true)
                         (complete_lines (buffer c ++ toString data))))
       (set_children
          (alter (set_buffer (partial_line (buffer c ++ toString data))) child
                 (children st)) st)).
Proof.
  intros Hc. rewrite feed_unfold. cbv zeta.
  set (st1 := set_children _ st).
  assert (Hc1 : children st1 !! child
                = Some (set_buffer (buffer c ++ toString data) c)).
  { subst st1. unfold buffer_of. simpl.
    by rewrite list_lookup_alter_eq, Hc. }
  rewrite (while_boundary_spec _ _ _ _ _ _ Hc1).
  2:{ unfold buffer_of. rewrite Hc1. simpl. lia. }
  subst st1. unfold buffer_of. rewrite Hc. simpl.
  by rewrite alter_set_buffer_twice.
Qed.

Lemma stdout_step st child c data :
  children st !! child = Some c -> closed c = false ->
  step st (stdout_data child data)
  = emit_all (chunk_actions (kind c) (subject c) (mainWindow st) (buffer c)
                            data)
      (set_children
         (alter (set_buffer (partial_line (buffer c ++ toString data))) child
                (children st)) st).
Proof.
  intros Hc Hopen. simpl. rewrite Hc, Hopen.
  unfold run, stdout_on_data, chunk_actions.
  destruct (kind c) eqn:Hk.
  - change fetch_on_line with (on_line Fetch (subject c)).
    by rewrite (feed_spec _ _ _ _ _ c).
  - change download_on_line with (on_line Download (subject c)).
    by rewrite (feed_spec _ _ _ _ _ c).
  - unfold patch_on_data, mbind, M_bind, console, act. simpl.
    change (patch_on_line (subject c)) with (on_line Patch (subject c)).
    rewrite (feed_spec _ _ _ _ _ c) by done. simpl.
    unfold emit. by rewrite set_children_emit_all, emit_all_app.
Qed.

(** ** Segments of a text *)

Lemma segments_shift cur : forall acc s,
  LF ∉ cur -> segments acc (cur ++ s) = segments (acc ++ cur) s.
Proof.
  induction cur as [|x cur IH]; intros acc s Hno; simpl.
  - by rewrite app_nil_r.
  - apply not_elem_of_cons in Hno as [Hx Hcur].
    destruct (x =? LF) eqn:E; [apply Z.eqb_eq in E; congruence|].
    rewrite IH by done. by rewrite <- app_assoc.
Qed.

Lemma segments_spec s : forall cur,
  LF ∉ cur ->
  cur ++ s = join_lines (segments cur s).1 (segments cur s).2
  /\ Forall (fun l => LF ∉ l) (segments cur s).1
  /\ LF ∉ (segments cur s).2.
Proof.
  unfold join_lines.
  induction s as [|x r IH]; intros cur Hno; simpl.
  - by rewrite app_nil_r.
  - destruct (x =? LF) eqn:E.
    + apply Z.eqb_eq in E. subst x.
      specialize (IH [] ltac:(apply not_elem_of_nil)).
      destruct (segments [] r) as [ls rest]. simpl in *.
      destruct IH as (Heq & Hall & Hrest).
      repeat split; [|by constructor|done].
      rewrite <- !app_assoc. simpl. do 2 f_equal. exact Heq.
    + apply Z.eqb_neq in E.
      destruct (IH (cur ++ [x])) as (Heq & Hall & Hrest).
      { rewrite elem_of_app, list_elem_of_singleton. intros [?|?]; congruence. }
      repeat split; [|done..]. rewrite <- Heq. by rewrite <- app_assoc.
Qed.

Lemma segments_join ls : forall cur rest,
  Forall (fun l => LF ∉ l) ls -> LF ∉ rest ->
  segments cur (join_lines ls rest)
  = match ls with
    | [] => ([], cur ++ rest)
    | l :: ls' => ((cur ++ l) :: ls', rest)
    end.
Proof.
  unfold join_lines.
  induction ls as [|l ls IH]; intros cur rest Hall Hrest; simpl.
  - rewrite <- (app_nil_r rest) at 1. rewrite segments_shift by done.
    simpl. done.
  - apply Forall_cons in Hall as [Hl Hall].
    rewrite <- !app_assoc. rewrite segments_shift by done. simpl.
    rewrite IH by done. destruct ls; simpl; done.
Qed.

Lemma segments_unique s ls rest :
  s = join_lines ls rest ->
  Forall (fun l => LF ∉ l) ls -> LF ∉ rest ->
  complete_lines s = ls /\ partial_line s = rest.
Proof.
  intros -> Hall Hrest. unfold complete_lines, partial_line.
  rewrite segments_join by done. by destruct ls.
Qed.

Lemma segments_app x : forall cur y,
  segments cur (x ++ y)
  = prod_map (app (segments cur x).1) id (segments (segments cur x).2 y).
Proof.
  induction x as [|c x IH]; intros cur y; simpl.
  - by destruct (segments cur y).
  - destruct (c =? LF).
    + rewrite IH. by destruct (segments [] x), (segments _ y).
    + apply IH.
Qed.

Lemma lines_app x y :
  complete_lines (x ++ y)
  = complete_lines x ++ complete_lines (partial_line x ++ y)
  /\ partial_line (x ++ y) = partial_line (partial_line x ++ y).
Proof.
  unfold complete_lines, partial_line. rewrite segments_app.
  destruct (segments_spec x []) as (_ & _ & Hno); [apply not_elem_of_nil|].
  rewrite (segments_shift _ [] y) by done. simpl.
  by destruct (segments _ y).
Qed.

(** ** Any number of chunks *)

Lemma sends_app l1 l2 : sends (l1 ++ l2) = sends l1 ++ sends l2.
Proof. unfold sends. apply omap_app. Qed.

Lemma dispatched_emit_all l st :
  dispatched (emit_all l st) = dispatched st ++ sends l.
Proof. unfold dispatched. simpl. apply sends_app. Qed.

Lemma trace_emit_all l st : trace (emit_all l st) = trace st ++ l.
Proof. reflexivity. Qed.

Lemma releases_app key l1 l2 :
  releases key (l1 ++ l2) = (releases key l1 + releases key l2)%nat.
Proof. unfold releases. by rewrite omap_app, length_app. Qed.

Lemma uncaught_app l1 l2 : uncaught (l1 ++ l2) = uncaught l1 ++ uncaught l2.
Proof. apply omap_app. Qed.

Lemma console_errors_app l1 l2 :
  console_errors (l1 ++ l2) = console_errors l1 ++ console_errors l2.
Proof. apply omap_app. Qed.

Lemma spawns_app l1 l2 : spawns (l1 ++ l2) = spawns l1 ++ spawns l2.
Proof. apply omap_app. Qed.

Lemma unlinked_app l1 l2 : unlinked (l1 ++ l2) = unlinked l1 ++ unlinked l2.
Proof. apply omap_app. Qed.

Lemma commands_app l1 l2 : commands (l1 ++ l2) = commands l1 ++ commands l2.
Proof. apply omap_app. Qed.

Lemma sends_chunk_actions k subject w b data :
  sends (chunk_actions k subject w b data)
  = sends (flat_map (line_actions k subject w)
             (filter (fun l => nonempty l = true)
                     (complete_lines (b ++ toString data)))).
Proof. unfold chunk_actions. rewrite sends_app. by destruct k. Qed.

Lemma partial_line_no_LF s : LF ∉ partial_line s.
Proof.
  destruct (segments_spec s []) as (_ & _ & Hno); [apply not_elem_of_nil|done].
Qed.

Lemma partial_line_id s : LF ∉ s -> partial_line s = s.
Proof.
  intros Hno. by destruct (segments_unique s [] s) as [_ ?]; [..|done].
Qed.

Lemma steps_cons st ev evs : steps st (ev :: evs) = steps (step st ev) evs.
Proof. reflexivity. Qed.

Lemma steps_app st evs1 evs2 :
  steps st (evs1 ++ evs2) = steps (steps st evs1) evs2.
Proof. apply fold_left_app. Qed.

Lemma stdout_steps child chunks : forall st c,
  children st !! child = Some c -> closed c = false -> LF ∉ buffer c ->
  let text := concat (toString <$> chunks) in
  let st' := steps st (stdout_data child <$> chunks) in
  children st' !! child
  = Some (set_buffer (partial_line (buffer c ++ text)) c)
  /\ dispatched st'
     = dispatched st
       ++ sends (flat_map (line_actions (kind c) (subject c) (mainWindow st))
                   (filter (fun l => nonempty l = true)
                           (complete_lines (buffer c ++ text))))
  /\ mainWindow st' = mainWindow st
  /\ activeProcesses st' = activeProcesses st.
Proof.
  induction chunks as [|data chunks IH]; intros st c Hc Hopen Hno; cbv zeta.
  - simpl. rewrite app_nil_r, partial_line_id by done.
    destruct (segments_unique (buffer c) [] (buffer c)) as [-> _]; [done..|].
    simpl. rewrite app_nil_r. by destruct c.
  - rewrite !fmap_cons, steps_cons, concat_cons.
    rewrite (stdout_step _ _ c) by done.
    set (b1 := partial_line (buffer c ++ toString data)).
    set (st1 := emit_all _ _).
    destruct (IH st1 (set_buffer b1 c)) as (Hb & Hd & Hw & Ha).
    { subst st1. simpl. by rewrite list_lookup_alter_eq, Hc. }
    { done. }
    { apply partial_line_no_LF. }
    cbv zeta in Hb, Hd, Hw, Ha. rewrite Hb, Hd, Hw, Ha.
    destruct (lines_app (buffer c ++ toString data)
                        (concat (toString <$> chunks))) as [Hl Hp].
    rewrite <- app_assoc in Hl, Hp. fold b1 in Hl, Hp.
    rewrite Hl, Hp. repeat split.
    subst st1. rewrite dispatched_emit_all, sends_chunk_actions.
    rewrite filter_app, flat_map_app, sends_app, <- app_assoc. done.
Qed.

(** ** Decoding after whole characters *)

Lemma decode_whole_app n : forall x y,
  (length x <= n)%nat -> Utf8.whole x = true ->
  Utf8.decode (x ++ y) = Utf8.decode x ++ Utf8.decode y.
Proof.
  induction n as [|n IH]; intros x y Hlen Hw.
  { by destruct x; [|simpl in Hlen; lia]. }
  destruct x as [|c0 r0]; [done|].
  simpl in Hw, Hlen. cbn [app Utf8.decode]. cbv zeta.
  destruct (byte_val c0 <? 128).
  { rewrite IH by (done || lia). done. }
  destruct (Utf8.in_range 194 223 (byte_val c0)).
  { destruct r0 as [|c1 r1]; [done|]. simpl in Hlen.
    apply andb_true_iff in Hw as [H1 Hw]. cbn [app].
    rewrite !H1. rewrite IH by (done || lia). done. }
  destruct (Utf8.in_range 224 239 (byte_val c0)).
  { destruct r0 as [|c1 [|c2 r2]]; [done..|]. simpl in Hlen.
    apply andb_true_iff in Hw as [Hw H3]. apply andb_true_iff in Hw as [H1 H2].
    cbn [app]. rewrite !H1, !H2. rewrite IH by (done || lia). done. }
  destruct (Utf8.in_range 240 244 (byte_val c0)); [|done].
  destruct r0 as [|c1 [|c2 [|c3 r3]]]; [done..|]. simpl in Hlen.
  apply andb_true_iff in Hw as [Hw H4]. apply andb_true_iff in Hw as [Hw H3].
  apply andb_true_iff in Hw as [H1 H2].
  cbn [app]. rewrite !H1, !H2, !H3. rewrite IH by (done || lia).
  by rewrite app_assoc.
Qed.

Lemma toString_whole_app x y :
  Utf8.whole x = true -> toString (x ++ y) = toString x ++ toString y.
Proof. by apply (decode_whole_app (length x)). Qed.

(** ** The listeners, event by event *)

Ltac run_listener :=
  unfold run, mbind, M_bind, mret, M_ret, activeProcesses_has,
    activeProcesses_set, activeProcesses_delete, spawn, fs_writeFile,
    fs_unlink, console, act, webContents_send, emit; cbn.

Lemma has_true st key :
  is_Some (activeProcesses st !! key) ->
  bool_decide (is_Some (activeProcesses st !! key)) = true.
Proof. apply bool_decide_eq_true_2. Qed.

Lemma has_false st key :
  activeProcesses st !! key = None ->
  bool_decide (is_Some (activeProcesses st !! key)) = false.
Proof. intros ->. apply bool_decide_eq_false_2. by intros [? ?]. Qed.

Lemma request_running st ev k key :
  request_of ev = Some (k, key) ->
  is_Some (activeProcesses st !! registry_key k key) ->
  step st ev = emit (already_running k key) st.
Proof.
  intros Hev Hrun.
  destruct ev; simplify_eq/=;
    unfold on_fetch_github_releases, on_download_and_compile_deb,
      on_start_patching; run_listener; by rewrite has_true.
Qed.

Lemma fetch_admitted st repoUrl pid :
  activeProcesses st !! registry_key Fetch repoUrl = None ->
  step st (ipc_fetch_github_releases repoUrl pid)
  = emit_all
      [Console Log (js "[MAIN PROCESS] Fetching releases for: " ++ repoUrl);
       Spawn (js "python")
             [pythonScript; js "--github"; repoUrl; js "--verbose"];
       RegistrySet (registry_key Fetch repoUrl) (length (children st))]
      (set_activeProcesses
         (<[registry_key Fetch repoUrl := length (children st)]>
            (activeProcesses st))
         (set_children
            (children st
             ++ [mkChild Fetch repoUrl (registry_key Fetch repoUrl) [] pid []
                         false]) st)).
Proof.
  intros Hfree. simpl. unfold on_fetch_github_releases. run_listener.
  rewrite has_false by done. unfold emit_all. simpl.
  by rewrite <- !app_assoc.
Qed.

Lemma download_admitted st downloadUrl pid :
  activeProcesses st !! registry_key Download downloadUrl = None ->
  step st (ipc_download_and_compile_deb downloadUrl pid)
  = emit_all
      [Console Log (js "[MAIN PROCESS] Starting download/convert for: "
                    ++ downloadUrl);
       Spawn (js "python")
             [pythonScript; js "--download-url"; downloadUrl; js "--verbose"];
       RegistrySet (registry_key Download downloadUrl) (length (children st))]
      (set_activeProcesses
         (<[registry_key Download downloadUrl := length (children st)]>
            (activeProcesses st))
         (set_children
            (children st
             ++ [mkChild Download downloadUrl
                         (registry_key Download downloadUrl) [] pid [] false])
            st)).
Proof.
  intros Hfree. simpl. unfold on_download_and_compile_deb. run_listener.
  rewrite has_false by done. unfold emit_all. simpl.
  by rewrite <- !app_assoc.
Qed.

Lemma patch_staged st data now ipa tweak :
  activeProcesses st !! registry_key Patch (identifier data) = None ->
  ipaBuffer data = Some ipa -> tweakPath data = Some tweak -> tweak <> [] ->
  step st (ipc_start_patching data now)
  = emit (WriteFile (staged_path data now) ipa)
         (set_writes (writes st ++ [staged_write data now ipa tweak]) st).
Proof.
  intros Hfree Hipa Htweak Hne. simpl. unfold on_start_patching. run_listener.
  rewrite has_false by done. rewrite Hipa, Htweak.
  by destruct tweak.
Qed.

Lemma patch_invalid st data now :
  activeProcesses st !! registry_key Patch (identifier data) = None ->
  ipaBuffer data = None \/ string_truthy (tweakPath data) = false ->
  step st (ipc_start_patching data now)
  = emit_all
      [Console Error
         (js "[MAIN PROCESS] Invalid data for patching. IPA Buffer present: "
          ++ js (if bool_decide (is_Some (ipaBuffer data)) then "true"
                 else "false")
          ++ js ", Tweak: " ++ default (js "undefined") (tweakPath data));
       send_action (mainWindow st) "backend-message"
         (operation_failed (js "Invalid file data provided.")
                           (identifier data))] st.
Proof.
  intros Hfree Hbad. simpl. unfold on_start_patching. run_listener.
  rewrite has_false by done. unfold emit_all.
  destruct (mainWindow st) eqn:Hw;
    destruct (ipaBuffer data) eqn:Hipa, (tweakPath data) as [[|]|] eqn:Ht;
    simpl in *; rewrite ?Hw; simpl; rewrite <- ?app_assoc; try done;
    by destruct Hbad.
Qed.

Lemma writeFile_failed st op w err residue pid :
  writes st !! op = Some w -> w_done w = false ->
  step st (writeFile_done op (WriteFailed err residue) pid)
  = emit_all
      [Console Error (js "[MAIN PROCESS] Error writing temporary IPA file: "
                      ++ err);
       send_action (mainWindow st) "backend-message"
         (operation_failed (js "Could not save IPA file for patching.")
                           (w_identifier w))]
      (set_files (write_effect w (WriteFailed err residue) (files st))
         (set_writes (alter set_w_done op (writes st)) st)).
Proof.
  intros Hw Hdone. simpl. rewrite Hw, Hdone. unfold writeFile_callback.
  run_listener. unfold emit_all.
  destruct (mainWindow st) eqn:Hwin; simpl; by rewrite <- ?app_assoc.
Qed.

Lemma writeFile_written st op w pid :
  writes st !! op = Some w -> w_done w = false ->
  step st (writeFile_done op Written pid)
  = emit_all
      [Console Log (js "[MAIN PROCESS] Starting patch process. IPA: "
                    ++ w_path w ++ js ", Tweak: " ++ w_tweakPath w);
       Spawn (js "python")
             [pythonScript; js "--patch"; w_path w; js "--with-data-tar";
              w_tweakPath w; js "--verbose"];
       Console Log (js "[MAIN PROCESS] Spawned patch process with PID: "
                    ++ pid_toString pid ++ js " for identifier: "
                    ++ w_identifier w);
       RegistrySet (w_processKey w) (length (children st))]
      (set_activeProcesses
         (<[w_processKey w := length (children st)]> (activeProcesses st))
         (set_children
            (children st
             ++ [mkChild Patch (w_identifier w) (w_processKey w) (w_path w)
                         pid [] false])
            (set_files (<[w_path w := w_data w]> (files st))
               (set_writes (alter set_w_done op (writes st)) st)))).
Proof.
  intros Hw Hdone. simpl. rewrite Hw, Hdone. unfold writeFile_callback.
  run_listener. unfold emit_all. simpl. by rewrite <- !app_assoc.
Qed.

Lemma close_fetch st child c code :
  children st !! child = Some c -> closed c = false -> kind c = Fetch ->
  step st (child_close child code)
  = emit_all [Console Log (exit_log c code); RegistryDelete (processKey c)]
      (set_activeProcesses (delete (processKey c) (activeProcesses st))
         (set_children (alter set_closed child (children st)) st)).
Proof.
  intros Hc Hopen Hk. simpl. rewrite Hc, Hopen.
  unfold on_close, exit_log. rewrite Hk. unfold fetch_on_close.
  run_listener. unfold emit_all. simpl. by rewrite <- !app_assoc.
Qed.

Lemma close_download st child c code :
  children st !! child = Some c -> closed c = false -> kind c = Download ->
  step st (child_close child code)
  = emit_all [Console Log (exit_log c code); RegistryDelete (processKey c);
              send_action (mainWindow st) "backend-message"
                          (download_exit_message (subject c) code)]
      (set_activeProcesses (delete (processKey c) (activeProcesses st))
         (set_children (alter set_closed child (children st)) st)).
Proof.
  intros Hc Hopen Hk. simpl. rewrite Hc, Hopen.
  unfold on_close, exit_log. rewrite Hk. unfold download_on_close.
  run_listener. unfold emit_all.
  destruct (mainWindow st); simpl; by rewrite <- !app_assoc.
Qed.

Lemma close_patch st child c code :
  children st !! child = Some c -> closed c = false -> kind c = Patch ->
  step st (child_close child code)
  = emit_all [Console Log (exit_log c code); RegistryDelete (processKey c);
              Unlink (tempIpaPath c);
              send_action (mainWindow st) "backend-message"
                          (patch_exit_message (subject c) code)]
      (set_unlinks (unlinks st ++ [mkPendingUnlink (tempIpaPath c) false])
         (set_activeProcesses (delete (processKey c) (activeProcesses st))
            (set_children (alter set_closed child (children st)) st))).
Proof.
  intros Hc Hopen Hk. simpl. rewrite Hc, Hopen.
  unfold on_close, exit_log. rewrite Hk. unfold patch_on_close.
  run_listener. unfold emit_all.
  destruct (mainWindow st); simpl; by rewrite <- !app_assoc.
Qed.

Lemma unlink_succeeded st op u :
  unlinks st !! op = Some u -> u_done u = false ->
  step st (unlink_done op None)
  = emit (Console Log
            (js "[MAIN PROCESS] Successfully deleted temporary IPA file: "
             ++ u_path u))
      (set_files (delete (u_path u) (files st))
         (set_unlinks
            (alter (fun u => mkPendingUnlink (u_path u) true) op (unlinks st))
            st)).
Proof. intros Hu Hdone. simpl. by rewrite Hu, Hdone. Qed.

Lemma unlink_failed st op u e :
  unlinks st !! op = Some u -> u_done u = false ->
  step st (unlink_done op (Some e))
  = emit (Console Error
            (js "[MAIN PROCESS] Error deleting temporary IPA file: "
             ++ u_path u ++ js " " ++ e))
      (set_unlinks
         (alter (fun u => mkPendingUnlink (u_path u) true) op (unlinks st))
         st).
Proof. intros Hu Hdone. simpl. by rewrite Hu, Hdone. Qed.

(** ** The invariant of the reachable states *)

Lemma wf_alter_children f child st :
  (forall c, kind (f c) = kind c /\ subject (f c) = subject c
             /\ (LF ∉ buffer c -> LF ∉ buffer (f c))) ->
  well_formed st ->
  well_formed (set_children (alter f child (children st)) st).
Proof.
  intros Hf (Hreg & Hwr & Hbuf). split; [|split; [done|]]; simpl.
  - intros key h Hkey. destruct (Hreg key h Hkey) as (c & Hc & ->).
    rewrite list_lookup_alter. case_decide; subst; [|by exists c].
    rewrite Hc. simpl. exists (f c). by destruct (Hf c) as (-> & -> & _).
  - intros h c. rewrite list_lookup_alter. case_decide; subst; [|apply Hbuf].
    destruct (children st !! h) as [c'|] eqn:Hc'; simpl; [|done].
    intros [= <-]. apply Hf. by apply (Hbuf h).
Qed.

Lemma wf_spawn c st :
  LF ∉ buffer c ->
  well_formed st ->
  well_formed
    (set_activeProcesses
       (<[registry_key (kind c) (subject c) := length (children st)]>
          (activeProcesses st))
       (set_children (children st ++ [c]) st)).
Proof.
  intros Hc (Hreg & Hwr & Hbuf). split; [|split; [done|]]; simpl.
  - intros key h. rewrite lookup_insert. case_decide.
    + intros [= <-]. subst key. exists c. split; [|done].
      by rewrite lookup_app_r, Nat.sub_diag.
    + intros Hkey. destruct (Hreg key h Hkey) as (c' & Hc' & ->).
      exists c'. split; [|done]. by apply lookup_app_l_Some.
  - intros h c'. rewrite lookup_app.
    destruct (children st !! h) as [c''|] eqn:E.
    + intros [= <-]. by apply (Hbuf h).
    + destruct (h - length (children st))%nat; simpl; [|done].
      by intros [= <-].
Qed.

Lemma wf_delete key st :
  well_formed st ->
  well_formed (set_activeProcesses (delete key (activeProcesses st)) st).
Proof.
  intros (Hreg & Hwr & Hbuf). split; [|done]. simpl. intros k h.
  rewrite lookup_delete. case_decide; [done|]. apply Hreg.
Qed.

Lemma wf_add_write w st :
  w_processKey w = registry_key Patch (w_identifier w) ->
  well_formed st -> well_formed (set_writes (writes st ++ [w]) st).
Proof.
  intros Hw (Hreg & Hwr & Hbuf). split; [done|split; [|done]]. simpl.
  intros op w'. rewrite lookup_app. destruct (writes st !! op) eqn:E.
  - intros [= <-]. by apply (Hwr op).
  - destruct (op - length (writes st))%nat; simpl; [|done]. by intros [= <-].
Qed.

Lemma wf_write_done op st :
  well_formed st ->
  well_formed (set_writes (alter set_w_done op (writes st)) st).
Proof.
  intros (Hreg & Hwr & Hbuf). split; [done|split; [|done]]. simpl.
  intros op' w. rewrite list_lookup_alter. case_decide; subst; [|apply Hwr].
  destruct (writes st !! op') as [w'|] eqn:E; simpl; [|done].
  intros [= <-]. simpl. by apply (Hwr op').
Qed.

Lemma stderr_step st child c data :
  children st !! child = Some c -> closed c = false ->
  exists text, step st (stderr_data child data) = emit (Console Error text) st.
Proof.
  intros Hc Hopen. simpl. rewrite Hc, Hopen. unfold stderr_on_data.
  destruct (kind c); eexists; reflexivity.
Qed.

Lemma well_formed_step st ev : well_formed st -> well_formed (step st ev).
Proof.
  intros Hwf.
  destruct ev as [repoUrl pid|downloadUrl pid|data now|op r pid|op err
                  |child data|child data|child code|child| |].
  - destruct (activeProcesses st !! registry_key Fetch repoUrl) eqn:E.
    + by rewrite (request_running _ _ Fetch repoUrl).
    + rewrite fetch_admitted by done.
      apply (wf_spawn (mkChild Fetch repoUrl _ [] pid [] false) st);
        [apply not_elem_of_nil|done].
  - destruct (activeProcesses st !! registry_key Download downloadUrl) eqn:E.
    + by rewrite (request_running _ _ Download downloadUrl).
    + rewrite download_admitted by done.
      apply (wf_spawn (mkChild Download downloadUrl _ [] pid [] false) st);
        [apply not_elem_of_nil|done].
  - destruct (activeProcesses st !! registry_key Patch (identifier data)) eqn:E.
    + by rewrite (request_running _ _ Patch (identifier data)).
    + destruct (ipaBuffer data) as [ipa|] eqn:Hipa.
      2:{ rewrite patch_invalid by auto. done. }
      destruct (string_truthy (tweakPath data)) eqn:Ht.
      2:{ rewrite patch_invalid by auto. done. }
      destruct (tweakPath data) as [[|x tweak]|] eqn:Htw; try done.
      rewrite (patch_staged _ _ _ ipa (x :: tweak)) by done.
      by apply (wf_add_write (staged_write data now ipa (x :: tweak)) st).
  - destruct (writes st !! op) as [w|] eqn:Hw; [|by simpl; rewrite Hw].
    destruct (w_done w) eqn:Hd; [by simpl; rewrite Hw, Hd|].
    destruct r as [|err residue].
    + rewrite (writeFile_written _ _ w) by done.
      destruct Hwf as (Hreg & Hwr & Hbuf). rewrite (Hwr op w Hw).
      apply (wf_spawn (mkChild Patch (w_identifier w) _ (w_path w) pid []
                               false)
                      (set_files _ (set_writes _ st)));
        [apply not_elem_of_nil|].
      by apply (wf_write_done op st).
    + rewrite (writeFile_failed _ _ w) by done. by apply (wf_write_done op st).
  - simpl. destruct (unlinks st !! op) as [u|]; [|done].
    destruct (u_done u); [done|]. by destruct err.
  - destruct (children st !! child) as [c|] eqn:Hc; [|by simpl; rewrite Hc].
    destruct (closed c) eqn:Hd; [by simpl; rewrite Hc, Hd|].
    rewrite (stdout_step _ _ c) by done.
    apply (wf_alter_children _ child st); [|done].
    intros c'. repeat split. intros _. apply partial_line_no_LF.
  - destruct (children st !! child) as [c|] eqn:Hc; [|by simpl; rewrite Hc].
    destruct (closed c) eqn:Hd; [by simpl; rewrite Hc, Hd|].
    destruct (stderr_step st child c data) as [text ->]; done.
  - destruct (children st !! child) as [c|] eqn:Hc; [|by simpl; rewrite Hc].
    destruct (closed c) eqn:Hd; [by simpl; rewrite Hc, Hd|].
    assert (Hwf' : well_formed
                     (set_activeProcesses
                        (delete (processKey c) (activeProcesses st))
                        (set_children (alter set_closed child (children st))
                                      st))).
    { apply (wf_delete _ (set_children _ st)).
      by apply (wf_alter_children _ child st). }
    destruct (kind c) eqn:Hk.
    + by rewrite (close_fetch _ _ c).
    + by rewrite (close_download _ _ c).
    + by rewrite (close_patch _ _ c).
  - simpl. destruct (children st !! child) as [c|]; [|done].
    by destruct (closed c).
  - done.
  - simpl. by destruct (mainWindow st).
Qed.

Lemma ready_wf fs : well_formed (ready fs).
Proof.
  split; [|split]; simpl; intros ? ?; [by rewrite lookup_empty|done..].
Qed.

Lemma reachable_wf st : reachable st -> well_formed st.
Proof. induction 1; [apply ready_wf|by apply well_formed_step]. Qed.

Lemma registry_key_inj k1 s1 k2 s2 :
  registry_key k1 s1 = registry_key k2 s2 -> k1 = k2 /\ s1 = s2.
Proof.
  destruct k1, k2; unfold registry_key; intros Heq; try (by vm_compute in Heq);
    split; try done; revert Heq; apply (app_inv_head (js _)).
Qed.

Lemma spawned_emit_all l st : spawned (emit_all l st) = spawned st ++ spawns l.
Proof. unfold spawned, spawns. simpl. apply omap_app. Qed.

(** ** No listener reads the trace *)

Lemma with_trace_id st : with_trace (trace st) st = st.
Proof. by destruct st. Qed.

Lemma framed_at {A} (m : M A) st :
  framed m ->
  m st = ((m (with_trace [] st)).1,
          with_trace (trace st ++ trace (m (with_trace [] st)).2)
                     (m (with_trace [] st)).2).
Proof. intros Hm. rewrite <- (with_trace_id st) at 1. apply Hm. Qed.

Lemma framed_ret {A} (a : A) : framed (mret a).
Proof. intros t st. unfold mret, M_ret. simpl. by rewrite app_nil_r. Qed.

Lemma framed_lift {A} (c : Completion A) : framed (lift c).
Proof. intros t st. unfold lift. simpl. by rewrite app_nil_r. Qed.

Lemma framed_bind {A B} (m : M A) (f : A -> M B) :
  framed m -> (forall a, framed (f a)) -> framed (m ≫= f).
Proof.
  intros Hm Hf t st. unfold mbind, M_bind. rewrite (Hm t st).
  destruct (m (with_trace [] st)) as [[a|e] st1]; simpl; [|done].
  rewrite (Hf a). rewrite (framed_at (f a) st1) by done. simpl.
  by rewrite app_assoc.
Qed.

Lemma framed_try_catch (body handler : M unit) :
  framed body -> framed handler -> framed (try_catch body handler).
Proof.
  intros Hb Hh t st. unfold try_catch. rewrite (Hb t st).
  destruct (body (with_trace [] st)) as [[a|e] st1]; simpl; [done|].
  rewrite (Hh _ st1). rewrite (framed_at handler st1) by done. simpl.
  by rewrite app_assoc.
Qed.

Lemma framed_act a : framed (act a).
Proof. by intros t st. Qed.

Lemma framed_send ch p : framed (webContents_send ch p).
Proof.
  intros t st. unfold webContents_send. simpl.
  destruct (mainWindow st); simpl; [done|]. by rewrite app_nil_r.
Qed.

Lemma framed_has key : framed (activeProcesses_has key).
Proof.
  intros t st. unfold activeProcesses_has. simpl. by rewrite app_nil_r.
Qed.

Lemma framed_set key child : framed (activeProcesses_set key child).
Proof. by intros t st. Qed.

Lemma framed_delete key : framed (activeProcesses_delete key).
Proof. by intros t st. Qed.

Lemma framed_spawn args c : framed (spawn args c).
Proof. by intros t st. Qed.

Lemma framed_writeFile w : framed (fs_writeFile w).
Proof. by intros t st. Qed.

Lemma framed_unlink path : framed (fs_unlink path).
Proof. by intros t st. Qed.

Lemma framed_get_buffer child : framed (get_buffer child).
Proof. intros t st. unfold get_buffer. simpl. by rewrite app_nil_r. Qed.

Lemma framed_put_buffer child b : framed (put_buffer child b).
Proof. intros t st. unfold put_buffer. simpl. by rewrite app_nil_r. Qed.

Lemma framed_while fuel child on_line :
  (forall line, framed (on_line line)) ->
  framed (while_boundary fuel child on_line).
Proof.
  intros Hl. induction fuel as [|fuel IH]; simpl; [apply framed_ret|].
  apply framed_bind; [apply framed_get_buffer|]. intros b.
  destruct (indexOf b LF); [|apply framed_ret].
  apply framed_bind; [apply framed_put_buffer|]. intros _.
  apply framed_bind; [|done].
  match goal with |- framed (if ?b then _ else _) => destruct b end;
    [apply Hl|apply framed_ret].
Qed.

Ltac framed :=
  repeat first
    [ apply framed_ret | apply framed_lift | apply framed_act
    | apply framed_send | apply framed_has | apply framed_set
    | apply framed_delete | apply framed_spawn | apply framed_writeFile
    | apply framed_unlink | apply framed_get_buffer | apply framed_put_buffer
    | apply framed_try_catch | apply framed_bind
    | progress unfold console
    | match goal with |- forall _, framed _ => intro end
    | match goal with |- framed (if ?b then _ else _) => destruct b end
    | match goal with |- framed (match ?x with _ => _ end) => destruct x end ].

Lemma framed_on_line k subject line : framed (on_line k subject line).
Proof.
  destruct k; unfold on_line, fetch_on_line, download_on_line, patch_on_line;
    framed.
Qed.

Lemma framed_feed child k subject data :
  framed (feed child (on_line k subject) data).
Proof.
  unfold feed.
  apply framed_bind; [apply framed_get_buffer|intros b].
  apply framed_bind; [apply framed_put_buffer|intros _].
  apply framed_bind; [apply framed_get_buffer|intros b'].
  apply framed_while. intros line. apply framed_on_line.
Qed.

Lemma run_framed (m : M unit) t st :
  framed m ->
  run m (with_trace t st)
  = with_trace (t ++ trace (run m (with_trace [] st)))
               (run m (with_trace [] st)).
Proof.
  intros Hm. unfold run. rewrite (Hm t st).
  destruct (m (with_trace [] st)) as [[a|e] st1]; simpl; [done|].
  unfold emit, emit_all, with_trace. simpl. by rewrite app_assoc.
Qed.

Lemma step_with_trace t st ev :
  step (with_trace t st) ev
  = with_trace (t ++ trace (step (with_trace [] st) ev))
               (step (with_trace [] st) ev).
Proof.
  destruct ev as [repoUrl pid|downloadUrl pid|data now|op r pid
                  |op err|child data|child data|child code|child| |]; simpl.
  - apply run_framed. unfold on_fetch_github_releases. framed.
  - apply run_framed. unfold on_download_and_compile_deb. framed.
  - apply run_framed. unfold on_start_patching. framed.
  - destruct (writes st !! op) as [w|]; [|by rewrite app_nil_r].
    destruct (w_done w); [by rewrite app_nil_r|].
    apply (run_framed _ t (set_files _ (set_writes _ st))).
    unfold writeFile_callback. framed.
  - destruct (unlinks st !! op) as [u|]; [|by rewrite app_nil_r].
    destruct (u_done u); [by rewrite app_nil_r|].
    apply (run_framed _ t (set_files _ (set_unlinks _ st))).
    unfold unlink_callback. framed.
  - destruct (children st !! child) as [c|]; [|by rewrite app_nil_r].
    destruct (closed c); [by rewrite app_nil_r|].
    apply run_framed. unfold stdout_on_data, patch_on_data.
    destruct (kind c).
    + apply (framed_feed child Fetch (subject c)).
    + apply (framed_feed child Download (subject c)).
    + apply framed_bind; [framed|]. intros _.
      apply (framed_feed child Patch (subject c)).
  - destruct (children st !! child) as [c|]; [|by rewrite app_nil_r].
    destruct (closed c); [by rewrite app_nil_r|].
    apply run_framed. unfold stderr_on_data. framed.
  - destruct (children st !! child) as [c|]; [|by rewrite app_nil_r].
    destruct (closed c); [by rewrite app_nil_r|].
    apply (run_framed _ t (set_children _ st)).
    unfold on_close, fetch_on_close, download_on_close, patch_on_close.
    framed.
  - destruct (children st !! child) as [c|]; [|by rewrite app_nil_r].
    destruct (closed c); [by rewrite app_nil_r|]. done.
  - by rewrite app_nil_r.
  - destruct (mainWindow st); simpl; rewrite app_nil_r; reflexivity.
Qed.

Lemma steps_with_trace evs : forall t st,
  steps (with_trace t st) evs
  = with_trace (t ++ trace (steps (with_trace [] st) evs))
               (steps (with_trace [] st) evs).
Proof.
  induction evs as [|ev evs IH]; intros t st.
  - simpl. by rewrite app_nil_r.
  - change (steps ?s (ev :: evs)) with (steps (step s ev) evs).
    rewrite step_with_trace, IH.
    set (s1 := step (with_trace [] st) ev).
    assert (Hs : steps s1 evs
                 = with_trace (trace s1 ++ trace (steps (with_trace [] s1) evs))
                              (steps (with_trace [] s1) evs)).
    { rewrite <- (with_trace_id s1) at 1. apply IH. }
    rewrite Hs. unfold with_trace. simpl. by rewrite app_assoc.
Qed.

(** ** Requests for a key that is registered *)

(** X28. While a job is registered under a key, a request of the same kind
    for that key is a no-op: the listener logs a warning and returns; no
    process is spawned, nothing is dispatched, and the registry, the
    children (the first job's process and its decoder buffer) and the
    writes in progress are what they were.  Nothing is queued: the state
    has no place to keep the request.  The first job goes on as if the
    request had not been made: whatever events follow, the run ends in
    the same state but for that one warning in the trace, with the same
    messages dispatched and the same processes spawned. *)
Theorem duplicate_request_is_rejected st ev k key :
  request_of ev = Some (k, key) ->
  is_Some (activeProcesses st !! registry_key k key) ->
  step st ev = emit (already_running k key) st
  /\ spawned (step st ev) = spawned st
  /\ dispatched (step st ev) = dispatched st
  /\ activeProcesses (step st ev) = activeProcesses st
  /\ children (step st ev) = children st
  /\ writes (step st ev) = writes st
  /\ forall evs,
       with_trace [] (steps (step st ev) evs) = with_trace [] (steps st evs)
       /\ dispatched (steps (step st ev) evs) = dispatched (steps st evs)
       /\ spawned (steps (step st ev) evs) = spawned (steps st evs).
Proof.
  intros Hev Hrun. rewrite (request_running _ _ _ _ Hev Hrun).
  unfold emit. rewrite spawned_emit_all, dispatched_emit_all. simpl.
  rewrite !app_nil_r. do 6 (split; [done|]). intros evs.
  assert (Hdup : steps (emit_all [already_running k key] st) evs
                 = with_trace ((trace st ++ [already_running k key])
                               ++ trace (steps (with_trace [] st) evs))
                              (steps (with_trace [] st) evs)).
  { apply (steps_with_trace evs (trace st ++ [already_running k key]) st). }
  assert (Hnot : steps st evs
                 = with_trace (trace st ++ trace (steps (with_trace [] st) evs))
                              (steps (with_trace [] st) evs)).
  { rewrite <- (with_trace_id st) at 1. apply steps_with_trace. }
  rewrite Hdup, Hnot. split; [done|]. split.
  - unfold dispatched. simpl. by rewrite !sends_app, app_nil_r.
  - unfold spawned, spawns. simpl. by rewrite !omap_app, app_nil_r.
Qed.

(** ** Registry keys *)

Lemma request_keeps_other_entries st ev k s key :
  request_of ev = Some (k, s) -> key <> registry_key k s ->
  activeProcesses (step st ev) !! key = activeProcesses st !! key.
Proof.
  intros Hev Hne.
  destruct (activeProcesses st !! registry_key k s) eqn:E.
  { by rewrite (request_running _ _ _ _ Hev). }
  destruct ev; inversion Hev; subst; clear Hev.
  - rewrite fetch_admitted by done. simpl. by rewrite lookup_insert_ne.
  - rewrite download_admitted by done. simpl. by rewrite lookup_insert_ne.
  - destruct (ipaBuffer data) as [ipa|] eqn:Hipa.
    2:{ by rewrite patch_invalid by auto. }
    destruct (string_truthy (tweakPath data)) eqn:Ht.
    2:{ by rewrite patch_invalid by auto. }
    destruct (tweakPath data) as [[|x tweak]|] eqn:Htw; try done.
    by rewrite (patch_staged _ _ _ ipa (x :: tweak)).
Qed.

Lemma request_not_rejected st ev k s :
  request_of ev = Some (k, s) ->
  activeProcesses st !! registry_key k s = None ->
  step st ev <> emit (already_running k s) st.
Proof.
  intros Hev Hfree Heq. apply (f_equal trace) in Heq. revert Heq.
  destruct ev; inversion Hev; subst; clear Hev.
  - rewrite fetch_admitted by done. simpl. intros Heq.
    by apply app_inv_head in Heq.
  - rewrite download_admitted by done. simpl. intros Heq.
    by apply app_inv_head in Heq.
  - destruct (ipaBuffer data) as [ipa|] eqn:Hipa.
    2:{ rewrite patch_invalid by auto. simpl. intros Heq.
        by apply app_inv_head in Heq. }
    destruct (string_truthy (tweakPath data)) eqn:Ht.
    2:{ rewrite patch_invalid by auto. simpl. intros Heq.
        by apply app_inv_head in Heq. }
    destruct (tweakPath data) as [[|x tweak]|] eqn:Htw; try done.
    rewrite (patch_staged _ _ _ ipa (x :: tweak)) by done. simpl.
    intros Heq. by apply app_inv_head in Heq.
Qed.

(** C10. In every reachable state a registry key is the kind prefix
    [fetch:], [download:] or [patch:] followed by the requester's key, and
    the entry points at a child of that kind and key; keys of different
    kinds never coincide; a request is rejected exactly when the key of
    its own kind is registered; and a request leaves the entries of the
    other kinds for the same string alone. *)
Theorem registry_keys_are_namespaced_by_kind :
  (forall st, reachable st ->
     forall key child, activeProcesses st !! key = Some child ->
       exists c, children st !! child = Some c
                 /\ key = registry_key (kind c) (subject c))
  /\ (forall k1 k2 s1 s2,
        registry_key k1 s1 = registry_key k2 s2 -> k1 = k2 /\ s1 = s2)
  /\ (forall st ev k s,
        request_of ev = Some (k, s) ->
        (step st ev = emit (already_running k s) st
         <-> is_Some (activeProcesses st !! registry_key k s)))
  /\ (forall st ev k s k',
        request_of ev = Some (k, s) -> k' <> k ->
        activeProcesses (step st ev) !! registry_key k' s
        = activeProcesses st !! registry_key k' s).
Proof.
  split; [|split; [|split]].
  - intros st Hst. by destruct (reachable_wf st Hst) as (? & _).
  - intros k1 k2 s1 s2. apply registry_key_inj.
  - intros st ev k s Hev. split.
    + intros Heq. destruct (activeProcesses st !! registry_key k s) eqn:E;
        [done|]. by destruct (request_not_rejected st ev k s).
    + by apply request_running.
  - intros st ev k s k' Hev Hne. apply (request_keeps_other_entries _ _ k s);
      [done|]. intros Heq. by apply registry_key_inj in Heq as [? _].
Qed.

(** ** Staging, launch and exit *)

Lemma unlinked_emit_all l st :
  unlinked (trace (emit_all l st)) = unlinked (trace st) ++ unlinked l.
Proof. unfold unlinked. simpl. apply omap_app. Qed.

(** C8, as amended.  A patch request that passes the checks starts a
    write that carries the request's identifier and spawns nothing; when
    that write fails, the callback logs the error and sends on
    [backend-message] an [operation] message with status [failed] and
    that identifier, and returns before [spawn]: no process, no child, no
    registry entry is added.  While the main window exists the message is
    dispatched and nothing is left uncaught; once the window has been
    closed the send throws, nothing is dispatched and the [TypeError] is
    left uncaught. *)
Theorem staging_failure_is_reported :
  (forall st data now ipa tweak,
     activeProcesses st !! registry_key Patch (identifier data) = None ->
     ipaBuffer data = Some ipa -> tweakPath data = Some tweak -> tweak <> [] ->
     let st' := step st (ipc_start_patching data now) in
     writes st' = writes st ++ [staged_write data now ipa tweak]
     /\ w_identifier (staged_write data now ipa tweak) = identifier data
     /\ spawned st' = spawned st)
  /\ (forall st op w err residue pid,
        writes st !! op = Some w -> w_done w = false ->
        let st' := step st (writeFile_done op (WriteFailed err residue) pid) in
        let report :=
          operation_failed (js "Could not save IPA file for patching.")
                           (w_identifier w) in
        match mainWindow st with
        | Some _ =>
          dispatched st' = dispatched st ++ [(js "backend-message", report)]
          /\ uncaught (trace st') = uncaught (trace st)
        | None =>
          dispatched st' = dispatched st
          /\ uncaught (trace st') = uncaught (trace st) ++ [TypeError]
        end
        /\ has_field report "type" "operation" = true
        /\ has_field report "status" "failed" = true
        /\ get_prop report (js "identifier") = Normal (JStr (w_identifier w))
        /\ length (console_errors (trace st'))
           = S (length (console_errors (trace st)))
        /\ spawned st' = spawned st
        /\ children st' = children st
        /\ activeProcesses st' = activeProcesses st).
Proof.
  split.
  - intros st data now ipa tweak Hfree Hipa Htw Hne. cbv zeta.
    rewrite (patch_staged _ _ _ ipa tweak) by done.
    unfold emit. rewrite spawned_emit_all. simpl. by rewrite app_nil_r.
  - intros st op w err residue pid Hw Hdone. cbv zeta.
    rewrite (writeFile_failed _ _ w) by done.
    rewrite dispatched_emit_all, spawned_emit_all, trace_emit_all,
      uncaught_app, console_errors_app, length_app.
    destruct (mainWindow st); simpl; rewrite ?app_nil_r;
      (split; [done|]); repeat split; try (by vm_compute); lia.
Qed.

(** C7, as amended.  Whatever the launch did ([pid] may be [None], the
    program could not be started), the child [spawn] returned is
    registered under the job's key and nothing is dispatched at that
    point; the child's ['error'] event, for which no listener is
    registered, changes neither the registry nor what was dispatched; the
    entry goes away when ['close'] is delivered. *)
Theorem spawn_result_is_registered_whatever_the_launch :
  (forall st repoUrl pid,
     activeProcesses st !! registry_key Fetch repoUrl = None ->
     let st' := step st (ipc_fetch_github_releases repoUrl pid) in
     activeProcesses st' !! registry_key Fetch repoUrl
     = Some (length (children st))
     /\ dispatched st' = dispatched st)
  /\ (forall st downloadUrl pid,
        activeProcesses st !! registry_key Download downloadUrl = None ->
        let st' := step st (ipc_download_and_compile_deb downloadUrl pid) in
        activeProcesses st' !! registry_key Download downloadUrl
        = Some (length (children st))
        /\ dispatched st' = dispatched st)
  /\ (forall st op w pid,
        writes st !! op = Some w -> w_done w = false ->
        let st' := step st (writeFile_done op Written pid) in
        activeProcesses st' !! w_processKey w = Some (length (children st))
        /\ dispatched st' = dispatched st)
  /\ (forall st child,
        activeProcesses (step st (child_error child)) = activeProcesses st
        /\ dispatched (step st (child_error child)) = dispatched st)
  /\ (forall st child c code,
        children st !! child = Some c -> closed c = false ->
        activeProcesses (step st (child_close child code))
        = delete (processKey c) (activeProcesses st)).
Proof.
  split; [|split; [|split; [|split]]].
  - intros st repoUrl pid Hfree. cbv zeta.
    rewrite fetch_admitted by done. rewrite dispatched_emit_all. simpl.
    by rewrite lookup_insert_eq, app_nil_r.
  - intros st downloadUrl pid Hfree. cbv zeta.
    rewrite download_admitted by done. rewrite dispatched_emit_all. simpl.
    by rewrite lookup_insert_eq, app_nil_r.
  - intros st op w pid Hw Hdone. cbv zeta.
    rewrite (writeFile_written _ _ w) by done. rewrite dispatched_emit_all.
    simpl. by rewrite lookup_insert_eq, app_nil_r.
  - intros st child. simpl. destruct (children st !! child) as [c|]; [|done].
    destruct (closed c); [done|]. unfold emit.
    rewrite dispatched_emit_all. simpl. by rewrite app_nil_r.
  - intros st child c code Hc Hopen. destruct (kind c) eqn:Hk.
    + by rewrite (close_fetch _ _ c).
    + by rewrite (close_download _ _ c).
    + by rewrite (close_patch _ _ c).
Qed.

Lemma exit_status_completed code :
  strict_eq_str (exit_status code) (js "completed") = true <-> code = Some 0.
Proof.
  unfold exit_status. case_bool_decide; split; try done; by vm_compute.
Qed.

Lemma exit_status_failed code :
  strict_eq_str (exit_status code) (js "failed") = true <-> code <> Some 0.
Proof.
  unfold exit_status. case_bool_decide; split; try done; by vm_compute.
Qed.

Lemma is_terminal_set_identifier props v :
  is_terminal (JObj (<[js "identifier" := v]> props))
  = is_terminal (JObj props).
Proof.
  unfold is_terminal, has_field, get_prop.
  rewrite !lookup_insert_ne; [done|..]; intros Heq; by vm_compute in Heq.
Qed.

Lemma is_terminal_download_exit url code :
  is_terminal (download_exit_message url code) = true.
Proof.
  unfold is_terminal, download_exit_message, exit_status.
  case_bool_decide; by vm_compute.
Qed.

Lemma is_terminal_patch_exit identifier code :
  is_terminal (patch_exit_message identifier code) = true.
Proof.
  unfold is_terminal, patch_exit_message, exit_status.
  case_bool_decide; by vm_compute.
Qed.

(** C5, as amended.  When the worker of a download or patch job closes
    while the main window exists, one [process_exit] message is
    dispatched, whatever the worker printed before; its status is
    [completed] exactly when the exit code is zero and [failed] otherwise,
    also for the [null] code of a worker ended by a signal.  Once the
    window has been closed the send throws: nothing is dispatched and the
    [TypeError] is left uncaught.  When the worker of a fetch job closes,
    nothing is dispatched, window or not. *)
Theorem process_exit_is_dispatched st child c code :
  children st !! child = Some c -> closed c = false ->
  let st' := step st (child_close child code) in
  match kind c, mainWindow st with
  | Fetch, _ =>
    dispatched st' = dispatched st
    /\ uncaught (trace st') = uncaught (trace st)
  | _, Some _ =>
    dispatched st'
    = dispatched st ++ [(js "backend-message", exit_message c code)]
    /\ uncaught (trace st') = uncaught (trace st)
  | _, None =>
    dispatched st' = dispatched st
    /\ uncaught (trace st') = uncaught (trace st) ++ [TypeError]
  end
  /\ (kind c <> Fetch ->
      has_field (exit_message c code) "type" "process_exit" = true
      /\ is_terminal (exit_message c code) = true
      /\ (has_field (exit_message c code) "status" "completed" = true
          <-> code = Some 0)
      /\ (has_field (exit_message c code) "status" "failed" = true
          <-> code <> Some 0)
      /\ get_prop (exit_message c code)
                  (js match kind c with
                      | Patch => "identifier"
                      | _ => "download_url"
                      end)
         = Normal (JStr (subject c))).
Proof.
  intros Hc Hopen. cbv zeta. unfold exit_message. split.
  - destruct (kind c) eqn:Hk.
    + rewrite (close_fetch _ _ c) by done.
      rewrite dispatched_emit_all, trace_emit_all, uncaught_app.
      simpl. by rewrite !app_nil_r.
    + rewrite (close_download _ _ c) by done.
      rewrite dispatched_emit_all, trace_emit_all, uncaught_app.
      destruct (mainWindow st); simpl; by rewrite ?app_nil_r.
    + rewrite (close_patch _ _ c) by done.
      rewrite dispatched_emit_all, trace_emit_all, uncaught_app.
      destruct (mainWindow st); simpl; by rewrite ?app_nil_r.
  - intros Hk. destruct (kind c); [done|..].
    + split; [by vm_compute|].
      split; [apply is_terminal_download_exit|].
      change (has_field (download_exit_message (subject c) code) "status")
        with (fun s : string => strict_eq_str (exit_status code) (js s)).
      split; [apply exit_status_completed|].
      split; [apply exit_status_failed|by vm_compute].
    + split; [by vm_compute|].
      split; [apply is_terminal_patch_exit|].
      change (has_field (patch_exit_message (subject c) code) "status")
        with (fun s : string => strict_eq_str (exit_status code) (js s)).
      split; [apply exit_status_completed|].
      split; [apply exit_status_failed|by vm_compute].
Qed.

(** C6, as amended.  A successful write leaves the input at the staged
    path and the worker is spawned on it; when that worker closes,
    whatever its exit code, the close listener calls [fs.unlink] on the
    staged path; once an unlink succeeds the file is gone. *)
Theorem close_listener_removes_staged_file :
  (forall st op w pid,
     writes st !! op = Some w -> w_done w = false ->
     let st' := step st (writeFile_done op Written pid) in
     files st' !! w_path w = Some (w_data w)
     /\ children st' !! length (children st)
        = Some (mkChild Patch (w_identifier w) (w_processKey w) (w_path w)
                        pid [] false))
  /\ (forall st child c code,
        children st !! child = Some c -> closed c = false ->
        kind c = Patch ->
        let st' := step st (child_close child code) in
        unlinked (trace st') = unlinked (trace st) ++ [tempIpaPath c]
        /\ unlinks st' = unlinks st ++ [mkPendingUnlink (tempIpaPath c) false])
  /\ (forall st op u,
        unlinks st !! op = Some u -> u_done u = false ->
        files (step st (unlink_done op None)) !! u_path u = None).
Proof.
  split; [|split].
  - intros st op w pid Hw Hdone. cbv zeta.
    rewrite (writeFile_written _ _ w) by done. simpl.
    by rewrite lookup_insert_eq, lookup_app_r, Nat.sub_diag.
  - intros st child c code Hc Hopen Hk. cbv zeta.
    rewrite (close_patch _ _ c) by done. rewrite unlinked_emit_all.
    by destruct (mainWindow st).
  - intros st op u Hu Hdone.
    rewrite (unlink_succeeded _ _ u) by done. simpl. apply lookup_delete_eq.
Qed.

(** ** One line of a worker's output *)

Lemma line_actions_download subject win line msg :
  JSON_parse line = Normal msg ->
  line_actions Download subject (Some win) line
  = [Send (js "backend-message") msg].
Proof.
  intros Hp. unfold line_actions, on_line, download_on_line, try_catch, mbind,
    M_bind, lift. by rewrite Hp.
Qed.

Lemma line_actions_malformed k subject w line e :
  JSON_parse line = Throw e ->
  line_actions k subject w line = [non_json_warning k line].
Proof.
  intros Hp.
  destruct k; unfold line_actions, on_line, fetch_on_line, download_on_line,
    patch_on_line, try_catch, mbind, M_bind, lift; by rewrite Hp.
Qed.

Lemma line_actions_patch_value identifier win line v :
  JSON_parse line = Normal v ->
  line_actions Patch identifier (Some win) line
  = match v with
    | JUndefined | JNull => [non_json_warning Patch line]
    | JObj props =>
      [Send (js "backend-message")
            (JObj (<[js "identifier" := JStr identifier]> props))]
    | JArr elems props =>
      [Send (js "backend-message")
            (JArr elems (<[js "identifier" := JStr identifier]> props))]
    | _ => [Send (js "backend-message") v]
    end.
Proof.
  intros Hp. unfold line_actions, on_line, patch_on_line, try_catch, mbind,
    M_bind, lift. rewrite Hp. by destruct v.
Qed.

Lemma line_actions_fetch_value subject win line v :
  JSON_parse line = Normal v ->
  line_actions Fetch subject (Some win) line
  = match v with
    | JUndefined | JNull => [non_json_warning Fetch line]
    | _ =>
      if has_field v "type" "github_releases"
         && has_field v "status" "completed"
      then [Send (js "github-releases-data") (prop v "releases")]
      else if has_field v "type" "github" && has_field v "status" "failed"
      then [Send (js "github-releases-error") (prop v "error")]
      else []
    end.
Proof.
  intros Hp. unfold line_actions, on_line, fetch_on_line, try_catch, mbind,
    M_bind, lift. rewrite Hp.
  unfold has_field, prop.
  destruct v; try reflexivity; cbn [get_prop];
    unfold mret, M_ret, webContents_send; cbn [mainWindow];
    repeat match goal with
           | |- context [strict_eq_str ?a ?b] =>
             destruct (strict_eq_str a b) eqn:?
           end; reflexivity.
Qed.

Lemma line_actions_no_window k subject line :
  (k <> Fetch -> line_actions k subject None line = [non_json_warning k line])
  /\ (line_actions k subject None line = []
      \/ line_actions k subject None line = [non_json_warning k line]).
Proof.
  destruct (JSON_parse line) as [v|e] eqn:Hp.
  2:{ rewrite (line_actions_malformed _ _ _ _ e) by done. auto. }
  destruct k.
  - split; [done|].
    unfold line_actions, on_line, fetch_on_line, try_catch, mbind, M_bind,
      lift. rewrite Hp.
    destruct v; try (right; reflexivity); cbn [get_prop];
      unfold mret, M_ret, webContents_send; cbn [mainWindow];
      repeat match goal with
             | |- context [strict_eq_str ?a ?b] =>
               destruct (strict_eq_str a b) eqn:?
             end;
      first [left; reflexivity|right; reflexivity].
  - assert (line_actions Download subject None line
            = [non_json_warning Download line]); [|auto].
    unfold line_actions, on_line, download_on_line, try_catch, mbind, M_bind,
      lift. by rewrite Hp.
  - assert (line_actions Patch subject None line
            = [non_json_warning Patch line]); [|auto].
    unfold line_actions, on_line, patch_on_line, try_catch, mbind, M_bind,
      lift. rewrite Hp. by destruct v.
Qed.

Lemma sends_flat_map_nil (f : jsstring -> list Action) (ls : list jsstring) :
  (forall l, sends (f l) = []) -> sends (flat_map f ls) = [].
Proof.
  intros Hf. induction ls as [|l ls IH]; [done|].
  simpl. by rewrite sends_app, Hf, IH.
Qed.

(** ** The identifier of a dispatched message *)

(** C9, as amended.  While the main window exists the patch listener
    dispatches every decoded object or array with [identifier] set to the
    job's identifier, replacing an identifier the message carries; a
    decoded boolean, number or string is dispatched as it is, and the
    renderer finds no identifier on it; on a decoded [null] the
    assignment throws and the line is logged as a non-JSON line.  The
    download listener dispatches the decoded message as it is.  Once the
    window has been closed neither dispatches anything: the line is
    logged as a non-JSON line.  The renderer routes a message by its
    [identifier] field if that is truthy and by its [download_url] field
    otherwise, drops it when neither is truthy, and throws on [null];
    for the [process_exit] messages the field it finds is the job's own
    key. *)
Theorem patch_messages_carry_the_job_identifier :
  (forall identifier w line v,
     JSON_parse line = Normal v ->
     line_actions Patch identifier w line
     = match w with
       | None => [non_json_warning Patch line]
       | Some _ =>
         match v with
         | JUndefined | JNull => [non_json_warning Patch line]
         | JObj props =>
           [Send (js "backend-message")
                 (JObj (<[js "identifier" := JStr identifier]> props))]
         | JArr elems props =>
           [Send (js "backend-message")
                 (JArr elems (<[js "identifier" := JStr identifier]> props))]
         | _ => [Send (js "backend-message") v]
         end
       end)
  /\ (forall subject w line msg,
        JSON_parse line = Normal msg ->
        line_actions Download subject w line
        = match w with
          | None => [non_json_warning Download line]
          | Some _ => [Send (js "backend-message") msg]
          end)
  /\ (forall data,
        backend_message_identifier data
        = match data with
          | JUndefined | JNull => Throw TypeError
          | _ =>
            Normal
              (let i := prop data "identifier" in
               let u := prop data "download_url" in
               if truthy i then Some i
               else if truthy u then Some u else None)
          end)
  /\ (forall data,
        match data with
        | JBool _ | JNum _ _ | JStr _ =>
          backend_message_identifier data = Normal None
        | _ => True
        end)
  /\ (forall downloadUrl code,
        downloadUrl <> [] ->
        backend_message_identifier (download_exit_message downloadUrl code)
        = Normal (Some (JStr downloadUrl)))
  /\ (forall identifier code,
        identifier <> [] ->
        backend_message_identifier (patch_exit_message identifier code)
        = Normal (Some (JStr identifier))).
Proof.
  split; [|split; [|split; [|split; [|split]]]].
  - intros identifier [win|] line v Hp.
    + by apply line_actions_patch_value.
    + by apply line_actions_no_window.
  - intros subject [win|] line msg Hp.
    + by apply line_actions_download.
    + by apply line_actions_no_window.
  - intros data. unfold backend_message_identifier, prop.
    destruct data; try done; cbn [get_prop]; by destruct (truthy _).
  - intros data. by destruct data.
  - intros [|x url] code Hne; [done|]. by vm_compute.
  - intros [|x id] code Hne; [done|]. by vm_compute.
Qed.

(** ** Lines that are not JSON *)

Lemma stdout_step_lines st child c data lines rest :
  children st !! child = Some c -> closed c = false ->
  buffer c ++ toString data = join_lines lines rest ->
  Forall (fun l => LF ∉ l) lines -> LF ∉ rest ->
  let st' := step st (stdout_data child data) in
  trace st'
  = trace st ++ raw_data_log (kind c) (subject c) data
    ++ flat_map (line_actions (kind c) (subject c) (mainWindow st))
                (filter (fun l => nonempty l = true) lines)
  /\ buffer_of st' child = rest.
Proof.
  intros Hc Hopen Hjoin Hall Hrest. cbv zeta.
  rewrite (stdout_step _ _ c) by done.
  destruct (segments_unique _ _ _ Hjoin Hall Hrest) as [Hl Hp].
  unfold chunk_actions, buffer_of. rewrite Hl, Hp. simpl.
  by rewrite list_lookup_alter_eq, Hc.
Qed.

Lemma filter_nonempty_empties (lines : list jsstring) :
  Forall (fun l => l = []) lines ->
  filter (fun l => nonempty l = true) lines = [].
Proof.
  induction 1 as [|l lines -> _ IH]; [done|].
  by rewrite filter_cons, decide_False.
Qed.

(** C3. A line [JSON.parse] rejects makes the listener log one warning
    that carries the line, and dispatch nothing; a chunk is handled line by
    line, each non-empty complete segment on its own and the empty ones
    not at all; so the lines before and after a malformed one are
    dispatched as they would be without it, and segments that are all
    empty leave no trace.  Feeding [not json] and then [{"a":1}], each
    with its line feed, dispatches the one message [{a:1}]. *)
Theorem malformed_line_is_logged_and_skipped :
  (forall k subject w line e,
     JSON_parse line = Throw e ->
     line_actions k subject w line = [non_json_warning k line])
  /\ (forall st child c data lines rest,
        children st !! child = Some c -> closed c = false ->
        buffer c ++ toString data = join_lines lines rest ->
        Forall (fun l => LF ∉ l) lines -> LF ∉ rest ->
        let st' := step st (stdout_data child data) in
        trace st'
        = trace st ++ raw_data_log (kind c) (subject c) data
          ++ flat_map (line_actions (kind c) (subject c) (mainWindow st))
                      (filter (fun l => nonempty l = true) lines)
        /\ buffer_of st' child = rest)
  /\ (forall st child c data before bad after rest e,
        children st !! child = Some c -> closed c = false ->
        buffer c ++ toString data = join_lines (before ++ bad :: after) rest ->
        Forall (fun l => LF ∉ l) (before ++ bad :: after) -> LF ∉ rest ->
        bad <> [] -> JSON_parse bad = Throw e ->
        let st' := step st (stdout_data child data) in
        let handled ls :=
          flat_map (line_actions (kind c) (subject c) (mainWindow st))
                   (filter (fun l => nonempty l = true) ls) in
        trace st'
        = trace st ++ raw_data_log (kind c) (subject c) data
          ++ handled before ++ [non_json_warning (kind c) bad] ++ handled after
        /\ dispatched st'
           = dispatched st ++ sends (handled before) ++ sends (handled after))
  /\ (forall st child c data lines rest,
        children st !! child = Some c -> closed c = false ->
        buffer c ++ toString data = join_lines lines rest ->
        Forall (fun l => l = []) lines -> LF ∉ rest ->
        let st' := step st (stdout_data child data) in
        trace st' = trace st ++ raw_data_log (kind c) (subject c) data
        /\ buffer_of st' child = rest)
  /\ dispatched (step download_started
                      (stdout_data 0 (bytesq "not json|{'a':1}|")))
     = [(js "backend-message", object [("a", JInt 1)])].
Proof.
  split; [|split; [|split; [|split]]].
  4:{ intros st child c data lines rest Hc Hopen Hjoin Hall Hrest.
      destruct (stdout_step_lines _ _ _ _ _ _ Hc Hopen Hjoin) as [Ht Hb];
        [|done|].
      { eapply Forall_impl; [exact Hall|]. intros l ->. apply not_elem_of_nil. }
      cbv zeta in Ht |- *. rewrite Ht, Hb.
      by rewrite filter_nonempty_empties, app_nil_r. }
  4:{ by vm_compute. }
  - apply line_actions_malformed.
  - apply stdout_step_lines.
  - intros st child c data before bad after rest e Hc Hopen Hjoin Hall Hrest
           Hne Hbad. cbv zeta.
    destruct (stdout_step_lines _ _ _ _ _ _ Hc Hopen Hjoin Hall Hrest)
      as [Ht _].
    assert (Hflat :
      flat_map (line_actions (kind c) (subject c) (mainWindow st))
               (filter (fun l => nonempty l = true) (before ++ bad :: after))
      = flat_map (line_actions (kind c) (subject c) (mainWindow st))
                 (filter (fun l => nonempty l = true) before)
        ++ [non_json_warning (kind c) bad]
        ++ flat_map (line_actions (kind c) (subject c) (mainWindow st))
                    (filter (fun l => nonempty l = true) after)).
    { rewrite filter_app, filter_cons, flat_map_app.
      rewrite decide_True by by destruct bad.
      simpl. by rewrite (line_actions_malformed _ _ _ _ e). }
    rewrite Hflat in Ht. split; [done|].
    unfold dispatched. rewrite Ht, !sends_app. f_equal.
    replace (sends (raw_data_log (kind c) (subject c) data)) with
      (@nil (jsstring * JsValue)) by by destruct (kind c).
    done.
Qed.

(** ** An operation result followed by the exit *)

Lemma sends_line_actions k subject win line :
  k <> Fetch ->
  sends (line_actions k subject (Some win) line)
  = match JSON_parse line with
    | Normal v =>
      match forwarded k subject v with
      | Some m => [(js "backend-message", m)]
      | None => []
      end
    | Throw _ => []
    end.
Proof.
  intros Hk. destruct (JSON_parse line) as [v|e] eqn:Hp.
  2:{ by rewrite (line_actions_malformed _ _ _ _ e). }
  destruct k; [done|..].
  - by rewrite (line_actions_download _ _ _ v).
  - rewrite (line_actions_patch_value _ _ _ v) by done. by destruct v.
Qed.

Lemma sends_forwarded_lines k subject win (lines : list jsstring) :
  k <> Fetch ->
  sends (flat_map (line_actions k subject (Some win))
                  (filter (fun l => nonempty l = true) lines))
  = pair (js "backend-message")
    <$> omap (forwarded k subject) (parsed_messages lines).
Proof.
  intros Hk. induction lines as [|l lines IH]; [done|].
  rewrite filter_cons. unfold parsed_messages in *. destruct l as [|x l].
  - rewrite decide_False by done. by rewrite IH.
  - rewrite decide_True by done. cbn [flat_map omap list_omap].
    rewrite sends_app, IH, sends_line_actions by done.
    destruct (JSON_parse (x :: l)) as [v|e]; [|done].
    cbn [omap list_omap]. by destruct (forwarded k subject v).
Qed.

Lemma sends_lines_no_window k subject (lines : list jsstring) :
  sends (flat_map (line_actions k subject None) lines) = [].
Proof.
  apply sends_flat_map_nil. intros line.
  by destruct (line_actions_no_window k subject line) as [_ [-> | ->]].
Qed.

Lemma releases_line_actions key k subject w line :
  releases key (line_actions k subject w line) = 0%nat.
Proof.
  destruct (JSON_parse line) as [v|e] eqn:Hp.
  2:{ by rewrite (line_actions_malformed _ _ _ _ e). }
  destruct w as [win|].
  2:{ destruct (line_actions_no_window k subject line)
        as [_ [-> | ->]]; done. }
  destruct k.
  - rewrite (line_actions_fetch_value _ _ _ v) by done.
    destruct v; try done;
      repeat match goal with
             | |- context [if ?b then _ else _] => destruct b
             end; done.
  - by rewrite (line_actions_download _ _ _ v).
  - rewrite (line_actions_patch_value _ _ _ v) by done. by destruct v.
Qed.

Lemma releases_chunk_actions key k subject w b data :
  releases key (chunk_actions k subject w b data) = 0%nat.
Proof.
  unfold chunk_actions. rewrite releases_app.
  replace (releases key (raw_data_log k subject data)) with 0%nat
    by by destruct k.
  simpl. induction (filter _ _) as [|l ls IH]; [done|].
  simpl. by rewrite releases_app, IH, releases_line_actions.
Qed.

Lemma stdout_steps_releases key child chunks : forall st c,
  children st !! child = Some c -> closed c = false ->
  releases key (trace (steps st (stdout_data child <$> chunks)))
  = releases key (trace st).
Proof.
  induction chunks as [|data chunks IH]; intros st c Hc Hopen; [done|].
  rewrite fmap_cons, steps_cons.
  rewrite (IH _ (set_buffer (partial_line (buffer c ++ toString data)) c)).
  - rewrite (stdout_step _ _ c) by done.
    by rewrite trace_emit_all, releases_app, releases_chunk_actions.
  - rewrite (stdout_step _ _ c) by done. simpl.
    by rewrite list_lookup_alter_eq, Hc.
  - done.
Qed.

Lemma is_terminal_set_identifier_array elems props v :
  is_terminal (JArr elems (<[js "identifier" := v]> props))
  = is_terminal (JArr elems props).
Proof.
  unfold is_terminal, has_field, get_prop.
  rewrite !lookup_insert_ne; [done|..]; intros Heq; by vm_compute in Heq.
Qed.

Lemma is_terminal_forwarded k subject v :
  k <> Fetch ->
  match forwarded k subject v with
  | Some m => is_terminal m = is_terminal v
  | None => is_terminal v = false
  end.
Proof.
  intros Hk. destruct k; [done|done|].
  destruct v; try done; cbn [forwarded set_prop].
  - apply is_terminal_set_identifier_array.
  - apply is_terminal_set_identifier.
Qed.

Lemma terminal_forwarded k subject (vs : list JsValue) :
  k <> Fetch ->
  length (filter (fun m : jsstring * JsValue => is_terminal m.2 = true)
                 (pair (js "backend-message")
                  <$> omap (forwarded k subject) vs))
  = length (filter (fun v => is_terminal v = true) vs).
Proof.
  intros Hk. induction vs as [|v vs IH]; [done|].
  cbn [omap list_omap]. rewrite (filter_cons _ v).
  pose proof (is_terminal_forwarded k subject v Hk) as Hv.
  destruct (forwarded k subject v) as [m|].
  - rewrite fmap_cons, filter_cons. cbn [snd]. rewrite Hv.
    destruct (decide (is_terminal v = true)); simpl; by rewrite IH.
  - rewrite decide_False by by rewrite Hv. apply IH.
Qed.

(** C4, as amended.  In any state the main process can be in, the worker
    of a download or patch job writes any chunks to stdout and then
    closes.  While the main window exists, every decoded message the
    listener forwards is dispatched, an operation result (status
    [completed] or [failed]) among them as a terminal message, and the
    close listener then dispatches the [process_exit] message, which is
    terminal too: the terminal messages dispatched are one more than the
    terminal messages decoded, so two when the worker printed one
    operation result.  Once the window has been closed nothing is
    dispatched.  Either way [activeProcesses.delete] runs once for the
    job's key, in the close listener, and the key is free afterwards. *)
Theorem operation_result_and_exit_are_both_dispatched
        st child c chunks code :
  reachable st ->
  children st !! child = Some c -> closed c = false -> kind c <> Fetch ->
  let st' := steps st ((stdout_data child <$> chunks)
                       ++ [child_close child code]) in
  let decoded :=
    parsed_messages
      (complete_lines (buffer c ++ concat (toString <$> chunks))) in
  match mainWindow st with
  | Some _ =>
    dispatched st'
    = dispatched st
      ++ (pair (js "backend-message")
          <$> omap (forwarded (kind c) (subject c)) decoded)
      ++ [(js "backend-message", exit_message c code)]
    /\ length (terminal_dispatches st')
       = S (length (terminal_dispatches st)
            + length (filter (fun v => is_terminal v = true) decoded))
  | None => dispatched st' = dispatched st
  end
  /\ (forall v, is_terminal v = true ->
      exists m, forwarded (kind c) (subject c) v = Some m
                /\ is_terminal m = true)
  /\ is_terminal (exit_message c code) = true
  /\ has_field (exit_message c code) "type" "process_exit" = true
  /\ releases (processKey c) (trace st')
     = S (releases (processKey c) (trace st))
  /\ activeProcesses st' !! processKey c = None.
Proof.
  intros Hr Hc Hopen Hk. cbv zeta. rewrite steps_app.
  destruct (reachable_wf st Hr) as (_ & _ & Hbuf).
  pose proof (Hbuf child c Hc) as Hno. clear Hr Hbuf.
  destruct (stdout_steps child chunks st c Hc Hopen Hno)
    as (Hc1 & Hd1 & Hw1 & _).
  pose proof (stdout_steps_releases (processKey c) child chunks st c Hc Hopen)
    as Hr1.
  set (st1 := steps st (stdout_data child <$> chunks)) in *.
  set (c1 := set_buffer _ c) in Hc1.
  change (steps st1 [child_close child code])
    with (step st1 (child_close child code)).
  assert (Hexit : is_terminal (exit_message c code) = true
                  /\ has_field (exit_message c code) "type" "process_exit"
                     = true).
  { unfold exit_message. destruct (kind c); [done|..].
    - split; [apply is_terminal_download_exit|by vm_compute].
    - split; [apply is_terminal_patch_exit|by vm_compute]. }
  assert (Hclose :
            exists l,
              trace (step st1 (child_close child code))
              = trace st1
                ++ [Console Log (exit_log c1 code);
                    RegistryDelete (processKey c)]
                ++ l ++ [send_action (mainWindow st) "backend-message"
                                     (exit_message c code)]
              /\ sends l = [] /\ releases (processKey c) l = 0%nat
              /\ activeProcesses (step st1 (child_close child code))
                 !! processKey c = None).
  { unfold exit_message. destruct (kind c) eqn:Hkind; [done|..].
    - exists []. rewrite (close_download _ _ c1) by done.
      rewrite Hw1, trace_emit_all.
      split; [done|]. split; [done|]. split; [done|].
      apply lookup_delete_eq.
    - exists [Unlink (tempIpaPath c)]. rewrite (close_patch _ _ c1) by done.
      rewrite Hw1, trace_emit_all.
      split; [done|]. split; [done|]. split; [done|].
      apply lookup_delete_eq. }
  destruct Hclose as (l & Htr & Hsl & Hrl & Hfree).
  split; [|split; [|split; [|split; [|split]]]];
    [|intros v Hv|apply Hexit|apply Hexit| |exact Hfree].
  - unfold terminal_dispatches, dispatched. rewrite Htr, !sends_app, Hsl.
    fold (dispatched st1). rewrite Hd1.
    destruct (mainWindow st) as [win|].
    + rewrite sends_forwarded_lines by done.
      cbn [send_action sends omap list_omap app].
      rewrite <- app_assoc. split; [done|].
      rewrite !filter_app, !length_app, terminal_forwarded by done.
      rewrite filter_cons, decide_True by apply Hexit.
      unfold dispatched. simpl. lia.
    + rewrite sends_lines_no_window. simpl. by rewrite !app_nil_r.
  - pose proof (is_terminal_forwarded (kind c) (subject c) v Hk) as Hf.
    destruct (forwarded (kind c) (subject c) v) as [m|].
    + exists m. by rewrite Hf.
    + by rewrite Hv in Hf.
  - rewrite Htr, !releases_app, Hrl, Hr1.
    replace (releases (processKey c)
               [send_action (mainWindow st) "backend-message"
                            (exit_message c code)]) with 0%nat
      by by destruct (mainWindow st).
    unfold releases at 2. simpl. rewrite bool_decide_eq_true_2 by done.
    simpl. lia.
Qed.

(** ** Reassembly of lines across chunks *)

Lemma text_has_segments s :
  exists lines rest,
    s = join_lines lines rest
    /\ Forall (fun l => LF ∉ l) lines /\ LF ∉ rest.
Proof.
  exists (complete_lines s), (partial_line s).
  apply (segments_spec s []), not_elem_of_nil.
Qed.

Lemma toString_aligned front last :
  Forall (fun d => Utf8.whole d = true) front ->
  toString (concat front ++ last)
  = concat (toString <$> (front ++ [last])).
Proof.
  induction 1 as [|d front Hd _ IH]; simpl.
  - by rewrite app_nil_r.
  - rewrite <- app_assoc, toString_whole_app by done. by rewrite IH.
Qed.

Lemma sends_download_lines subject win (lines : list jsstring) :
  sends (flat_map (line_actions Download subject (Some win))
                  (filter (fun l => nonempty l = true) lines))
  = pair (js "backend-message") <$> parsed_messages lines.
Proof.
  induction lines as [|l lines IH]; [done|].
  rewrite filter_cons. unfold parsed_messages. destruct l as [|x l].
  - rewrite decide_False by done. by rewrite IH.
  - rewrite decide_True by done. cbn [flat_map omap list_omap].
    rewrite sends_app, IH.
    destruct (JSON_parse (x :: l)) as [v|e] eqn:Hp.
    + by rewrite (line_actions_download _ _ _ v).
    + by rewrite (line_actions_malformed _ _ _ _ e).
Qed.

(** C2, as amended.  Every text is a sequence of line-feed-terminated
    segments followed by a partial one, in one way only; the buffers of a
    reachable state hold no line feed; after any sequence of chunks the
    listener has handled exactly the complete segments of the retained
    buffer followed by the chunks' texts, in order, and retains the
    partial segment, so that a download job has dispatched exactly the
    values of those segments that parse; chunks that end on character
    boundaries are decoded as their concatenation is, so a message split
    there is reassembled; and the two chunks of the example yield [{a:1}]
    then [{b:2}]. *)
Theorem decoder_reassembles_lines :
  (forall s, exists lines rest,
     s = join_lines lines rest /\ Forall (fun l => LF ∉ l) lines
     /\ LF ∉ rest)
  /\ (forall st child c,
        reachable st -> children st !! child = Some c -> LF ∉ buffer c)
  /\ (forall st child c chunks lines rest,
        children st !! child = Some c -> closed c = false ->
        LF ∉ buffer c ->
        buffer c ++ concat (toString <$> chunks) = join_lines lines rest ->
        Forall (fun l => LF ∉ l) lines -> LF ∉ rest ->
        let st' := steps st (stdout_data child <$> chunks) in
        buffer_of st' child = rest
        /\ dispatched st'
           = dispatched st
             ++ sends (flat_map
                         (line_actions (kind c) (subject c) (mainWindow st))
                         (filter (fun l => nonempty l = true) lines)))
  /\ (forall st child c chunks lines rest win,
        children st !! child = Some c -> closed c = false ->
        LF ∉ buffer c ->
        buffer c ++ concat (toString <$> chunks) = join_lines lines rest ->
        Forall (fun l => LF ∉ l) lines -> LF ∉ rest ->
        kind c = Download -> mainWindow st = Some win ->
        dispatched (steps st (stdout_data child <$> chunks))
        = dispatched st
          ++ (pair (js "backend-message") <$> parsed_messages lines))
  /\ (forall st child c front last,
        children st !! child = Some c -> closed c = false ->
        LF ∉ buffer c ->
        Forall (fun d => Utf8.whole d = true) front ->
        let split := steps st (stdout_data child <$> (front ++ [last])) in
        let whole := step st (stdout_data child (concat front ++ last)) in
        buffer_of split child = buffer_of whole child
        /\ dispatched split = dispatched whole)
  /\ dispatched (steps download_started
                       [stdout_data 0 (bytesq "{'a':1}|{'b'");
                        stdout_data 0 (bytesq ":2}|")])
     = [(js "backend-message", object [("a", JInt 1)]);
        (js "backend-message", object [("b", JInt 2)])].
Proof.
  split; [|split; [|split; [|split; [|split]]]].
  - apply text_has_segments.
  - intros st child c Hst. destruct (reachable_wf st Hst) as (_ & _ & Hbuf).
    apply Hbuf.
  - intros st child c chunks lines rest Hc Hopen Hno Hjoin Hall Hrest.
    cbv zeta.
    destruct (stdout_steps child chunks st c Hc Hopen Hno)
      as (Hb & Hd & _ & _).
    destruct (segments_unique _ _ _ Hjoin Hall Hrest) as [Hl Hp].
    unfold buffer_of. rewrite Hb, Hd, Hl, Hp. done.
  - intros st child c chunks lines rest win Hc Hopen Hno Hjoin Hall Hrest
           Hk Hwin.
    destruct (stdout_steps child chunks st c Hc Hopen Hno)
      as (_ & Hd & _ & _).
    destruct (segments_unique _ _ _ Hjoin Hall Hrest) as [Hl _].
    cbv zeta in Hd. rewrite Hd, Hl, Hk, Hwin.
    by rewrite sends_download_lines.
  - intros st child c front last Hc Hopen Hno Hfront. cbv zeta.
    destruct (stdout_steps child (front ++ [last]) st c Hc Hopen Hno)
      as (Hb & Hd & _ & _).
    change (step st (stdout_data child (concat front ++ last)))
      with (steps st (stdout_data child <$> [concat front ++ last])).
    destruct (stdout_steps child [concat front ++ last] st c Hc Hopen Hno)
      as (Hb' & Hd' & _ & _).
    unfold buffer_of. rewrite Hb, Hd, Hb', Hd'.
    replace (concat (toString <$> [concat front ++ last]))
      with (toString (concat front ++ last))
      by (simpl; by rewrite app_nil_r).
    by rewrite toString_aligned.
  - by vm_compute.
Qed.

End Facts.

(* ===================================================================== *)
(** * The properties on the scenarios *)
(* ===================================================================== *)

(** C1.  The claim holds of the code for a fetch and for a download,
    which register the worker in the listener that admits the request,
    and fails for a patch: the patch listener tests the registry when the
    request arrives and writes it in the callback of [fs.writeFile].
    When the patch request is made a second time while the input of the
    first is being written, the registry is still empty, the second
    request is staged like the first and logs no warning, and once both
    writes are done two workers have been spawned for the one identifier
    and the registry entry of the first has been replaced by the second;
    the close of the first worker then frees the key while the second
    runs.  The same two requests for a download spawn one worker and log
    the warning. *)
Theorem duplicate_patch_request_during_staging_is_admitted :
  activeProcesses patch_staging = ∅
  /\ trace patch_requested_twice
     = [WriteFile (js "/tmp/App.ipa") (bytes "IPA");
        WriteFile (js "/tmp/App.ipa") (bytes "IPA")]
  /\ length (writes patch_requested_twice) = 2%nat
  /\ spawned patch_launched_twice
     = [[js "/app/backend/DebMaster.py"; js "--patch"; js "/tmp/App.ipa";
         js "--with-data-tar"; js "tweaks/t.tar"; js "--verbose"];
        [js "/app/backend/DebMaster.py"; js "--patch"; js "/tmp/App.ipa";
         js "--with-data-tar"; js "tweaks/t.tar"; js "--verbose"]]
  /\ (closed <$> children patch_launched_twice) = [false; false]
  /\ activeProcesses (step patch_staging
                           (writeFile_done 0 Written (Some 4242)))
     !! registry_key Patch (js "https://host/tweak.deb") = Some 0%nat
  /\ activeProcesses patch_launched_twice
     !! registry_key Patch (js "https://host/tweak.deb") = Some 1%nat
  /\ activeProcesses (step patch_launched_twice (child_close 0 (Some 0)))
     = ∅
  /\ (closed <$> children (step patch_launched_twice
                                (child_close 0 (Some 0))))
     = [true; false]
  /\ length (spawned download_requested_twice) = 1%nat
  /\ download_requested_twice
     = emit (already_running Download app_deb) download_started.
Proof. repeat split; by vm_compute. Qed.

(** The download of [app_deb] is requested again while it runs: a warning,
    no second process, and the same messages afterwards. *)
Lemma duplicate_request_is_rejected_witness :
  step download_started (ipc_download_and_compile_deb app_deb (Some 4243))
  = emit (already_running Download app_deb) download_started
  /\ spawned (step download_started
                   (ipc_download_and_compile_deb app_deb (Some 4243)))
     = spawned download_started
  /\ dispatched
       (steps (step download_started
                    (ipc_download_and_compile_deb app_deb (Some 4243)))
              [stdout_data 0 (bytesq "{'a':1}|"); child_close 0 (Some 0)])
     = dispatched
         (steps download_started
                [stdout_data 0 (bytesq "{'a':1}|"); child_close 0 (Some 0)]).
Proof.
  destruct (duplicate_request_is_rejected
              (H := posix) download_started
              (ipc_download_and_compile_deb app_deb (Some 4243))
              Download app_deb) as (H1 & H2 & _ & _ & _ & _ & H3).
  - reflexivity.
  - exists 0%nat. vm_compute. reflexivity.
  - split; [assumption|]. split; [assumption|].
    apply (H3 [stdout_data 0 (bytesq "{'a':1}|"); child_close 0 (Some 0)]).
Defined.

(** A fetch and a download of the same string run side by side; a second
    fetch is rejected, and admitting the download left the fetch entry
    where it was. *)
Lemma registry_keys_are_namespaced_by_kind_witness :
  (exists c, children fetch_and_download_of_one_key !! 1%nat = Some c
             /\ js "download:owner/repo" = registry_key (kind c) (subject c))
  /\ (step fetch_and_download_of_one_key
           (ipc_fetch_github_releases (js "owner/repo") None)
      = emit (already_running Fetch (js "owner/repo"))
             fetch_and_download_of_one_key)
  /\ activeProcesses
       (step (step (ready ∅)
                   (ipc_fetch_github_releases (js "owner/repo") (Some 4242)))
             (ipc_download_and_compile_deb (js "owner/repo") (Some 4243)))
     !! registry_key Fetch (js "owner/repo")
     = Some 0%nat.
Proof.
  destruct (registry_keys_are_namespaced_by_kind (H := posix))
    as (Hreg & _ & Hdedup & Hother).
  split; [|split].
  - apply (Hreg fetch_and_download_of_one_key).
    + apply reachable_step, reachable_step, reachable_ready.
    + vm_compute. reflexivity.
  - apply (Hdedup _ _ Fetch (js "owner/repo")); [reflexivity|].
    exists 0%nat. vm_compute. reflexivity.
  - rewrite (Hother _ _ Download (js "owner/repo") Fetch);
      [vm_compute; reflexivity|reflexivity|discriminate].
Defined.

(** The line [not json] is logged, the line after it is dispatched. *)
Lemma malformed_line_is_logged_and_skipped_witness :
  let st' := step download_started
                  (stdout_data 0 (bytesq "not json|{'a':1}|")) in
  trace st'
  = trace download_started
    ++ [non_json_warning Download (js "not json");
        Send (js "backend-message") (object [("a", JInt 1)])]
  /\ dispatched st' = [(js "backend-message", object [("a", JInt 1)])].
Proof.
  destruct (malformed_line_is_logged_and_skipped (H := posix))
    as (_ & _ & Hbad & _).
  destruct (Hbad download_started 0%nat
                 (mkChild Download app_deb (registry_key Download app_deb) []
                          (Some 4242) [] false)
                 (bytesq "not json|{'a':1}|")
                 [] (js "not json") [jsq "{'a':1}"] [] SyntaxError)
    as [Ht Hd].
  - reflexivity.
  - reflexivity.
  - reflexivity.
  - compute_done.
  - compute_done.
  - discriminate.
  - reflexivity.
  - split; [exact Ht|exact Hd].
Defined.

(** The message [{"b":2}] arrives in two chunks and is dispatched whole. *)
Lemma decoder_reassembles_lines_witness :
  let st' := steps download_started
                   (stdout_data 0
                    <$> [bytesq "{'a':1}|{'b'"; bytesq ":2}|"]) in
  buffer_of st' 0 = []
  /\ dispatched st'
     = dispatched download_started
       ++ sends (flat_map (line_actions Download app_deb
                                        (Some browserWindow))
                          [jsq "{'a':1}"; jsq "{'b':2}"]).
Proof.
  destruct (decoder_reassembles_lines (H := posix))
    as (_ & _ & Hfeed & _).
  apply (Hfeed download_started 0%nat
               (mkChild Download app_deb (registry_key Download app_deb) []
                        (Some 4242) [] false)
               [bytesq "{'a':1}|{'b'"; bytesq ":2}|"]
               [jsq "{'a':1}"; jsq "{'b':2}"] []).
  - reflexivity.
  - reflexivity.
  - compute_done.
  - reflexivity.
  - compute_done.
  - compute_done.
Defined.

(** C2 as stated fails: when a chunk boundary cuts the two bytes of U+00E9
    apart, each chunk is decoded on its own and the string of the message
    is two replacement characters, not the character sent in one chunk. *)
Lemma multibyte_split_is_not_reassembled :
  dispatched (steps download_started
                    [stdout_data 0 e_acute_head; stdout_data 0 e_acute_tail])
  = [(js "backend-message", object [("a", JStr [65533; 65533])])]
  /\ dispatched (step download_started
                      (stdout_data 0 (e_acute_head ++ e_acute_tail)))
     = [(js "backend-message", object [("a", JStr [233])])]
  /\ dispatched (steps download_started
                       [stdout_data 0 e_acute_head; stdout_data 0 e_acute_tail])
     <> dispatched (step download_started
                         (stdout_data 0 (e_acute_head ++ e_acute_tail))).
Proof.
  split; [by vm_compute|]. split; [by vm_compute|].
  intros Heq. vm_compute in Heq. discriminate Heq.
Qed.

(** The worker of the download reports [completed] and exits with 0:
    two terminal messages, one release of the key. *)
Lemma operation_result_and_exit_are_both_dispatched_witness :
  dispatched operation_completed_then_exit
  = dispatched download_started
    ++ [(js "backend-message",
         object [("type", JStr (js "operation"));
                 ("status", JStr (js "completed"))]);
        (js "backend-message", download_exit_message app_deb (Some 0))]
  /\ length (terminal_dispatches operation_completed_then_exit) = 2%nat
  /\ releases (registry_key Download app_deb)
              (trace operation_completed_then_exit)
     = 1%nat.
Proof.
  destruct (operation_result_and_exit_are_both_dispatched
              (H := posix) download_started 0%nat download_child
              [bytesq "{'type':'operation','status':'completed'}|"]
              (Some 0))
    as ([Hd Ht] & _ & _ & _ & Hrel & _).
  - apply (reachable_step (ready ∅)), reachable_ready.
  - reflexivity.
  - reflexivity.
  - discriminate.
  - split; [exact Hd|]. split; [exact Ht|exact Hrel].
Defined.

(** C4 as stated fails: in that run two terminal messages reach the
    renderer, the operation result and the [process_exit]. *)
Lemma operation_result_and_exit_are_two_terminal_dispatches :
  terminal_dispatches operation_completed_then_exit
  = [(js "backend-message",
      object [("type", JStr (js "operation"));
              ("status", JStr (js "completed"))]);
     (js "backend-message", download_exit_message app_deb (Some 0))]
  /\ length (terminal_dispatches operation_completed_then_exit) <> 1%nat.
Proof. split; [by vm_compute|]. by vm_compute. Qed.

(** The worker of the download exits with code 1: a [process_exit] with
    status [failed]. *)
Lemma process_exit_is_dispatched_witness :
  dispatched (step download_started (child_close 0 (Some 1)))
  = dispatched download_started
    ++ [(js "backend-message", download_exit_message app_deb (Some 1))]
  /\ has_field (download_exit_message app_deb (Some 1)) "status" "failed"
     = true.
Proof.
  destruct (process_exit_is_dispatched
              (H := posix) download_started 0%nat download_child (Some 1))
    as [[Hd _] Hm].
  - reflexivity.
  - reflexivity.
  - split; [exact Hd|].
    assert (Hk : kind download_child <> Fetch) by discriminate.
    destruct (Hm Hk) as (_ & _ & _ & Hf & _).
    apply Hf. discriminate.
Defined.

(** C5 as stated fails: a fetch worker that exits with code 1 without a
    result leaves the registry, and nothing reaches the renderer. *)
Lemma fetch_exit_dispatches_nothing :
  activeProcesses fetch_crashed = ∅
  /\ dispatched fetch_crashed = [].
Proof. split; by vm_compute. Qed.

(** The staged [/tmp/App.ipa] is there while the worker runs, its removal
    is requested at the close, and it is gone when the unlink is done. *)
Lemma close_listener_removes_staged_file_witness :
  files patch_started !! js "/tmp/App.ipa" = Some (bytes "IPA")
  /\ unlinks (step patch_started (child_close 0 (Some 0)))
     = [mkPendingUnlink (js "/tmp/App.ipa") false]
  /\ files (steps patch_started [child_close 0 (Some 0); unlink_done 0 None])
     !! js "/tmp/App.ipa" = None.
Proof.
  destruct (close_listener_removes_staged_file (H := posix))
    as (Hstage & Hclose & Hunlink).
  split; [|split].
  - destruct (Hstage patch_staging 0%nat
                     (staged_write patch_request 1700000000000 (bytes "IPA")
                                   (js "tweaks/t.tar")) (Some 4242))
      as [Hfile _]; [reflexivity..|exact Hfile].
  - destruct (Hclose patch_started 0%nat patch_child (Some 0))
      as [_ Hpending]; [reflexivity..|exact Hpending].
  - apply (Hunlink (step patch_started (child_close 0 (Some 0))) 0%nat
                   (mkPendingUnlink (js "/tmp/App.ipa") false));
      reflexivity.
Defined.

(** C6 as stated fails: the write fails on a full disk after two bytes;
    the failure is reported, no process runs, no unlink is called or
    in progress, and the file is still there. *)
Lemma staged_file_survives_staging_failure :
  terminal_dispatches staging_failed
  = [(js "backend-message",
      operation_failed (js "Could not save IPA file for patching.")
                       (js "https://host/tweak.deb"))]
  /\ activeProcesses staging_failed = ∅
  /\ spawned staging_failed = []
  /\ unlinked (trace staging_failed) = []
  /\ unlinks staging_failed = []
  /\ files staging_failed !! js "/tmp/App.ipa" = Some (bytes "IP").
Proof. repeat split; by vm_compute. Qed.

(** Nor is the file removed when the launch fails and no ['close']
    follows. *)
Lemma staged_file_survives_launch_failure :
  unlinked (trace launch_failed) = []
  /\ unlinks launch_failed = []
  /\ files launch_failed !! js "/tmp/App.ipa" = Some (bytes "IPA").
Proof. repeat split; by vm_compute. Qed.

(** The launch of the patch worker fails ([pid] is [None]): the child is
    registered and nothing is dispatched. *)
Lemma spawn_result_is_registered_whatever_the_launch_witness :
  activeProcesses
    (step patch_staging (writeFile_done 0 Written None))
  !! registry_key Patch (js "https://host/tweak.deb") = Some 0%nat
  /\ dispatched (step patch_staging (writeFile_done 0 Written None)) = [].
Proof.
  destruct (spawn_result_is_registered_whatever_the_launch (H := posix))
    as (_ & _ & Hpatch & _).
  apply (Hpatch patch_staging 0%nat
                (staged_write patch_request 1700000000000 (bytes "IPA")
                              (js "tweaks/t.tar")) None); reflexivity.
Defined.

(** C7 as stated fails: after a failed launch, and after the child's
    ['error'] event, the key is still registered and no message has
    reached the renderer; so for a patch job and for a fetch job. *)
Lemma launch_failure_stays_registered_and_unreported :
  activeProcesses launch_failed
  !! registry_key Patch (js "https://host/tweak.deb") = Some 0%nat
  /\ dispatched launch_failed = []
  /\ activeProcesses
       (steps (ready ∅)
              [ipc_fetch_github_releases (js "owner/repo") None;
               child_error 0])
     !! registry_key Fetch (js "owner/repo") = Some 0%nat
  /\ dispatched
       (steps (ready ∅)
              [ipc_fetch_github_releases (js "owner/repo") None;
               child_error 0]) = [].
Proof. repeat split; by vm_compute. Qed.

(** The write of [/tmp/App.ipa] fails: one [failed] operation message with
    the request's identifier, and no process. *)
Lemma staging_failure_is_reported_witness :
  dispatched staging_failed
  = dispatched patch_staging
    ++ [(js "backend-message",
         operation_failed (js "Could not save IPA file for patching.")
                          (js "https://host/tweak.deb"))]
  /\ spawned staging_failed = spawned patch_staging.
Proof.
  destruct (staging_failure_is_reported (H := posix)) as [_ Hfail].
  destruct (Hfail patch_staging 0%nat
                  (staged_write patch_request 1700000000000 (bytes "IPA")
                                (js "tweaks/t.tar"))
                  (js "ENOSPC") (Some (bytes "IP")) None)
    as ([Hd _] & _ & _ & _ & _ & Hs & _).
  - reflexivity.
  - reflexivity.
  - split; [exact Hd|exact Hs].
Defined.

(** C8 as stated fails: the main window is closed while the input is
    being written and the write then fails; the callback logs the error,
    the send throws, and no message reaches the renderer.  No process is
    spawned. *)
Lemma staging_failure_is_lost_without_a_window :
  dispatched staging_failed_without_window = []
  /\ uncaught (trace staging_failed_without_window) = [TypeError]
  /\ console_errors (trace staging_failed_without_window)
     = [js "[MAIN PROCESS] Error writing temporary IPA file: ENOSPC"]
  /\ spawned staging_failed_without_window = []
  /\ activeProcesses staging_failed_without_window = ∅.
Proof. repeat split; by vm_compute. Qed.

(** A message of the patch worker that names [asset-9] is dispatched with
    the identifier of the job. *)
Lemma patch_messages_carry_the_job_identifier_witness :
  line_actions Patch (js "https://host/tweak.deb") (Some browserWindow)
               (jsq "{'identifier':'asset-9','status':'unpacking'}")
  = [Send (js "backend-message")
          (object [("identifier", JStr (js "https://host/tweak.deb"));
                   ("status", JStr (js "unpacking"))])].
Proof.
  destruct patch_messages_carry_the_job_identifier
    as (Hpatch & _).
  rewrite (Hpatch _ _ _
                  (object [("identifier", JStr (js "asset-9"));
                           ("status", JStr (js "unpacking"))]));
    reflexivity.
Defined.

(** C9 as stated fails: the message carries the identifier [asset-9] and
    is dispatched with the job's identifier in its place. *)
Lemma explicit_identifier_is_overwritten :
  JSON_parse (jsq "{'identifier':'asset-9','status':'unpacking'}")
  = Normal (object [("identifier", JStr (js "asset-9"));
                    ("status", JStr (js "unpacking"))])
  /\ dispatched patch_message_with_identifier
     = [(js "backend-message",
         object [("identifier", JStr (js "https://host/tweak.deb"));
                 ("status", JStr (js "unpacking"))])].
Proof. split; by vm_compute. Qed.

(* ===================================================================== *)
(** * Further properties of the backend listeners *)
(* ===================================================================== *)

Section MoreFacts.

Context `{Host}.

Lemma with_trace_emit_all t l st :
  with_trace t (emit_all l st) = with_trace t st.
Proof. reflexivity. Qed.

(** X1. A patch request whose key is free but that lacks the bytes of the
    IPA or a tweak path that is not empty is refused: one error is logged
    and an [operation] message with status [failed], the error
    [Invalid file data provided.] and the request's identifier is sent.
    While the main window exists that message is dispatched and no
    exception escapes; once the window has been closed the send throws,
    nothing is dispatched and the [TypeError] is left uncaught.  Either
    way nothing is written, spawned or unlinked, and the state but for
    the trace is what it was. *)
Theorem invalid_patch_request_is_refused st data now :
  activeProcesses st !! registry_key Patch (identifier data) = None ->
  ipaBuffer data = None \/ string_truthy (tweakPath data) = false ->
  let st' := step st (ipc_start_patching data now) in
  match mainWindow st with
  | Some _ =>
    dispatched st'
    = dispatched st
      ++ [(js "backend-message",
           operation_failed (js "Invalid file data provided.")
                            (identifier data))]
    /\ uncaught (trace st') = uncaught (trace st)
  | None =>
    dispatched st' = dispatched st
    /\ uncaught (trace st') = uncaught (trace st) ++ [TypeError]
  end
  /\ with_trace [] st' = with_trace [] st
  /\ spawned st' = spawned st
  /\ unlinked (trace st') = unlinked (trace st)
  /\ length (console_errors (trace st'))
     = S (length (console_errors (trace st))).
Proof.
  intros Hkey Hbad st'. subst st'.
  rewrite (patch_invalid _ _ _ Hkey Hbad).
  rewrite dispatched_emit_all, spawned_emit_all, with_trace_emit_all,
    trace_emit_all, unlinked_app, uncaught_app, console_errors_app,
    length_app.
  destruct (mainWindow st); cbn; rewrite !app_nil_r; repeat split; lia.
Qed.


(** X2. A chunk on the stderr of a worker is only logged: the state but
    for the trace is what it was, nothing is dispatched or spawned, no
    exception escapes, and for a worker that has not closed the trace grows
    by the one error line that carries the trimmed text. *)
Theorem stderr_is_only_logged st child data :
  let st' := step st (stderr_data child data) in
  with_trace [] st' = with_trace [] st
  /\ dispatched st' = dispatched st
  /\ spawned st' = spawned st
  /\ uncaught (trace st') = uncaught (trace st)
  /\ forall c, children st !! child = Some c -> closed c = false ->
       trace st'
       = trace st
         ++ [Console Error
               match kind c with
               | Patch => js "[PATCH STDERR] For " ++ subject c ++ js ": "
                          ++ trim (toString data)
               | _ => js "[BACKEND STDERR] " ++ trim (toString data)
               end].
Proof.
  intros st'. subst st'.
  destruct (children st !! child) as [c|] eqn:Hc;
    [|simpl; rewrite Hc; split; [|split; [|split; [|split]]]; done].
  destruct (closed c) eqn:Hd.
  { simpl; rewrite Hc, Hd; split; [|split; [|split; [|split]]]; try done.
    intros ? [= <-]. by rewrite Hd. }
  assert (Hstep : step st (stderr_data child data)
                  = emit (Console Error
                            match kind c with
                            | Patch => js "[PATCH STDERR] For " ++ subject c
                                       ++ js ": " ++ trim (toString data)
                            | _ => js "[BACKEND STDERR] "
                                   ++ trim (toString data)
                            end) st).
  { simpl. rewrite Hc, Hd. unfold stderr_on_data.
    destruct (kind c); reflexivity. }
  rewrite Hstep. unfold emit.
  rewrite dispatched_emit_all, spawned_emit_all, trace_emit_all, uncaught_app.
  cbn [sends spawns uncaught omap list_omap]. rewrite !app_nil_r.
  split; [|split; [|split; [|split]]]; try done.
  by intros ? [= <-] _.
Qed.

(** X3. When the worker of a download or patch job closes while
    [mainWindow] is [null], the close listener still releases the key and,
    for a patch job, calls [fs.unlink] on the staged file; the send after
    them throws, so the exit message is not dispatched and one [TypeError]
    is left uncaught. *)
Theorem exit_message_is_lost_without_a_window st child c code :
  children st !! child = Some c -> closed c = false -> kind c <> Fetch ->
  mainWindow st = None ->
  let st' := step st (child_close child code) in
  activeProcesses st' = delete (processKey c) (activeProcesses st)
  /\ unlinked (trace st')
     = unlinked (trace st)
       ++ match kind c with Patch => [tempIpaPath c] | _ => [] end
  /\ dispatched st' = dispatched st
  /\ uncaught (trace st') = uncaught (trace st) ++ [TypeError].
Proof.
  intros Hc Hopen Hkind Hwin st'. subst st'.
  destruct (kind c) eqn:Hk; [done| |].
  - rewrite (close_download _ _ c) by done. rewrite Hwin.
    rewrite dispatched_emit_all, trace_emit_all, unlinked_app, uncaught_app.
    cbn. rewrite !app_nil_r. done.
  - rewrite (close_patch _ _ c) by done. rewrite Hwin.
    rewrite dispatched_emit_all, trace_emit_all, unlinked_app, uncaught_app.
    cbn. rewrite !app_nil_r. done.
Qed.


(** X4. An unlink that fails is only logged: the files are what they
    were, nothing is dispatched, [fs.unlink] is not called again, one error
    line names the path and the error, and the unlink is over: a further
    completion of it, failed or not, finds no callback. *)
Theorem failed_unlink_leaves_the_file st op u e :
  unlinks st !! op = Some u -> u_done u = false ->
  let st' := step st (unlink_done op (Some e)) in
  files st' = files st
  /\ dispatched st' = dispatched st
  /\ unlinked (trace st') = unlinked (trace st)
  /\ console_errors (trace st')
     = console_errors (trace st)
       ++ [js "[MAIN PROCESS] Error deleting temporary IPA file: "
           ++ u_path u ++ js " " ++ e]
  /\ step st' (unlink_done op (Some e)) = st'
  /\ step st' (unlink_done op None) = st'.
Proof.
  intros Hu Hd st'. subst st'. rewrite (unlink_failed _ _ u) by done.
  unfold emit.
  rewrite dispatched_emit_all, trace_emit_all, unlinked_app,
    console_errors_app.
  cbn [sends unlinked console_errors omap list_omap]. rewrite !app_nil_r.
  split; [done|]. split; [done|]. split; [done|]. split; [done|].
  split; simpl; rewrite list_lookup_alter, decide_True, Hu by done; done.
Qed.

(** X9. What the patch listener does with a line that parses, by the
    value: on [null] the assignment of [identifier] throws, so the line is
    logged as a non-JSON line; an object or an array is dispatched with
    [identifier] set to the job's; a boolean, a number or a string is
    dispatched as it is, and the renderer finds no identifier to route it
    by. *)
Theorem patch_line_by_parsed_value identifier win line v :
  JSON_parse line = Normal v ->
  line_actions Patch identifier (Some win) line
  = match v with
    | JUndefined | JNull => [non_json_warning Patch line]
    | JObj props =>
      [Send (js "backend-message")
            (JObj (<[js "identifier" := JStr identifier]> props))]
    | JArr elems props =>
      [Send (js "backend-message")
            (JArr elems (<[js "identifier" := JStr identifier]> props))]
    | _ => [Send (js "backend-message") v]
    end
  /\ (match v with
      | JBool _ | JNum _ _ | JStr _ =>
        backend_message_identifier v = Normal None
      | _ => True
      end).
Proof.
  intros Hp. split; [by apply line_actions_patch_value|]. by destruct v.
Qed.


Lemma uncaught_flat_map_nil (f : jsstring -> list Action)
      (ls : list jsstring) :
  (forall l, uncaught (f l) = []) -> uncaught (flat_map f ls) = [].
Proof.
  intros Hf. induction ls as [|l ls IH]; [done|].
  simpl. by rewrite uncaught_app, Hf, IH.
Qed.

Lemma flat_map_singleton {A B} (f : A -> list B) (g : A -> B) (l : list A) :
  (forall a, f a = [g a]) -> flat_map f l = g <$> l.
Proof.
  intros Hf. induction l as [|a l IH]; [done|]. simpl. by rewrite Hf, IH.
Qed.

Lemma raw_data_log_quiet k subject data :
  sends (raw_data_log k subject data) = []
  /\ uncaught (raw_data_log k subject data) = []
  /\ spawns (raw_data_log k subject data) = []
  /\ commands (raw_data_log k subject data) = [].
Proof. by destruct k. Qed.

(** X10. While [mainWindow] is [null] a chunk on stdout dispatches
    nothing and leaves no exception uncaught, since the send throws inside
    the [try]: for a download or patch job every non-empty complete line,
    JSON or not, is logged as a non-JSON line; the buffer keeps the partial
    line as usual. *)
Theorem lines_are_lost_without_a_window st child c data :
  children st !! child = Some c -> closed c = false ->
  mainWindow st = None ->
  let st' := step st (stdout_data child data) in
  let lines := filter (fun l => nonempty l = true)
                      (complete_lines (buffer c ++ toString data)) in
  dispatched st' = dispatched st
  /\ uncaught (trace st') = uncaught (trace st)
  /\ buffer_of st' child = partial_line (buffer c ++ toString data)
  /\ (kind c <> Fetch ->
      trace st'
      = trace st ++ raw_data_log (kind c) (subject c) data
        ++ (non_json_warning (kind c) <$> lines)).
Proof.
  intros Hc Hopen Hwin st' lines. subst st' lines.
  rewrite (stdout_step _ _ c) by done. rewrite Hwin.
  rewrite dispatched_emit_all, trace_emit_all, uncaught_app.
  unfold chunk_actions.
  rewrite sends_app, uncaught_app.
  destruct (raw_data_log_quiet (kind c) (subject c) data)
    as (-> & -> & _ & _).
  rewrite sends_flat_map_nil, uncaught_flat_map_nil, !app_nil_r.
  - split; [done|]. split; [done|]. split.
    + unfold buffer_of. simpl. rewrite list_lookup_alter, decide_True by done.
      by rewrite Hc.
    + intros Hk. do 2 f_equal. apply flat_map_singleton.
      intros line. by apply line_actions_no_window.
  - intros line.
    destruct (line_actions_no_window (kind c) (subject c) line)
      as [_ [-> | ->]]; done.
  - intros line.
    destruct (line_actions_no_window (kind c) (subject c) line)
      as [_ [-> | ->]]; done.
Qed.

(** X11. What the fetch listener does with a line that parses: a value
    with [type] [github_releases] and [status] [completed] is answered
    with its [releases] on [github-releases-data]; failing that, one with
    [type] [github] and [status] [failed] with its [error] on
    [github-releases-error]; [null] is logged as a non-JSON line; any
    other value is dropped without a log.  Whatever the line and the
    window, a fetch listener sends on no other channel. *)
Theorem fetch_job_dispatches_only_release_data :
  (forall subject win line v,
     JSON_parse line = Normal v ->
     line_actions Fetch subject (Some win) line
     = match v with
       | JUndefined | JNull => [non_json_warning Fetch line]
       | _ =>
         if has_field v "type" "github_releases"
            && has_field v "status" "completed"
         then [Send (js "github-releases-data") (prop v "releases")]
         else if has_field v "type" "github"
                 && has_field v "status" "failed"
         then [Send (js "github-releases-error") (prop v "error")]
         else []
       end)
  /\ (forall subject w line m,
        m ∈ sends (line_actions Fetch subject w line) ->
        m.1 = js "github-releases-data" \/ m.1 = js "github-releases-error").
Proof.
  split; [apply line_actions_fetch_value|].
  intros subject w line m.
  destruct w as [win|].
  2:{ destruct (line_actions_no_window Fetch subject line)
        as [_ [-> | ->]]; simpl; by intros ?%elem_of_nil. }
  destruct (JSON_parse line) as [v|e] eqn:Hp.
  2:{ rewrite (line_actions_malformed _ _ _ _ e) by done.
      simpl; by intros ?%elem_of_nil. }
  rewrite (line_actions_fetch_value _ _ _ v) by done.
  destruct v; try (simpl; by intros ?%elem_of_nil);
    repeat match goal with
           | |- context [if ?b then _ else _] => destruct b
           end;
    cbn [sends omap list_omap];
    try (by intros ?%elem_of_nil);
    intros ->%list_elem_of_singleton; auto.
Qed.


(** ** Registered children are open *)

Lemma ro_spawn c st :
  closed c = false ->
  registered_open st ->
  registered_open
    (set_activeProcesses
       (<[processKey c := length (children st)]> (activeProcesses st))
       (set_children (children st ++ [c]) st)).
Proof.
  intros Hc Hro key h. simpl. rewrite lookup_insert. case_decide.
  - intros [= <-]. subst key. exists c.
    by rewrite lookup_app_r, Nat.sub_diag.
  - intros Hkey. destruct (Hro key h Hkey) as (c' & Hc' & Hopen & Hk).
    exists c'. split; [|done]. by apply lookup_app_l_Some.
Qed.

Lemma ro_set_buffer b child st :
  registered_open st ->
  registered_open (set_children (alter (set_buffer b) child (children st)) st).
Proof.
  intros Hro key h Hkey. simpl in *.
  destruct (Hro key h Hkey) as (c & Hc & Hopen & Hk).
  rewrite list_lookup_alter. case_decide; subst; [|by exists c].
  rewrite Hc. simpl. by exists (set_buffer b c).
Qed.

Lemma ro_close child c st :
  children st !! child = Some c ->
  registered_open st ->
  registered_open
    (set_activeProcesses (delete (processKey c) (activeProcesses st))
       (set_children (alter set_closed child (children st)) st)).
Proof.
  intros Hc Hro key h. simpl. rewrite lookup_delete. case_decide; [done|].
  intros Hkey. destruct (Hro key h Hkey) as (c' & Hc' & Hopen & Hk).
  rewrite list_lookup_alter. case_decide; subst; [|by exists c'].
  rewrite Hc in Hc'. by simplify_eq.
Qed.

Lemma registered_open_step st ev :
  registered_open st -> registered_open (step st ev).
Proof.
  intros Hro.
  destruct ev as [repoUrl pid|downloadUrl pid|data now|op r pid|op err
                  |child data|child data|child code|child| |].
  - destruct (activeProcesses st !! registry_key Fetch repoUrl) eqn:E.
    + by rewrite (request_running _ _ Fetch repoUrl).
    + rewrite fetch_admitted by done.
      by apply (ro_spawn (mkChild Fetch repoUrl _ [] pid [] false) st).
  - destruct (activeProcesses st !! registry_key Download downloadUrl) eqn:E.
    + by rewrite (request_running _ _ Download downloadUrl).
    + rewrite download_admitted by done.
      by apply (ro_spawn (mkChild Download downloadUrl _ [] pid [] false) st).
  - destruct (activeProcesses st !! registry_key Patch (identifier data)) eqn:E.
    + by rewrite (request_running _ _ Patch (identifier data)).
    + destruct (ipaBuffer data) as [ipa|] eqn:Hipa.
      2:{ rewrite patch_invalid by auto. done. }
      destruct (string_truthy (tweakPath data)) eqn:Ht.
      2:{ rewrite patch_invalid by auto. done. }
      destruct (tweakPath data) as [[|x tweak]|] eqn:Htw; try done.
      by rewrite (patch_staged _ _ _ ipa (x :: tweak)).
  - destruct (writes st !! op) as [w|] eqn:Hw; [|by simpl; rewrite Hw].
    destruct (w_done w) eqn:Hd; [by simpl; rewrite Hw, Hd|].
    destruct r as [|err residue].
    + rewrite (writeFile_written _ _ w) by done.
      by apply (ro_spawn (mkChild Patch (w_identifier w) (w_processKey w)
                                  (w_path w) pid [] false)
                         (set_files (<[w_path w := w_data w]> (files st))
                            (set_writes (alter set_w_done op (writes st))
                                        st))).
    + by rewrite (writeFile_failed _ _ w).
  - simpl. destruct (unlinks st !! op) as [u|]; [|done].
    destruct (u_done u); [done|]. by destruct err.
  - destruct (children st !! child) as [c|] eqn:Hc; [|by simpl; rewrite Hc].
    destruct (closed c) eqn:Hd; [by simpl; rewrite Hc, Hd|].
    rewrite (stdout_step _ _ c) by done.
    by apply (ro_set_buffer _ child st).
  - destruct (children st !! child) as [c|] eqn:Hc; [|by simpl; rewrite Hc].
    destruct (closed c) eqn:Hd; [by simpl; rewrite Hc, Hd|].
    destruct (stderr_step st child c data) as [text ->]; done.
  - destruct (children st !! child) as [c|] eqn:Hc; [|by simpl; rewrite Hc].
    destruct (closed c) eqn:Hd; [by simpl; rewrite Hc, Hd|].
    pose proof (ro_close child c st Hc Hro) as Hro'.
    destruct (kind c) eqn:Hk.
    + by rewrite (close_fetch _ _ c).
    + by rewrite (close_download _ _ c).
    + by rewrite (close_patch _ _ c).
  - simpl. destruct (children st !! child) as [c|]; [|done].
    by destruct (closed c).
  - done.
  - simpl. by destruct (mainWindow st).
Qed.

Lemma reachable_registered_open st : reachable st -> registered_open st.
Proof.
  induction 1; [|by apply registered_open_step].
  intros key h. simpl. by rewrite lookup_empty.
Qed.

(** X5. In every reachable state a registry entry points at a child that
    has not closed, whose listeners close over the key of the entry, and
    whose kind and subject make up that key. *)
Theorem registry_points_at_open_children st key child :
  reachable st ->
  activeProcesses st !! key = Some child ->
  exists c, children st !! child = Some c
            /\ closed c = false
            /\ processKey c = key
            /\ key = registry_key (kind c) (subject c).
Proof.
  intros Hr Hkey.
  destruct (reachable_registered_open st Hr key child Hkey)
    as (c & Hc & Hopen & Hk).
  destruct (reachable_wf st Hr) as (Hreg & _).
  destruct (Hreg key child Hkey) as (c' & Hc' & Hkey').
  exists c. rewrite Hc in Hc'. by simplify_eq.
Qed.


(** ** What was spawned *)

Lemma line_actions_quiet k subject w line :
  spawns (line_actions k subject w line) = []
  /\ commands (line_actions k subject w line) = [].
Proof.
  destruct (JSON_parse line) as [v|e] eqn:Hp.
  2:{ by rewrite (line_actions_malformed _ _ _ _ e). }
  destruct w as [win|].
  2:{ destruct (line_actions_no_window k subject line)
        as [_ [-> | ->]]; done. }
  destruct k.
  - rewrite (line_actions_fetch_value _ _ _ v) by done.
    destruct v; try done;
      repeat match goal with
             | |- context [if ?b then _ else _] => destruct b
             end; done.
  - by rewrite (line_actions_download _ _ _ v).
  - rewrite (line_actions_patch_value _ _ _ v) by done. by destruct v.
Qed.

Lemma chunk_actions_quiet k subject w b data :
  spawns (chunk_actions k subject w b data) = []
  /\ commands (chunk_actions k subject w b data) = [].
Proof.
  unfold chunk_actions. rewrite spawns_app, commands_app.
  destruct (raw_data_log_quiet k subject data) as (_ & _ & -> & ->).
  simpl. induction (filter _ _) as [|l ls [IH1 IH2]]; [done|].
  simpl. rewrite spawns_app, commands_app, IH1, IH2.
  by destruct (line_actions_quiet k subject w l) as [-> ->].
Qed.

Lemma sbl_emit l st st0 :
  trace st0 = trace st ->
  length (children st0) = (length (children st) + length (spawns l))%nat ->
  Forall worker_command_line (spawns l) ->
  Forall (fun c => c = js "python") (commands l) ->
  spawned_by_listeners st -> spawned_by_listeners (emit_all l st0).
Proof.
  intros Ht Hlen Hargs Hcmd (Hsp & Hpy & Hn).
  unfold spawned_by_listeners, spawned in *. simpl. rewrite Ht.
  rewrite spawns_app, commands_app, length_app, Hlen, Hn.
  split; [by apply Forall_app|]. split; [by apply Forall_app|done].
Qed.

Lemma staged_with_tweak_step st ev :
  staged_with_tweak st -> staged_with_tweak (step st ev).
Proof.
  intros Hst.
  assert (Hdone : forall op, staged_with_tweak
                     (set_writes (alter set_w_done op (writes st)) st)).
  { intros op op' w. simpl. rewrite list_lookup_alter.
    case_decide; subst; [|apply Hst].
    destruct (writes st !! op') as [w'|] eqn:E; simpl; [|done].
    intros [= <-]. simpl. by apply (Hst op'). }
  destruct ev as [repoUrl pid|downloadUrl pid|data now|op r pid|op err
                  |child data|child data|child code|child| |].
  - destruct (activeProcesses st !! registry_key Fetch repoUrl) eqn:E.
    + by rewrite (request_running _ _ Fetch repoUrl).
    + by rewrite fetch_admitted.
  - destruct (activeProcesses st !! registry_key Download downloadUrl) eqn:E.
    + by rewrite (request_running _ _ Download downloadUrl).
    + by rewrite download_admitted.
  - destruct (activeProcesses st !! registry_key Patch (identifier data)) eqn:E.
    + by rewrite (request_running _ _ Patch (identifier data)).
    + destruct (ipaBuffer data) as [ipa|] eqn:Hipa.
      2:{ rewrite patch_invalid by auto. done. }
      destruct (string_truthy (tweakPath data)) eqn:Ht.
      2:{ rewrite patch_invalid by auto. done. }
      destruct (tweakPath data) as [[|x tweak]|] eqn:Htw; try done.
      rewrite (patch_staged _ _ _ ipa (x :: tweak)) by done.
      intros op w. simpl. rewrite lookup_app.
      destruct (writes st !! op) eqn:E'.
      * intros [= <-]. by apply (Hst op).
      * destruct (op - length (writes st))%nat; simpl; [|done].
        by intros [= <-].
  - destruct (writes st !! op) as [w|] eqn:Hw; [|by simpl; rewrite Hw].
    destruct (w_done w) eqn:Hd; [by simpl; rewrite Hw, Hd|].
    destruct r as [|err residue].
    + rewrite (writeFile_written _ _ w) by done. apply (Hdone op).
    + rewrite (writeFile_failed _ _ w) by done. apply (Hdone op).
  - simpl. destruct (unlinks st !! op) as [u|]; [|done].
    destruct (u_done u); [done|]. by destruct err.
  - destruct (children st !! child) as [c|] eqn:Hc; [|by simpl; rewrite Hc].
    destruct (closed c) eqn:Hd; [by simpl; rewrite Hc, Hd|].
    by rewrite (stdout_step _ _ c).
  - destruct (children st !! child) as [c|] eqn:Hc; [|by simpl; rewrite Hc].
    destruct (closed c) eqn:Hd; [by simpl; rewrite Hc, Hd|].
    destruct (stderr_step st child c data) as [text ->]; done.
  - destruct (children st !! child) as [c|] eqn:Hc; [|by simpl; rewrite Hc].
    destruct (closed c) eqn:Hd; [by simpl; rewrite Hc, Hd|].
    destruct (kind c) eqn:Hk.
    + by rewrite (close_fetch _ _ c).
    + by rewrite (close_download _ _ c).
    + by rewrite (close_patch _ _ c).
  - simpl. destruct (children st !! child) as [c|]; [|done].
    by destruct (closed c).
  - done.
  - simpl. by destruct (mainWindow st).
Qed.

Lemma spawned_by_listeners_step st ev :
  staged_with_tweak st ->
  spawned_by_listeners st -> spawned_by_listeners (step st ev).
Proof.
  intros Hst Hsb.
  assert (Hid : forall st0, trace st0 = trace st ->
                  children st0 = children st -> spawned_by_listeners st0).
  { intros st0 Ht Hc. unfold spawned_by_listeners, spawned in *.
    by rewrite Ht, Hc. }
  assert (Hquiet : forall l st0,
             trace st0 = trace st ->
             length (children st0) = length (children st) ->
             spawns l = [] -> commands l = [] ->
             spawned_by_listeners (emit_all l st0)).
  { intros l st0 Ht Hlen Hs Hc. apply (sbl_emit l st st0); try done.
    - rewrite Hs. simpl. lia.
    - by rewrite Hs.
    - by rewrite Hc. }
  destruct ev as [repoUrl pid|downloadUrl pid|data now|op r pid|op err
                  |child data|child data|child code|child| |].
  - destruct (activeProcesses st !! registry_key Fetch repoUrl) eqn:E.
    + rewrite (request_running _ _ Fetch repoUrl) by done.
      by apply Hquiet.
    + rewrite fetch_admitted by done.
      apply (sbl_emit _ st); try done.
      * simpl. rewrite length_app. simpl. lia.
      * apply Forall_singleton. left. by eexists.
      * by apply Forall_singleton.
  - destruct (activeProcesses st !! registry_key Download downloadUrl) eqn:E.
    + rewrite (request_running _ _ Download downloadUrl) by done.
      by apply Hquiet.
    + rewrite download_admitted by done.
      apply (sbl_emit _ st); try done.
      * simpl. rewrite length_app. simpl. lia.
      * apply Forall_singleton. right. left. by eexists.
      * by apply Forall_singleton.
  - destruct (activeProcesses st !! registry_key Patch (identifier data)) eqn:E.
    + rewrite (request_running _ _ Patch (identifier data)) by done.
      by apply Hquiet.
    + destruct (ipaBuffer data) as [ipa|] eqn:Hipa.
      2:{ rewrite patch_invalid by auto.
          apply Hquiet; try done; by destruct (mainWindow st). }
      destruct (string_truthy (tweakPath data)) eqn:Ht.
      2:{ rewrite patch_invalid by auto.
          apply Hquiet; try done; by destruct (mainWindow st). }
      destruct (tweakPath data) as [[|x tweak]|] eqn:Htw; try done.
      rewrite (patch_staged _ _ _ ipa (x :: tweak)) by done.
      by apply Hquiet.
  - destruct (writes st !! op) as [w|] eqn:Hw;
      [|simpl; rewrite Hw; by apply Hid].
    destruct (w_done w) eqn:Hd; [simpl; rewrite Hw, Hd; by apply Hid|].
    destruct r as [|err residue].
    + rewrite (writeFile_written _ _ w) by done.
      apply (sbl_emit _ st); try done.
      * simpl. rewrite length_app. simpl. lia.
      * apply Forall_singleton. right. right.
        exists (w_path w), (w_tweakPath w). split; [|done].
        by apply (Hst op).
      * by apply Forall_singleton.
    + rewrite (writeFile_failed _ _ w) by done.
      apply Hquiet; try done; by destruct (mainWindow st).
  - simpl. destruct (unlinks st !! op) as [u|]; [|by apply Hid].
    destruct (u_done u); [by apply Hid|].
    destruct err; by apply (Hquiet [_]).
  - destruct (children st !! child) as [c|] eqn:Hc;
      [|simpl; rewrite Hc; by apply Hid].
    destruct (closed c) eqn:Hd; [simpl; rewrite Hc, Hd; by apply Hid|].
    rewrite (stdout_step _ _ c) by done.
    apply Hquiet; try done.
    + simpl. by rewrite length_alter.
    + apply chunk_actions_quiet.
    + apply chunk_actions_quiet.
  - destruct (children st !! child) as [c|] eqn:Hc;
      [|simpl; rewrite Hc; by apply Hid].
    destruct (closed c) eqn:Hd; [simpl; rewrite Hc, Hd; by apply Hid|].
    destruct (stderr_step st child c data Hc Hd) as [text ->].
    by apply (Hquiet [_]).
  - destruct (children st !! child) as [c|] eqn:Hc;
      [|simpl; rewrite Hc; by apply Hid].
    destruct (closed c) eqn:Hd; [simpl; rewrite Hc, Hd; by apply Hid|].
    destruct (kind c) eqn:Hk.
    + rewrite (close_fetch _ _ c) by done.
      apply Hquiet; try done. simpl. by rewrite length_alter.
    + rewrite (close_download _ _ c) by done.
      apply Hquiet; try done; [simpl; by rewrite length_alter|..];
        by destruct (mainWindow st).
    + rewrite (close_patch _ _ c) by done.
      apply Hquiet; try done; [simpl; by rewrite length_alter|..];
        by destruct (mainWindow st).
  - simpl. destruct (children st !! child) as [c|]; [|by apply Hid].
    destruct (closed c); [by apply Hid|]. by apply (Hquiet [_]).
  - by apply Hid.
  - simpl. destruct (mainWindow st); by apply Hid.
Qed.

Lemma reachable_spawned_by_listeners st :
  reachable st -> staged_with_tweak st /\ spawned_by_listeners st.
Proof.
  induction 1 as [fs|st ev Hr [IH1 IH2]].
  - split; [by intros op w|]. split; [|split]; by simpl.
  - split; [by apply staged_with_tweak_step|].
    by apply spawned_by_listeners_step.
Qed.

(** X12. In every reachable state every process was spawned as [python]
    on one of three argument vectors: the script with [--github], a URL
    and [--verbose]; with [--download-url], a URL and [--verbose]; or with
    [--patch], a path, [--with-data-tar], a tweak path that is not empty,
    and [--verbose].  There are as many children as calls of [spawn]. *)
Theorem workers_are_spawned_on_three_command_lines st :
  reachable st ->
  Forall worker_command_line (spawned st)
  /\ Forall (fun c => c = js "python") (commands (trace st))
  /\ length (spawned st) = length (children st).
Proof. intros Hr. by apply reachable_spawned_by_listeners. Qed.


(** ** Patch jobs that overlap *)

Lemma State_ext st st' :
  mainWindow st = mainWindow st' ->
  activeProcesses st = activeProcesses st' ->
  children st = children st' ->
  writes st = writes st' ->
  unlinks st = unlinks st' ->
  files st = files st' ->
  trace st = trace st' ->
  st = st'.
Proof. destruct st, st'; simpl; congruence. Qed.

Lemma alter_last_two {A} (f : A -> A) l a b :
  alter f (S (length l)) (alter f (length l) (l ++ [a; b]))
  = l ++ [f a; f b].
Proof. induction l as [|x l IH]; simpl; [done|]. by f_equal. Qed.

(** Two patch requests that both pass the checks, the second before the
    write of the first is done. *)
Lemma two_patch_requests_staged st d1 d2 now1 now2 ipa1 ipa2 tweak1 tweak2 :
  activeProcesses st !! registry_key Patch (identifier d1) = None ->
  activeProcesses st !! registry_key Patch (identifier d2) = None ->
  ipaBuffer d1 = Some ipa1 -> tweakPath d1 = Some tweak1 -> tweak1 <> [] ->
  ipaBuffer d2 = Some ipa2 -> tweakPath d2 = Some tweak2 -> tweak2 <> [] ->
  steps st [ipc_start_patching d1 now1; ipc_start_patching d2 now2]
  = emit_all [WriteFile (staged_path d1 now1) ipa1;
              WriteFile (staged_path d2 now2) ipa2]
      (set_writes (writes st ++ [staged_write d1 now1 ipa1 tweak1;
                                 staged_write d2 now2 ipa2 tweak2]) st).
Proof.
  intros Hk1 Hk2 Hipa1 Htw1 Hne1 Hipa2 Htw2 Hne2. unfold steps.
  cbn [fold_left].
  rewrite (patch_staged st d1 now1 ipa1 tweak1) by done.
  rewrite (patch_staged _ d2 now2 ipa2 tweak2) by done.
  unfold emit, emit_all, set_writes.
  cbn [mainWindow activeProcesses children writes unlinks files trace].
  by rewrite <- !app_assoc.
Qed.

(** Two writes in progress both succeed. *)
Lemma two_writes_written st ws w1 w2 pid1 pid2 :
  writes st = ws ++ [w1; w2] -> w_done w1 = false -> w_done w2 = false ->
  steps st [writeFile_done (length ws) Written pid1;
            writeFile_done (S (length ws)) Written pid2]
  = emit_all
      [Console Log (js "[MAIN PROCESS] Starting patch process. IPA: "
                    ++ w_path w1 ++ js ", Tweak: " ++ w_tweakPath w1);
       Spawn (js "python")
             [pythonScript; js "--patch"; w_path w1; js "--with-data-tar";
              w_tweakPath w1; js "--verbose"];
       Console Log (js "[MAIN PROCESS] Spawned patch process with PID: "
                    ++ pid_toString pid1 ++ js " for identifier: "
                    ++ w_identifier w1);
       RegistrySet (w_processKey w1) (length (children st));
       Console Log (js "[MAIN PROCESS] Starting patch process. IPA: "
                    ++ w_path w2 ++ js ", Tweak: " ++ w_tweakPath w2);
       Spawn (js "python")
             [pythonScript; js "--patch"; w_path w2; js "--with-data-tar";
              w_tweakPath w2; js "--verbose"];
       Console Log (js "[MAIN PROCESS] Spawned patch process with PID: "
                    ++ pid_toString pid2 ++ js " for identifier: "
                    ++ w_identifier w2);
       RegistrySet (w_processKey w2) (S (length (children st)))]
      (set_activeProcesses
         (<[w_processKey w2 := S (length (children st))]>
            (<[w_processKey w1 := length (children st)]>
               (activeProcesses st)))
         (set_children
            (children st
             ++ [mkChild Patch (w_identifier w1) (w_processKey w1)
                         (w_path w1) pid1 [] false;
                 mkChild Patch (w_identifier w2) (w_processKey w2)
                         (w_path w2) pid2 [] false])
            (set_files (<[w_path w2 := w_data w2]>
                          (<[w_path w1 := w_data w1]> (files st)))
               (set_writes (ws ++ [set_w_done w1; set_w_done w2]) st)))).
Proof.
  intros Hws Hd1 Hd2. unfold steps. cbn [fold_left].
  assert (Hw1 : writes st !! length ws = Some w1).
  { rewrite Hws, lookup_app_r, Nat.sub_diag by lia. done. }
  rewrite (writeFile_written st _ w1 pid1 Hw1 Hd1).
  match goal with |- step ?s _ = _ => set (st1 := s) end.
  assert (Hw2 : writes st1 !! S (length ws) = Some w2).
  { subst st1.
    cbn [writes emit_all set_activeProcesses set_children set_files
           set_writes].
    rewrite list_lookup_alter_ne by lia.
    rewrite Hws, lookup_app_r by lia.
    replace (S (length ws) - length ws)%nat with 1%nat by lia.
    reflexivity. }
  rewrite (writeFile_written st1 (S (length ws)) w2 pid2 Hw2 Hd2).
  subst st1.
  apply State_ext.
  - reflexivity.
  - cbn [activeProcesses emit_all set_activeProcesses children set_children
         set_files set_writes].
    by rewrite length_app, Nat.add_1_r.
  - cbn [activeProcesses emit_all set_activeProcesses children set_children
         set_files set_writes]. by rewrite <- app_assoc.
  - cbn [activeProcesses emit_all set_activeProcesses children set_children
         set_files set_writes writes].
    rewrite Hws. apply alter_last_two.
  - reflexivity.
  - reflexivity.
  - cbn [activeProcesses emit_all set_activeProcesses children set_children
         set_files set_writes trace].
    rewrite length_app, Nat.add_1_r, <- !app_assoc. reflexivity.
Qed.

(** X6. The registry is written when the worker is spawned, after the
    write: two patch requests for one identifier, the second made before
    the write of the first is done, are both staged, and when both writes
    succeed two workers run for the identifier, each on its own staged
    path; the registry holds the second, and when the first closes the key
    is released while the second is still open. *)
Theorem patch_requests_during_staging_are_both_launched
        st data now1 now2 ipa tweak pid1 pid2 :
  activeProcesses st !! registry_key Patch (identifier data) = None ->
  ipaBuffer data = Some ipa -> tweakPath data = Some tweak -> tweak <> [] ->
  let key := registry_key Patch (identifier data) in
  let n := length (writes st) in
  let m := length (children st) in
  let worker now pid :=
    mkChild Patch (identifier data) key (staged_path data now) pid [] false in
  let st' := steps st [ipc_start_patching data now1;
                       ipc_start_patching data now2;
                       writeFile_done n Written pid1;
                       writeFile_done (S n) Written pid2] in
  children st' = children st ++ [worker now1 pid1; worker now2 pid2]
  /\ spawned st'
     = spawned st
       ++ [[pythonScript; js "--patch"; staged_path data now1;
            js "--with-data-tar"; tweak; js "--verbose"];
           [pythonScript; js "--patch"; staged_path data now2;
            js "--with-data-tar"; tweak; js "--verbose"]]
  /\ activeProcesses st' !! key = Some (S m)
  /\ forall code,
       let st'' := step st' (child_close m code) in
       activeProcesses st'' !! key = None
       /\ children st'' !! S m = Some (worker now2 pid2).
Proof.
  intros Hkey Hipa Htw Hne key n m worker st'. subst st'.
  change [ipc_start_patching data now1; ipc_start_patching data now2;
          writeFile_done n Written pid1; writeFile_done (S n) Written pid2]
    with ([ipc_start_patching data now1; ipc_start_patching data now2]
          ++ [writeFile_done n Written pid1;
              writeFile_done (S n) Written pid2]).
  rewrite steps_app.
  rewrite (two_patch_requests_staged st data data now1 now2 ipa ipa tweak
                                     tweak) by done.
  rewrite (two_writes_written _ (writes st)
             (staged_write data now1 ipa tweak)
             (staged_write data now2 ipa tweak)) by done.
  cbn [children activeProcesses emit_all set_activeProcesses set_children
       set_files set_writes w_identifier w_processKey w_path w_tweakPath
       staged_write].
  split; [done|]. split.
  { rewrite spawned_emit_all. unfold spawned.
    cbn [trace emit_all set_activeProcesses set_children set_files
         set_writes]. rewrite spawns_app.
    change (spawns [WriteFile (staged_path data now1) ipa;
                    WriteFile (staged_path data now2) ipa]) with
      (@nil (list jsstring)).
    by rewrite app_nil_r. }
  split; [by rewrite lookup_insert_eq|].
  intros code.
  rewrite (close_patch _ m (worker now1 pid1)); [| |done..].
  2:{ cbn [children emit_all set_activeProcesses set_children].
      rewrite lookup_app_r by done. subst m. by rewrite Nat.sub_diag. }
  cbn [children activeProcesses emit_all set_activeProcesses set_children
       set_unlinks processKey worker].
  split; [by rewrite lookup_delete_eq|].
  rewrite list_lookup_alter_ne by (subst m; lia).
  rewrite lookup_app_r by (subst m; lia).
  by replace (S m - length (children st))%nat with 1%nat by (subst m; lia).
Qed.


(** X8. The path a patch request is staged at depends on [ipaName] alone
    when that is not empty, not on the identifier or the time; and when two
    patch workers that have not closed share a staged path, the close of
    one of them followed by the success of its unlink removes the file
    while the other worker is still open. *)
Theorem shared_staged_file_is_deleted_under_a_running_worker :
  (forall d1 d2 now1 now2,
     ipaName d1 = ipaName d2 -> string_truthy (ipaName d1) = true ->
     staged_path d1 now1 = staged_path d2 now2)
  /\ (forall st a b ca cb code,
        a <> b ->
        children st !! a = Some ca -> children st !! b = Some cb ->
        closed ca = false -> kind ca = Patch ->
        tempIpaPath ca = tempIpaPath cb ->
        let st' := steps st [child_close a code;
                             unlink_done (length (unlinks st)) None] in
        files st' !! tempIpaPath cb = None
        /\ children st' !! b = Some cb).
Proof.
  split.
  - intros d1 d2 now1 now2 Hname Ht. unfold staged_path.
    by rewrite <- Hname, Ht.
  - intros st a b ca cb code Hab Ha Hb Hopen Hk Hpath st'. subst st'.
    unfold steps. cbn [fold_left].
    rewrite (close_patch _ _ ca) by done.
    rewrite (unlink_succeeded _ _ (mkPendingUnlink (tempIpaPath ca) false));
      [| |done].
    2:{ cbn [unlinks emit_all set_unlinks].
        by rewrite lookup_app_r, Nat.sub_diag. }
    cbn [files children emit emit_all set_files set_unlinks
         set_activeProcesses set_children u_path].
    split; [rewrite Hpath; apply lookup_delete_eq|].
    by rewrite list_lookup_alter_ne.
Qed.

(** X7. Once the registered worker of a fetch or download job has closed,
    the key is free: the same request made again is admitted, spawns a new
    worker on the same command line and registers it under the key. *)
Theorem closed_job_can_be_requested_again st ev k s child code :
  reachable st ->
  request_of ev = Some (k, s) -> k <> Patch ->
  activeProcesses st !! registry_key k s = Some child ->
  let st1 := step st (child_close child code) in
  let st2 := step st1 ev in
  activeProcesses st1 !! registry_key k s = None
  /\ activeProcesses st2 !! registry_key k s = Some (length (children st))
  /\ spawned st2
     = spawned st
       ++ [[pythonScript;
            match k with Fetch => js "--github" | _ => js "--download-url" end;
            s; js "--verbose"]]
  /\ exists pid,
       children st2 !! length (children st)
       = Some (mkChild k s (registry_key k s) [] pid [] false).
Proof.
  intros Hr Hev Hk Hreg st1 st2.
  destruct (reachable_registered_open st Hr _ _ Hreg)
    as (c & Hc & Hopen & Hkey).
  destruct (reachable_wf st Hr) as (Hwf & _).
  destruct (Hwf _ _ Hreg) as (c' & Hc' & Hkey').
  rewrite Hc in Hc'. injection Hc' as <-.
  apply registry_key_inj in Hkey' as [Hkind Hsubj].
  assert (Hst1 : activeProcesses st1
                 = delete (registry_key k s) (activeProcesses st)
                 /\ children st1 = alter set_closed child (children st)
                 /\ spawned st1 = spawned st).
  { subst st1. destruct k; [|clear Hk|done].
    - rewrite (close_fetch _ _ c) by done.
      rewrite spawned_emit_all, Hkey. cbn [spawns omap list_omap].
      by rewrite app_nil_r.
    - rewrite (close_download _ _ c) by done.
      rewrite spawned_emit_all, Hkey.
      destruct (mainWindow st); cbn [spawns omap list_omap send_action];
        by rewrite app_nil_r. }
  destruct Hst1 as (Hreg1 & Hch1 & Hsp1).
  assert (Hfree : activeProcesses st1 !! registry_key k s = None).
  { rewrite Hreg1. apply lookup_delete_eq. }
  assert (Hlen : length (children st1) = length (children st)).
  { by rewrite Hch1, length_alter. }
  split; [done|].
  destruct ev as [repoUrl pid|downloadUrl pid| | | | | | | | |];
    try discriminate Hev; injection Hev as <- <-; subst st2.
  - rewrite fetch_admitted by done.
    unfold spawned in *. rewrite trace_emit_all, spawns_app.
    cbn [trace activeProcesses children emit_all set_activeProcesses
         set_children].
    rewrite Hsp1, <- Hlen.
    split; [by rewrite lookup_insert_eq|]. split; [done|].
    exists pid. by rewrite lookup_app_r, Nat.sub_diag.
  - rewrite download_admitted by done.
    unfold spawned in *. rewrite trace_emit_all, spawns_app.
    cbn [trace activeProcesses children emit_all set_activeProcesses
         set_children].
    rewrite Hsp1, <- Hlen.
    split; [by rewrite lookup_insert_eq|]. split; [done|].
    exists pid. by rewrite lookup_app_r, Nat.sub_diag.
  - done.
Qed.

End MoreFacts.

(* ===================================================================== *)
(** * Properties of the window controls and of the bridge *)
(* ===================================================================== *)

Section ShellFacts.

Context `{Host}.

Lemma start_animation_window channel m sh win :
  mainWindow (backend sh) = Some win ->
  start_animation channel m sh
  = mkShell (emit (Send (js channel) JUndefined) (backend sh))
            (isMaximized sh) (animation_finished sh ++ [m]) (window_calls sh).
Proof.
  intros Hwin. unfold start_animation, webContents_send. by rewrite Hwin.
Qed.

Lemma start_animation_no_window channel m sh :
  mainWindow (backend sh) = None ->
  start_animation channel m sh
  = set_backend (emit (Uncaught TypeError) (backend sh)) sh.
Proof.
  intros Hwin. unfold start_animation, webContents_send. by rewrite Hwin.
Qed.

Lemma shell_steps_app sh evs1 evs2 :
  shell_steps sh (evs1 ++ evs2) = shell_steps (shell_steps sh evs1) evs2.
Proof. apply fold_left_app. Qed.

Lemma requests_register evs : forall sh win,
  mainWindow (backend sh) = Some win ->
  Forall (fun ev => is_Some (requested ev)) evs ->
  let sh' := shell_steps sh evs in
  window_calls sh' = window_calls sh
  /\ animation_finished sh' = animation_finished sh ++ omap requested evs
  /\ isMaximized sh' = isMaximized sh
  /\ mainWindow (backend sh') = Some win.
Proof.
  induction evs as [|ev evs IH]; intros sh win Hwin Hall; simpl.
  { by rewrite app_nil_r. }
  apply Forall_cons in Hall as [[m Hm] Hall].
  assert (Hstep : shell_step sh ev
                  = mkShell (emit (Send (js match m with
                                             | close => "start-close-animation"
                                             | _ => "start-minimize-animation"
                                             end) JUndefined) (backend sh))
                            (isMaximized sh) (animation_finished sh ++ [m])
                            (window_calls sh)).
  { destruct ev; try discriminate Hm; injection Hm as <-; simpl;
      by rewrite (start_animation_window _ _ _ win). }
  destruct (IH (shell_step sh ev) win) as (Hc & Ha & Hm' & Hw);
    [by rewrite Hstep|done|].
  fold (shell_steps (shell_step sh ev) evs).
  rewrite Hc, Ha, Hm', Hw, Hstep, Hm. simpl. by rewrite <- app_assoc.
Qed.

Lemma emit_animation_finished_window ls : forall sh win rest,
  mainWindow (backend sh) = Some win ->
  animation_finished sh = ls ++ rest ->
  let sh' := emit_animation_finished ls sh in
  window_calls sh' = window_calls sh ++ ls
  /\ animation_finished sh' = rest
  /\ backend sh' = backend sh.
Proof.
  induction ls as [|m ls IH]; intros sh win rest Hwin Hls; simpl.
  { by rewrite app_nil_r. }
  rewrite Hwin.
  destruct (IH (call m (set_animation_finished (tail (animation_finished sh))
                                               sh)) win rest)
    as (Hc & Ha & Hb).
  - done.
  - simpl. by rewrite Hls.
  - rewrite Hc, Ha, Hb. simpl. by rewrite <- app_assoc.
Qed.


(** X13. A [minimize-window] or [close-window] message calls no method
    of the window: it registers a listener for one [animation-finished].
    The next [animation-finished] calls the methods of all the listeners
    that are registered, those left from before included, in the order of
    registration, each once, and leaves none registered; one more
    [animation-finished] changes nothing. *)
Theorem window_methods_run_at_animation_finished sh win evs :
  mainWindow (backend sh) = Some win ->
  Forall (fun ev => is_Some (requested ev)) evs ->
  let sh1 := shell_steps sh evs in
  let sh2 := shell_step sh1 ipc_animation_finished in
  window_calls sh1 = window_calls sh
  /\ animation_finished sh1 = animation_finished sh ++ omap requested evs
  /\ window_calls sh2
     = window_calls sh ++ animation_finished sh ++ omap requested evs
  /\ animation_finished sh2 = []
  /\ shell_step sh2 ipc_animation_finished = sh2.
Proof.
  intros Hwin Hall sh1 sh2.
  destruct (requests_register evs sh win Hwin Hall) as (Hc & Ha & _ & Hw).
  fold sh1 in Hc, Ha, Hw.
  destruct (emit_animation_finished_window (animation_finished sh1) sh1 win [])
    as (Hc2 & Ha2 & Hb2); [done|by rewrite app_nil_r|].
  change (emit_animation_finished (animation_finished sh1) sh1) with sh2
    in Hc2, Ha2, Hb2.
  split; [done|]. split; [done|]. split; [by rewrite Hc2, Hc, Ha|].
  split; [done|]. simpl. by rewrite Ha2.
Qed.

(** X14. While [mainWindow] is [null]: a [minimize-window] or
    [close-window] message throws before [once] is reached, leaving one
    uncaught [TypeError] and no listener; a [maximize-window] message does
    nothing; and [animation-finished] removes the first registered
    listener, which throws, and leaves the others registered. *)
Theorem window_controls_without_a_window sh :
  mainWindow (backend sh) = None ->
  (forall ev, is_Some (requested ev) ->
     shell_step sh ev = set_backend (emit (Uncaught TypeError) (backend sh)) sh)
  /\ shell_step sh ipc_maximize_window = sh
  /\ (forall m ls,
        animation_finished sh = m :: ls ->
        shell_step sh ipc_animation_finished
        = set_animation_finished ls
            (set_backend (emit (Uncaught TypeError) (backend sh)) sh)).
Proof.
  intros Hwin. split; [|split].
  - intros ev [m Hm].
    destruct ev; try discriminate Hm; simpl;
      by rewrite start_animation_no_window.
  - simpl. unfold on_maximize_window. by rewrite Hwin.
  - intros m ls Hls. simpl. rewrite Hls. simpl. by rewrite Hwin, Hls.
Qed.

(** X15. A [maximize-window] message toggles: it calls [unmaximize] on a
    window that is maximized and [maximize] on one that is not, sends
    nothing to the renderer and registers nothing; two of them in a row
    leave [isMaximized] as it was. *)
Theorem maximize_window_toggles sh win :
  mainWindow (backend sh) = Some win ->
  let sh1 := shell_step sh ipc_maximize_window in
  let sh2 := shell_step sh1 ipc_maximize_window in
  isMaximized sh1 = negb (isMaximized sh)
  /\ window_calls sh1
     = window_calls sh ++ [if isMaximized sh then unmaximize else maximize]
  /\ backend sh1 = backend sh
  /\ animation_finished sh1 = animation_finished sh
  /\ isMaximized sh2 = isMaximized sh
  /\ window_calls sh2
     = window_calls sh
       ++ (if isMaximized sh then [unmaximize; maximize]
           else [maximize; unmaximize]).
Proof.
  intros Hwin sh1 sh2. subst sh1 sh2. simpl. unfold on_maximize_window.
  rewrite Hwin. destruct (isMaximized sh) eqn:Hm; simpl; rewrite Hwin;
    simpl; by rewrite <- app_assoc.
Qed.


(** ** The channels of the bridge *)

Lemma whitelisted_app l1 l2 :
  whitelisted l1 -> whitelisted l2 -> whitelisted (l1 ++ l2).
Proof. unfold whitelisted. rewrite sends_app. apply Forall_app_2. Qed.

Lemma whitelisted_backend_message v :
  whitelisted [Send (js "backend-message") v].
Proof. apply Forall_singleton. cbn. repeat constructor. Qed.

Lemma whitelisted_send_action w v :
  whitelisted [send_action w "backend-message" v].
Proof.
  destruct w; [|apply Forall_nil_2].
  apply Forall_singleton. cbn. repeat constructor.
Qed.

Lemma line_actions_whitelisted k subject w line :
  whitelisted (line_actions k subject w line).
Proof.
  destruct (JSON_parse line) as [v|e] eqn:Hp.
  2:{ rewrite (line_actions_malformed _ _ _ _ e) by done. apply Forall_nil_2. }
  destruct w as [win|].
  2:{ destruct (line_actions_no_window k subject line)
        as [_ [-> | ->]]; apply Forall_nil_2. }
  destruct k.
  - rewrite (line_actions_fetch_value _ _ _ v) by done.
    destruct v; try apply Forall_nil_2;
      repeat match goal with
             | |- context [if ?b then _ else _] => destruct b
             end;
      first [apply Forall_nil_2
            |apply Forall_singleton; cbn; repeat constructor].
  - rewrite (line_actions_download _ _ _ v) by done.
    apply whitelisted_backend_message.
  - rewrite (line_actions_patch_value _ _ _ v) by done.
    destruct v; first [apply Forall_nil_2|apply whitelisted_backend_message].
Qed.

Lemma chunk_actions_whitelisted k subject w b data :
  whitelisted (chunk_actions k subject w b data).
Proof.
  unfold chunk_actions. apply whitelisted_app.
  { destruct k; apply Forall_nil_2. }
  induction (filter _ _) as [|l ls IH]; [apply Forall_nil_2|].
  simpl. apply whitelisted_app; [apply line_actions_whitelisted|done].
Qed.

Lemma whitelisted_emit_all l st :
  whitelisted (trace st) -> whitelisted l ->
  whitelisted (trace (emit_all l st)).
Proof. intros. rewrite trace_emit_all. by apply whitelisted_app. Qed.

Lemma whitelisted_step st ev :
  whitelisted (trace st) -> whitelisted (trace (step st ev)).
Proof.
  intros Hw.
  assert (Hquiet : forall l st0,
             trace st0 = trace st -> sends l = [] ->
             whitelisted (trace (emit_all l st0))).
  { intros l st0 Ht Hl. rewrite trace_emit_all, Ht.
    apply whitelisted_app; [done|]. unfold whitelisted. by rewrite Hl. }
  assert (Hmsg : forall l w v st0,
             trace st0 = trace st -> sends l = [] ->
             whitelisted
               (trace (emit_all (l ++ [send_action w "backend-message" v])
                                st0))).
  { intros l w v st0 Ht Hl. rewrite trace_emit_all, Ht.
    apply whitelisted_app; [done|]. apply whitelisted_app.
    - unfold whitelisted. by rewrite Hl.
    - apply whitelisted_send_action. }
  destruct ev as [repoUrl pid|downloadUrl pid|data now|op r pid|op err
                  |child data|child data|child code|child| |].
  - destruct (activeProcesses st !! registry_key Fetch repoUrl) eqn:E.
    + rewrite (request_running _ _ Fetch repoUrl) by done. by apply Hquiet.
    + rewrite fetch_admitted by done. by apply Hquiet.
  - destruct (activeProcesses st !! registry_key Download downloadUrl) eqn:E.
    + rewrite (request_running _ _ Download downloadUrl) by done.
      by apply Hquiet.
    + rewrite download_admitted by done. by apply Hquiet.
  - destruct (activeProcesses st !! registry_key Patch (identifier data)) eqn:E.
    + rewrite (request_running _ _ Patch (identifier data)) by done.
      by apply Hquiet.
    + destruct (ipaBuffer data) as [ipa|] eqn:Hipa.
      2:{ rewrite patch_invalid by auto. by apply (Hmsg [_]). }
      destruct (string_truthy (tweakPath data)) eqn:Ht.
      2:{ rewrite patch_invalid by auto. by apply (Hmsg [_]). }
      destruct (tweakPath data) as [[|x tweak]|] eqn:Htw; try done.
      rewrite (patch_staged _ _ _ ipa (x :: tweak)) by done.
      by apply Hquiet.
  - destruct (writes st !! op) as [w|] eqn:Hw'; [|by simpl; rewrite Hw'].
    destruct (w_done w) eqn:Hd; [by simpl; rewrite Hw', Hd|].
    destruct r as [|err residue].
    + rewrite (writeFile_written _ _ w) by done. by apply Hquiet.
    + rewrite (writeFile_failed _ _ w) by done. by apply (Hmsg [_]).
  - simpl. destruct (unlinks st !! op) as [u|]; [|done].
    destruct (u_done u); [done|]. destruct err; by apply (Hquiet [_]).
  - destruct (children st !! child) as [c|] eqn:Hc; [|by simpl; rewrite Hc].
    destruct (closed c) eqn:Hd; [by simpl; rewrite Hc, Hd|].
    rewrite (stdout_step _ _ c) by done.
    apply whitelisted_emit_all; [done|apply chunk_actions_whitelisted].
  - destruct (children st !! child) as [c|] eqn:Hc; [|by simpl; rewrite Hc].
    destruct (closed c) eqn:Hd; [by simpl; rewrite Hc, Hd|].
    destruct (stderr_step st child c data Hc Hd) as [text ->].
    by apply (Hquiet [_]).
  - destruct (children st !! child) as [c|] eqn:Hc; [|by simpl; rewrite Hc].
    destruct (closed c) eqn:Hd; [by simpl; rewrite Hc, Hd|].
    destruct (kind c) eqn:Hk.
    + rewrite (close_fetch _ _ c) by done. by apply Hquiet.
    + rewrite (close_download _ _ c) by done. by apply (Hmsg [_; _]).
    + rewrite (close_patch _ _ c) by done. by apply (Hmsg [_; _; _]).
  - simpl. destruct (children st !! child) as [c|]; [|done].
    destruct (closed c); [done|]. by apply (Hquiet [_]).
  - done.
  - simpl. by destruct (mainWindow st).
Qed.

Lemma whitelisted_shell_step sh ev :
  whitelisted (trace (backend sh)) ->
  whitelisted (trace (backend (shell_step sh ev))).
Proof.
  intros Hw. destruct ev; simpl.
  - by apply whitelisted_step.
  - unfold start_animation, webContents_send.
    destruct (mainWindow (backend sh)); simpl.
    + apply whitelisted_app; [done|apply Forall_singleton; cbn; repeat constructor].
    + apply whitelisted_app; [done|apply Forall_nil_2].
  - unfold start_animation, webContents_send.
    destruct (mainWindow (backend sh)); simpl.
    + apply whitelisted_app; [done|apply Forall_singleton; cbn; repeat constructor].
    + apply whitelisted_app; [done|apply Forall_nil_2].
  - unfold on_maximize_window.
    destruct (mainWindow (backend sh)); [|done].
    by destruct (isMaximized sh).
  - generalize (animation_finished sh) at 1. intros ls.
    revert sh Hw. induction ls as [|m ls IH]; intros sh Hw; simpl; [done|].
    destruct (mainWindow (backend sh)) eqn:Hwin; simpl.
    + by apply IH.
    + apply whitelisted_app; [done|apply Forall_nil_2].
  - unfold run, webContents_send.
    destruct (mainWindow (backend sh)); simpl.
    + apply whitelisted_app; [done|apply Forall_singleton; cbn; repeat constructor].
    + apply whitelisted_app; [done|apply Forall_nil_2].
Qed.

Lemma reachable_whitelisted sh :
  shell_reachable sh -> whitelisted (trace (backend sh)).
Proof.
  induction 1; [apply Forall_nil_2|by apply whitelisted_shell_step].
Qed.

Lemma main_channels_received channel :
  channel ∈ main_channels -> Preload.receive channel = true.
Proof.
  unfold main_channels. cbn [fmap list_fmap].
  rewrite !elem_of_cons, elem_of_nil.
  intros [->|[->|[->|[->|[->|[->|[]]]]]]]; reflexivity.
Qed.

(** X16. In every run of the backend listeners and the window controls,
    every message the main process has sent is on a channel of the bridge's
    [receive] list, so the bridge withholds none of them; and every channel
    the main process listens on is in the bridge's [send] list. *)
Theorem every_dispatch_passes_the_bridge :
  (forall sh, shell_reachable sh ->
     Preload.delivered (dispatched (backend sh)) = dispatched (backend sh))
  /\ (forall ev channel data,
        channel_of ev = Some channel ->
        Preload.send channel data = Some (channel, data)).
Proof.
  split.
  - intros sh Hr. pose proof (reachable_whitelisted sh Hr) as Hw.
    unfold Preload.delivered, dispatched. unfold whitelisted in Hw.
    induction Hw as [|m ms Hm Hms IH]; [done|].
    rewrite filter_cons, decide_True by by apply main_channels_received.
    by f_equal.
  - intros ev channel data Hch.
    destruct ev as [[]| | | | |]; try discriminate Hch;
      injection Hch as <-; reflexivity.
Qed.

(** X27. Whatever the run, a message the main process has sent is on one
    of the six channels its source names, so it never sends on
    [conversion-progress], [conversion-error] or [conversion-complete];
    and it has no listener on [run-conversion] or [open-external-link],
    although the bridge lets both through: the request of the local-files
    view is never answered. *)
Theorem local_conversion_is_never_answered :
  (forall sh m,
     shell_reachable sh -> m ∈ dispatched (backend sh) ->
     m.1 ∈ main_channels
     /\ m.1 <> js "conversion-progress" /\ m.1 <> js "conversion-error"
     /\ m.1 <> js "conversion-complete")
  /\ (forall ev,
        channel_of ev <> Some (js "run-conversion")
        /\ channel_of ev <> Some (js "open-external-link"))
  /\ (forall data,
        Preload.send (js "run-conversion") data
        = Some (js "run-conversion", data)
        /\ Preload.send (js "open-external-link") data
           = Some (js "open-external-link", data)).
Proof.
  split; [|split].
  - intros sh m Hr Hm. pose proof (reachable_whitelisted sh Hr) as Hw.
    unfold whitelisted in Hw. rewrite Forall_forall in Hw.
    specialize (Hw m Hm). split; [done|].
    revert Hw. unfold main_channels. cbn [fmap list_fmap].
    rewrite !elem_of_cons, elem_of_nil.
    intros [->|[->|[->|[->|[->|[->|[]]]]]]];
      repeat split; intros E; vm_compute in E; discriminate E.
  - intros ev. destruct ev as [[]| | | | |]; split; intros E;
      try discriminate E; injection E as E; vm_compute in E; discriminate E.
  - intros data. split; reflexivity.
Qed.

End ShellFacts.

(* ===================================================================== *)
(** * Properties of the renderer *)
(* ===================================================================== *)

(** ** The GitHub client *)

Section GithubFacts.

Context `{GithubApi.Browser}.

Lemma split_from_no_slash s : forall cur,
  SLASH ∉ cur -> Forall (fun p => SLASH ∉ p) (split_from cur s).
Proof.
  induction s as [|c s IH]; intros cur Hcur; cbn [split_from].
  { by apply Forall_singleton. }
  destruct (c =? SLASH) eqn:E.
  - apply Forall_cons. split; [done|]. apply IH, not_elem_of_nil.
  - apply IH. rewrite elem_of_app, list_elem_of_singleton.
    intros [?|Hc]; [done|]. rewrite <- Hc in E. done.
Qed.

Lemma split_from_piece s : forall cur,
  SLASH ∉ s -> split_from cur s = [cur ++ s].
Proof.
  induction s as [|c s IH]; intros cur Hs; cbn [split_from app].
  { by rewrite app_nil_r. }
  apply not_elem_of_cons in Hs as [Hc Hs].
  destruct (c =? SLASH) eqn:E; [by apply Z.eqb_eq in E|].
  rewrite IH by done. by rewrite <- app_assoc.
Qed.

Lemma split_from_slash p s : forall cur,
  SLASH ∉ p -> split_from cur (p ++ SLASH :: s) = (cur ++ p) :: split_from [] s.
Proof.
  induction p as [|c p IH]; intros cur Hp; cbn [split_from app].
  { by rewrite app_nil_r. }
  apply not_elem_of_cons in Hp as [Hc Hp].
  destruct (c =? SLASH) eqn:E; [by apply Z.eqb_eq in E|].
  rewrite IH by done. by rewrite <- app_assoc.
Qed.

Lemma owner_repo_components ps o r :
  GithubApi.owner_repo ps = Some (o, r) -> o ∈ ps /\ r ∈ ps.
Proof.
  destruct ps as [|a [|b ps]]; try done. intros [= -> ->].
  split; [left|right; left].
Qed.

Lemma parts_components s p :
  p ∈ GithubApi.parts s -> p <> [] /\ SLASH ∉ p.
Proof.
  unfold GithubApi.parts, split. intros [Hne Hin]%list_elem_of_filter.
  split; [by destruct p|].
  pose proof (split_from_no_slash s [] (not_elem_of_nil _)) as Hall.
  rewrite Forall_forall in Hall. by apply Hall.
Qed.

(** X17. When [parseRepoUrl] returns an owner and a repository, neither
    is empty and neither holds a slash, whatever the text and whatever
    [new URL] makes of it. *)
Theorem parseRepoUrl_components url owner repo :
  GithubApi.parseRepoUrl url = Some (owner, repo) ->
  owner <> [] /\ repo <> [] /\ (SLASH ∉ owner) /\ (SLASH ∉ repo).
Proof.
  unfold GithubApi.parseRepoUrl. intros Hp.
  assert (exists s, GithubApi.owner_repo (GithubApi.parts s)
                    = Some (owner, repo)) as [s Hs].
  { destruct (startsWith url (js "http")); [|by eexists].
    destruct (GithubApi.URL_pathname url); [by eexists|done]. }
  apply owner_repo_components in Hs as [Ho Hr].
  apply parts_components in Ho as [? ?], Hr as [? ?]. done.
Qed.

(** X18. A shorthand [owner/repo], alone or followed by a slash and more,
    that does not start with [http], is parsed to that owner and that
    repository; a text without a slash that does not start with [http] is
    parsed to [null]. *)
Theorem parseRepoUrl_shorthand :
  (forall owner repo rest,
     owner <> [] -> repo <> [] -> SLASH ∉ owner -> SLASH ∉ repo ->
     rest = [] \/ (exists more, rest = SLASH :: more) ->
     startsWith (owner ++ SLASH :: repo ++ rest) (js "http") = false ->
     GithubApi.parseRepoUrl (owner ++ SLASH :: repo ++ rest)
     = Some (owner, repo))
  /\ (forall url,
        SLASH ∉ url -> startsWith url (js "http") = false ->
        GithubApi.parseRepoUrl url = None).
Proof.
  split.
  - intros owner repo rest Ho Hr Hso Hsr Hrest Hhttp.
    unfold GithubApi.parseRepoUrl. rewrite Hhttp.
    unfold GithubApi.parts, split. rewrite split_from_slash by done.
    simpl. rewrite filter_cons, decide_True by by destruct owner.
    destruct Hrest as [->|[more ->]].
    + rewrite app_nil_r, split_from_piece by done. simpl.
      rewrite filter_cons, decide_True by by destruct repo. done.
    + rewrite split_from_slash by done. simpl.
      rewrite filter_cons, decide_True by by destruct repo. done.
  - intros url Hs Hhttp. unfold GithubApi.parseRepoUrl. rewrite Hhttp.
    unfold GithubApi.parts, split. rewrite split_from_piece by done.
    simpl. rewrite filter_cons. case_decide; done.
Qed.


(** ** The releases that are shown *)

Lemma array_filter_spec cb elems :
  match array_filter cb elems with
  | Normal kept =>
    kept = filter (fun x => accepted (cb x) = true) elems
    /\ Forall (fun x => exists b, cb x = Normal b) elems
  | Throw e => exists x, x ∈ elems /\ cb x = Throw e
  end.
Proof.
  induction elems as [|x elems IH]; simpl.
  { split; [done|apply Forall_nil_2]. }
  unfold mbind, Completion_bind.
  destruct (cb x) as [b|e] eqn:Hx.
  2:{ exists x. split; [left|done]. }
  destruct (array_filter cb elems) as [kept|e].
  - destruct IH as [-> Hall]. split.
    + rewrite filter_cons, Hx. by destruct b.
    + apply Forall_cons. split; [by exists b|done].
  - destruct IH as (y & Hy & He). exists y. split; [by right|done].
Qed.

Lemma array_some_true cb elems :
  array_some cb elems = Normal true ->
  exists x, x ∈ elems /\ cb x = Normal true.
Proof.
  induction elems as [|x elems IH]; simpl; [done|].
  unfold mbind, Completion_bind.
  destruct (cb x) as [[]|e] eqn:Hx; try done.
  - intros _. exists x. split; [left|done].
  - intros (y & Hy & Hcb)%IH. exists y. split; [by right|done].
Qed.

Lemma keeps_release_true release :
  GithubApi.keeps_release release = Normal true ->
  truthy (prop release "draft") = false
  /\ exists assets props asset name,
       get_prop release (js "assets") = Normal (JArr assets props)
       /\ asset ∈ assets
       /\ get_prop asset (js "name") = Normal (JStr name)
       /\ endsWith name (js ".deb") = true.
Proof.
  unfold GithubApi.keeps_release, prop, mbind, Completion_bind.
  destruct (get_prop release (js "draft")) as [draft|] eqn:Hd; [|done].
  destruct (truthy draft) eqn:Ht; [done|].
  destruct (get_prop release (js "assets")) as [assets|] eqn:Ha; [|done].
  unfold array_method.
  destruct assets as [| | | | |elems props|]; try done.
  case_bool_decide; [done|].
  intros (asset & Hin & Hdeb)%array_some_true.
  split; [done|]. exists elems, props, asset.
  unfold GithubApi.is_deb_asset, mbind, Completion_bind in Hdeb.
  destruct (get_prop asset (js "name")) as [name|] eqn:Hn; [|done].
  destruct name as [| | | |name| |]; try done.
  exists name. injection Hdeb as Hdeb. done.
Qed.

Lemma kept_releases elems kept :
  array_filter GithubApi.keeps_release elems = Normal kept ->
  kept = filter (fun release =>
                   accepted (GithubApi.keeps_release release) = true) elems
  /\ Forall (fun release =>
               exists b, GithubApi.keeps_release release = Normal b) elems
  /\ Forall (fun release =>
               truthy (prop release "draft") = false
               /\ exists assets props asset name,
                    get_prop release (js "assets")
                    = Normal (JArr assets props)
                    /\ asset ∈ assets
                    /\ get_prop asset (js "name") = Normal (JStr name)
                    /\ endsWith name (js ".deb") = true) kept.
Proof.
  intros Hk.
  pose proof (array_filter_spec GithubApi.keeps_release elems) as Hspec.
  rewrite Hk in Hspec.
  destruct Hspec as [-> Hall]. split; [done|]. split; [done|].
  apply Forall_forall. intros release [Hacc _]%list_elem_of_filter.
  apply keeps_release_true.
  destruct (GithubApi.keeps_release release) as [[]|]; done.
Qed.

(** X19. The releases the filter of [fetchRepoData] keeps are those on
    which the callback returns [true], in their order; each of them has a
    falsy [draft] and an array [assets] with an asset whose [name] is a
    string that ends in [.deb]; and the filter throws only where the
    callback throws on one of the releases. *)
Theorem shown_releases_are_published_deb_releases elems :
  match array_filter GithubApi.keeps_release elems with
  | Normal kept =>
    kept = filter (fun release =>
                     accepted (GithubApi.keeps_release release) = true) elems
    /\ Forall (fun release =>
                 exists b, GithubApi.keeps_release release = Normal b) elems
    /\ Forall (fun release =>
                 truthy (prop release "draft") = false
                 /\ exists assets props asset name,
                      get_prop release (js "assets")
                      = Normal (JArr assets props)
                      /\ asset ∈ assets
                      /\ get_prop asset (js "name") = Normal (JStr name)
                      /\ endsWith name (js ".deb") = true) kept
  | Throw e =>
    exists release,
      release ∈ elems /\ GithubApi.keeps_release release = Throw e
  end.
Proof.
  pose proof (array_filter_spec GithubApi.keeps_release elems) as Hspec.
  destruct (array_filter GithubApi.keeps_release elems) as [kept|e] eqn:Hk;
    [|done].
  by apply kept_releases.
Qed.

Lemma fetched_normal repoRes releasesRes v :
  GithubApi.fetched repoRes releasesRes = Normal v ->
  (exists message, v = GithubApi.error_result message)
  \/ (exists repo kept,
        v = object [("repo", repo); ("releases", JArr kept ∅)]
        /\ Forall (fun release =>
                     truthy (prop release "draft") = false
                     /\ exists assets props asset name,
                          get_prop release (js "assets")
                          = Normal (JArr assets props)
                          /\ asset ∈ assets
                          /\ get_prop asset (js "name") = Normal (JStr name)
                          /\ endsWith name (js ".deb") = true) kept).
Proof.
  unfold GithubApi.fetched.
  destruct repoRes as [repoRes|]; [|done].
  destruct releasesRes as [releasesRes|]; [|done].
  destruct (negb (GithubApi.ok repoRes)); [intros [= <-]; left; by eexists|].
  destruct (negb (GithubApi.ok releasesRes));
    [intros [= <-]; left; by eexists|].
  unfold mbind, Completion_bind.
  destruct (GithubApi.json repoRes) as [repoData|]; [|done].
  destruct (GithubApi.json releasesRes) as [releasesData|]; [|done].
  destruct (GithubApi.repo_summary repoData) as [repo|]; [|done].
  destruct (array_method releasesData "filter") as [elems|]; [|done].
  destruct (array_filter GithubApi.keeps_release elems) as [kept|] eqn:Hk;
    [|done].
  intros [= <-]. right. exists repo, kept. split; [done|].
  by apply kept_releases in Hk as (_ & _ & Hk).
Qed.

(** X20. [fetchRepoData] requests nothing exactly when the text does not
    parse, and the API URLs of the repository and of its releases
    otherwise.  It answers with an object that holds an [error] message,
    which is the network message whenever an exception was logged and the
    invalid-URL message when the text does not parse, or with an object
    that holds [repo] and [releases], nothing being logged, where every
    release is no draft and has an asset whose name ends in [.deb]. *)
Theorem fetchRepoData_answers_with_an_error_or_a_repository fetch repoUrl :
  let out := GithubApi.fetchRepoData fetch repoUrl in
  (GithubApi.requests out = [] <-> GithubApi.parseRepoUrl repoUrl = None)
  /\ (forall owner repo,
        GithubApi.parseRepoUrl repoUrl = Some (owner, repo) ->
        GithubApi.requests out
        = [GithubApi.repo_url owner repo; GithubApi.releases_url owner repo])
  /\ ((exists message,
         GithubApi.result out = GithubApi.error_result message
         /\ (GithubApi.logged out <> [] ->
             message
             = js "Network error or invalid response from GitHub API.")
         /\ (GithubApi.parseRepoUrl repoUrl = None ->
             message = js "Invalid GitHub Repository URL"))
      \/ (exists repo kept,
            GithubApi.result out
            = object [("repo", repo); ("releases", JArr kept ∅)]
            /\ GithubApi.logged out = []
            /\ Forall (fun release =>
                         truthy (prop release "draft") = false
                         /\ exists assets props asset name,
                              get_prop release (js "assets")
                              = Normal (JArr assets props)
                              /\ asset ∈ assets
                              /\ get_prop asset (js "name")
                                 = Normal (JStr name)
                              /\ endsWith name (js ".deb") = true) kept)).
Proof.
  intros out. subst out. unfold GithubApi.fetchRepoData.
  destruct (GithubApi.parseRepoUrl repoUrl) as [[owner repo]|].
  2:{ split; [done|]. split; [done|]. left. by eexists. }
  destruct (GithubApi.fetched _ _) as [v|e] eqn:Hf; simpl.
  - split; [done|]. split; [by intros ? ? [= <- <-]|].
    apply fetched_normal in Hf as [[message ->]|(repo' & kept & -> & Hk)].
    + left. by exists message.
    + right. by exists repo', kept.
  - split; [done|]. split; [by intros ? ? [= <- <-]|].
    left. by eexists.
Qed.

End GithubFacts.

(** ** The file queue *)

Lemma push_new_spec queue file :
  LocalFiles.push_new queue file
  = if bool_decide (LocalFiles.path file ∈ LocalFiles.path <$> queue)
    then queue else queue ++ [file].
Proof.
  unfold LocalFiles.push_new.
  destruct (existsb _ queue) eqn:E.
  - rewrite bool_decide_eq_true_2; [done|].
    apply existsb_exists in E as (f & Hin & Hf).
    apply bool_decide_eq_true in Hf. rewrite <- Hf.
    apply list_elem_of_fmap_2, list_elem_of_In, Hin.
  - rewrite bool_decide_eq_false_2; [done|].
    intros (f & Hf & Hin)%list_elem_of_fmap.
    assert (existsb (fun f => bool_decide (LocalFiles.path f
                                           = LocalFiles.path file)) queue
            = true); [|congruence].
    apply existsb_exists. exists f. split; [by apply list_elem_of_In|].
    by apply bool_decide_eq_true.
Qed.

Lemma push_new_NoDup queue file :
  NoDup (LocalFiles.path <$> queue) ->
  NoDup (LocalFiles.path <$> LocalFiles.push_new queue file).
Proof.
  intros Hnd. rewrite push_new_spec. case_bool_decide; [done|].
  rewrite fmap_app. apply NoDup_app. split; [done|]. split.
  - intros p Hp ->%list_elem_of_singleton. done.
  - apply NoDup_singleton.
Qed.

Lemma fold_push_new_NoDup files : forall queue,
  NoDup (LocalFiles.path <$> queue) ->
  NoDup (LocalFiles.path <$> fold_left LocalFiles.push_new files queue).
Proof.
  induction files as [|f files IH]; intros queue Hnd; simpl; [done|].
  by apply IH, push_new_NoDup.
Qed.

Lemma fold_push_new_prefix files : forall queue,
  queue `prefix_of` fold_left LocalFiles.push_new files queue.
Proof.
  induction files as [|f files IH]; intros queue; simpl; [done|].
  etrans; [|apply IH]. rewrite push_new_spec.
  case_bool_decide; [done|]. by apply prefix_app_r.
Qed.

Lemma fold_push_new_paths files : forall queue f,
  f ∈ files ->
  LocalFiles.path f
  ∈ LocalFiles.path <$> fold_left LocalFiles.push_new files queue.
Proof.
  induction files as [|g files IH]; intros queue f Hf; simpl.
  { by apply elem_of_nil in Hf. }
  apply elem_of_cons in Hf as [->|Hf]; [|by apply IH].
  assert (Hin : LocalFiles.path g
                ∈ LocalFiles.path <$> LocalFiles.push_new queue g).
  { rewrite push_new_spec. case_bool_decide; [done|].
    rewrite fmap_app, elem_of_app. right. simpl. left. }
  destruct (fold_push_new_prefix files (LocalFiles.push_new queue g))
    as [more ->].
  rewrite fmap_app, elem_of_app. by left.
Qed.

Lemma fold_push_new_from files : forall queue f,
  f ∈ fold_left LocalFiles.push_new files queue -> f ∈ queue \/ f ∈ files.
Proof.
  induction files as [|g files IH]; intros queue f Hf; simpl in *; [by left|].
  apply IH in Hf as [Hf|Hf]; [|right; by right].
  rewrite push_new_spec in Hf. case_bool_decide; [by left|].
  apply elem_of_app in Hf as [Hf|Hf]; [by left|].
  apply list_elem_of_singleton in Hf as ->. right. left.
Qed.

Lemma fold_push_new_known files : forall queue,
  Forall (fun f => LocalFiles.path f ∈ LocalFiles.path <$> queue) files ->
  fold_left LocalFiles.push_new files queue = queue.
Proof.
  induction files as [|f files IH]; intros queue Hall; simpl; [done|].
  apply Forall_cons in Hall as [Hf Hall].
  rewrite push_new_spec, bool_decide_eq_true_2 by done. by apply IH.
Qed.

Lemma filesToConvert_updateFileQueue queue :
  LocalFiles.filesToConvert (LocalFiles.updateFileQueue queue) = queue.
Proof. by destruct queue. Qed.

(** X21. Whatever is dropped, picked, removed or cleared, the queue never
    holds two files of the same path, the list on display shows the names
    of the queued files in their order, and the batch actions are on
    display exactly when the queue is not empty. *)
Theorem file_queue_holds_each_path_once v :
  LocalFiles.reachable v ->
  NoDup (LocalFiles.path <$> LocalFiles.filesToConvert v)
  /\ LocalFiles.fileQueue v
     = (LocalFiles.name <$> LocalFiles.filesToConvert v)
  /\ LocalFiles.batchActions_display v
     = js (if bool_decide (LocalFiles.filesToConvert v = [])
           then "none" else "flex").
Proof.
  assert (Hupd : forall queue,
             NoDup (LocalFiles.path <$> queue) ->
             NoDup (LocalFiles.path
                    <$> LocalFiles.filesToConvert
                          (LocalFiles.updateFileQueue queue))
             /\ LocalFiles.fileQueue (LocalFiles.updateFileQueue queue)
                = (LocalFiles.name
                   <$> LocalFiles.filesToConvert
                         (LocalFiles.updateFileQueue queue))
             /\ LocalFiles.batchActions_display
                  (LocalFiles.updateFileQueue queue)
                = js (if bool_decide
                           (LocalFiles.filesToConvert
                              (LocalFiles.updateFileQueue queue) = [])
                      then "none" else "flex")).
  { intros [|f queue] Hnd; done. }
  induction 1 as [|v ev Hr (Hnd & _ & _)].
  { split; [apply NoDup_nil_2|done]. }
  destruct ev as [files|files|index|]; cbn [LocalFiles.step];
    unfold LocalFiles.handleFiles; apply Hupd.
  - by apply fold_push_new_NoDup.
  - by apply fold_push_new_NoDup.
  - eapply sublist_NoDup;
      first [exact Hnd|apply fmap_sublist, sublist_delete].
  - apply NoDup_nil_2.
Qed.

(** X22. [handleFiles] keeps the queued files in place and appends to
    them; every file handed over has its path in the queue afterwards;
    every queued file was queued before or was handed over; handing the
    same files over again changes nothing; and a file enters the queue by a
    drop only if its name ends in [.deb]. *)
Theorem handleFiles_adds_unknown_paths_once files v :
  let q := LocalFiles.filesToConvert v in
  let q' := LocalFiles.filesToConvert (LocalFiles.handleFiles files v) in
  q `prefix_of` q'
  /\ (forall f, f ∈ files -> LocalFiles.path f ∈ LocalFiles.path <$> q')
  /\ (forall f, f ∈ q' -> f ∈ q \/ f ∈ files)
  /\ LocalFiles.handleFiles files (LocalFiles.handleFiles files v)
     = LocalFiles.handleFiles files v
  /\ (forall dropped f,
        f ∈ LocalFiles.filesToConvert (LocalFiles.step v (LocalFiles.drop dropped)) ->
        f ∈ q \/ (f ∈ dropped /\ endsWith (LocalFiles.name f) (js ".deb") = true)).
Proof.
  intros q q'. subst q q'. unfold LocalFiles.handleFiles.
  rewrite !filesToConvert_updateFileQueue.
  split; [apply fold_push_new_prefix|].
  split; [intros f; apply fold_push_new_paths|].
  split; [intros f; apply fold_push_new_from|].
  split.
  - rewrite fold_push_new_known; [done|].
    apply Forall_forall. intros f. apply fold_push_new_paths.
  - intros dropped f. simpl. unfold LocalFiles.handleFiles.
    rewrite filesToConvert_updateFileQueue.
    intros [Hf|Hf]%fold_push_new_from; [by left|].
    apply list_elem_of_filter in Hf as [Hdeb Hf]. by right.
Qed.

(** ** The download buttons *)

Section ButtonFacts.

Context `{DownloadButton.Coercions}.

Lemma strict_eq_str_true v s : strict_eq_str v s = true -> v = JStr s.
Proof.
  destruct v; try done. simpl. by intros ->%bool_decide_eq_true.
Qed.

Lemma get_prop_prop v k :
  v <> JUndefined -> v <> JNull -> get_prop v (js k) = Normal (prop v k).
Proof. unfold prop. by destruct v. Qed.

Lemma has_field_readable v k s :
  has_field v k s = true ->
  v <> JUndefined /\ v <> JNull /\ prop v k = JStr (js s).
Proof.
  unfold has_field, prop. destruct v; try done;
    intros ?%strict_eq_str_true; done.
Qed.

Ltac known_strings :=
  repeat match goal with
         | |- context [strict_eq_str (JStr (js ?a)) (js ?b)] =>
           let v := eval vm_compute in (strict_eq_str (JStr (js a)) (js b)) in
           change (strict_eq_str (JStr (js a)) (js b)) with v
         end.

Lemma disabled_update data b :
  data <> JUndefined -> data <> JNull ->
  DownloadButton.disabled (DownloadButton.update data b).1
  = if strict_eq_str (prop data "type") (js "tweak_detected") then true
    else if truthy (prop data "status")
            && negb (DownloadButton.is_string (prop data "status"))
    then DownloadButton.disabled b
    else if strict_eq_str (prop data "type") (js "operation")
            && strict_eq_str (prop data "status") (js "completed")
    then true
    else if strict_eq_str (prop data "type") (js "operation")
            && strict_eq_str (prop data "status") (js "failed")
    then false
    else if strict_eq_str (prop data "type") (js "process_exit")
            && DownloadButton.not_zero (prop data "code")
            && negb (DownloadButton.classList_contains "btn-success" b)
    then false
    else DownloadButton.disabled b.
Proof.
  intros Hu Hn. unfold DownloadButton.update.
  rewrite !(get_prop_prop data) by done.
  destruct (strict_eq_str (prop data "type") (js "tweak_detected"));
    [done|].
  destruct (DownloadButton.progressBars b) as [|w bars] eqn:Hbars;
    destruct (DownloadButton.defined (prop data "progress"));
    destruct (strict_eq_str (prop data "type") (js "operation"));
    destruct (strict_eq_str (prop data "type") (js "process_exit"));
    destruct (DownloadButton.not_zero (prop data "code"));
    destruct (prop data "status") as [| |[]|m e|[|c s]| |];
    cbn [truthy DownloadButton.is_string negb andb strict_eq_str fst
         Z.eqb];
    try reflexivity;
    repeat match goal with
           | |- context [bool_decide ?P] => destruct (bool_decide P)
           end;
    try reflexivity.
  all: repeat match goal with
              | |- context [rounds_to_zero ?x ?y] =>
                destruct (rounds_to_zero x y)
              end.
  all: unfold DownloadButton.classList_contains;
    cbn [DownloadButton.classList DownloadButton.set_width
         DownloadButton.set_textContent DownloadButton.set_progressBars];
    destruct (bool_decide (js "btn-success" ∈ DownloadButton.classList b));
    reflexivity.
Qed.


Lemma classList_update data b :
  data <> JUndefined -> data <> JNull ->
  DownloadButton.classList (DownloadButton.update data b).1
  = if strict_eq_str (prop data "type") (js "tweak_detected")
    then DownloadButton.classList b
    else if truthy (prop data "status")
            && negb (DownloadButton.is_string (prop data "status"))
    then DownloadButton.classList b
    else if strict_eq_str (prop data "type") (js "operation")
            && strict_eq_str (prop data "status") (js "completed")
    then DownloadButton.classList (DownloadButton.classList_add "btn-success" b)
    else if strict_eq_str (prop data "type") (js "operation")
            && strict_eq_str (prop data "status") (js "failed")
    then DownloadButton.classList (DownloadButton.classList_add "btn-error" b)
    else if strict_eq_str (prop data "type") (js "process_exit")
            && DownloadButton.not_zero (prop data "code")
            && negb (DownloadButton.classList_contains "btn-success" b)
    then DownloadButton.classList (DownloadButton.classList_add "btn-error" b)
    else DownloadButton.classList b.
Proof.
  intros Hu Hn. unfold DownloadButton.update.
  rewrite !(get_prop_prop data) by done.
  destruct (strict_eq_str (prop data "type") (js "tweak_detected"));
    [done|].
  destruct (DownloadButton.progressBars b) as [|w bars] eqn:Hbars;
    destruct (DownloadButton.defined (prop data "progress"));
    destruct (strict_eq_str (prop data "type") (js "operation"));
    destruct (strict_eq_str (prop data "type") (js "process_exit"));
    destruct (DownloadButton.not_zero (prop data "code"));
    destruct (prop data "status") as [| |[]|m e|[|c s]| |];
    cbn [truthy DownloadButton.is_string negb andb strict_eq_str fst
         Z.eqb];
    try reflexivity;
    repeat match goal with
           | |- context [bool_decide ?P] => destruct (bool_decide P)
           end;
    try reflexivity.
  all: repeat match goal with
              | |- context [rounds_to_zero ?x ?y] =>
                destruct (rounds_to_zero x y)
              end.
  all: unfold DownloadButton.classList_contains;
    cbn [DownloadButton.classList DownloadButton.set_width
         DownloadButton.set_textContent DownloadButton.set_progressBars];
    destruct (bool_decide (js "btn-success" ∈ DownloadButton.classList b));
    reflexivity.
Qed.

Lemma textContent_update data b s :
  data <> JUndefined -> data <> JNull ->
  prop data "status" = JStr s -> s <> [] ->
  prop data "progress" = JUndefined ->
  DownloadButton.textContent (DownloadButton.update data b).1
  = if strict_eq_str (prop data "type") (js "tweak_detected")
    then DownloadButton.textContent b
    else if strict_eq_str (prop data "type") (js "operation")
            && strict_eq_str (prop data "status") (js "completed")
    then js "Success!"
    else if strict_eq_str (prop data "type") (js "operation")
            && strict_eq_str (prop data "status") (js "failed")
    then js "Error: "
         ++ DownloadButton.ToString
              (js_or (prop data "error") (JStr (js "Failed")))
    else if strict_eq_str (prop data "type") (js "process_exit")
            && DownloadButton.not_zero (prop data "code")
            && negb (DownloadButton.classList_contains "btn-success" b)
    then js "Process Failed"
    else DownloadButton.toUpperCase
           (take 1 (DownloadButton.replace_underscores s))
         ++ drop 1 (DownloadButton.replace_underscores s).
Proof.
  intros Hu Hn Hs Hne Hp. unfold DownloadButton.update.
  rewrite !(get_prop_prop data) by done. rewrite Hs, Hp.
  destruct s as [|c s]; [done|].
  destruct (strict_eq_str (prop data "type") (js "tweak_detected"));
    [done|].
  destruct (DownloadButton.progressBars b) as [|w bars] eqn:Hbars;
    destruct (strict_eq_str (prop data "type") (js "operation"));
    destruct (strict_eq_str (prop data "type") (js "process_exit"));
    destruct (DownloadButton.not_zero (prop data "code"));
    cbn [truthy DownloadButton.defined negb andb fst];
    repeat match goal with
           | |- context [strict_eq_str ?a ?b] => destruct (strict_eq_str a b)
           end;
    try reflexivity.
  all: unfold DownloadButton.classList_contains;
    cbn [DownloadButton.classList DownloadButton.set_width
         DownloadButton.set_textContent DownloadButton.set_progressBars];
    destruct (bool_decide (js "btn-success" ∈ DownloadButton.classList b));
    reflexivity.
Qed.


Lemma has_field_prop v k s :
  has_field v k s = strict_eq_str (prop v k) (js s).
Proof. unfold has_field, prop. by destruct (get_prop v (js k)). Qed.

Ltac clash :=
  match goal with
  | H1 : ?x = js ?a, H2 : ?x = js ?b |- _ =>
    rewrite H1 in H2; vm_compute in H2; discriminate H2
  | H1 : ?x = js ?a, H2 : ?x <> js ?a |- _ => destruct (H2 H1)
  | H1 : js ?a = js ?b |- _ => vm_compute in H1; discriminate H1
  end.



Lemma classList_contains_add c b b' :
  DownloadButton.classList b'
  = DownloadButton.classList (DownloadButton.classList_add c b) ->
  DownloadButton.classList_contains c b' = true.
Proof.
  intros Hcl. unfold DownloadButton.classList_contains. rewrite Hcl.
  apply bool_decide_eq_true. unfold DownloadButton.classList_add.
  cbn [DownloadButton.classList]. case_bool_decide; [done|].
  apply elem_of_app. right. left.
Qed.



End ButtonFacts.

(** ** The text of the repository input *)

Lemma trim_start_spaces pre s :
  Forall (fun c => is_js_space c = true) pre ->
  trim_start (pre ++ s) = trim_start s.
Proof.
  induction 1 as [|c pre Hc _ IH]; [done|]. cbn [app trim_start].
  by rewrite Hc.
Qed.

Lemma trim_start_all_spaces s :
  Forall (fun c => is_js_space c = true) s -> trim_start s = [].
Proof.
  intros Hs. rewrite <- (app_nil_r s). by rewrite trim_start_spaces.
Qed.

Lemma trim_start_head s c r :
  trim_start s = c :: r -> is_js_space c = false.
Proof.
  induction s as [|x s IH]; [done|]. cbn [trim_start].
  destruct (is_js_space x) eqn:Hx; [done|]. by intros [= <- _].
Qed.

Lemma trim_start_suffix s : trim_start s `suffix_of` s.
Proof.
  induction s as [|x s IH]; [done|]. cbn [trim_start].
  destruct (is_js_space x); [by apply suffix_cons_r|done].
Qed.

Lemma trim_start_id c s :
  is_js_space c = false -> trim_start (c :: s) = c :: s.
Proof. intros Hc. cbn [trim_start]. by rewrite Hc. Qed.

Lemma rev_is_reverse {A} (l : list A) : rev l = reverse l.
Proof. apply rev_alt. Qed.

Lemma last_rev {A} (l : list A) : last (rev l) = head l.
Proof. rewrite rev_is_reverse. apply last_reverse. Qed.

Lemma head_rev {A} (l : list A) : head (rev l) = last l.
Proof. rewrite rev_is_reverse. apply head_reverse. Qed.

Lemma suffix_last {A} (l1 l2 : list A) x :
  l1 `suffix_of` l2 -> last l1 = Some x -> last l2 = Some x.
Proof.
  intros [k ->] Hx. destruct l1 as [|y l1]; [done|].
  rewrite last_app. by rewrite Hx.
Qed.

Lemma trim_ends s :
  (forall c, head (trim s) = Some c -> is_js_space c = false)
  /\ (forall c, last (trim s) = Some c -> is_js_space c = false).
Proof.
  unfold trim. set (t := trim_start s). split; intros c.
  - rewrite head_rev. intros Hc.
    apply (suffix_last _ (rev t)) in Hc; [|apply trim_start_suffix].
    rewrite last_rev in Hc. subst t.
    destruct (trim_start s) as [|x r] eqn:Ht; [done|].
    injection Hc as <-. by apply (trim_start_head s x r).
  - rewrite last_rev. destruct (trim_start (rev t)) as [|x r] eqn:Hr; [done|].
    intros [= <-]. by apply (trim_start_head (rev t) x r).
Qed.

Lemma trim_core pre core post :
  Forall (fun c => is_js_space c = true) pre ->
  Forall (fun c => is_js_space c = true) post ->
  (forall c, head core = Some c -> is_js_space c = false) ->
  (forall c, last core = Some c -> is_js_space c = false) ->
  trim (pre ++ core ++ post) = core.
Proof.
  intros Hpre Hpost Hhead Hlast. unfold trim.
  rewrite trim_start_spaces by done.
  destruct core as [|c core].
  { cbn [app]. rewrite (trim_start_all_spaces post) by done. done. }
  cbn [app]. rewrite trim_start_id by by apply Hhead.
  change (c :: core ++ post) with ((c :: core) ++ post).
  rewrite rev_app_distr, trim_start_spaces by by apply Forall_rev.
  destruct (rev (c :: core)) as [|x r] eqn:Hr.
  { by apply (f_equal length) in Hr; rewrite length_rev in Hr. }
  rewrite trim_start_id.
  - by rewrite <- Hr, rev_involutive.
  - apply Hlast. rewrite <- (rev_involutive (c :: core)), Hr.
    by rewrite last_rev.
Qed.

(** X26. The click on [Fetch] sends nothing when the input is empty or
    blank; what it sends is [fetch-github-releases] with the trimmed text,
    which is not empty, neither starts nor ends with white space, and
    passes the bridge; and an input with blanks around a text sends what
    the text alone sends. *)
Theorem fetch_click_sends_the_trimmed_repository :
  (forall value message html,
     DownloadButton.fetch_click value = Some (message, html) ->
     exists repoUrl,
       message = (js "fetch-github-releases", JStr repoUrl)
       /\ repoUrl = trim value /\ repoUrl <> []
       /\ (forall c, head repoUrl = Some c -> is_js_space c = false)
       /\ (forall c, last repoUrl = Some c -> is_js_space c = false)
       /\ Preload.send message.1 message.2 = Some message)
  /\ (forall value,
        Forall (fun c => is_js_space c = true) value ->
        DownloadButton.fetch_click value = None)
  /\ (forall pre repoUrl post,
        Forall (fun c => is_js_space c = true) pre ->
        Forall (fun c => is_js_space c = true) post ->
        (forall c, head repoUrl = Some c -> is_js_space c = false) ->
        (forall c, last repoUrl = Some c -> is_js_space c = false) ->
        DownloadButton.fetch_click (pre ++ repoUrl ++ post)
        = DownloadButton.fetch_click repoUrl).
Proof.
  split; [|split].
  - intros value message html. unfold DownloadButton.fetch_click.
    destruct (trim value) as [|c r] eqn:Ht; [done|].
    intros [= <- <-]. exists (c :: r).
    destruct (trim_ends value) as [Hh Hl]. rewrite Ht in Hh, Hl.
    repeat split; try done.
  - intros value Hs. unfold DownloadButton.fetch_click, trim.
    by rewrite (trim_start_all_spaces value).
  - intros pre repoUrl post Hpre Hpost Hh Hl.
    unfold DownloadButton.fetch_click.
    rewrite trim_core by done.
    pose proof (trim_core [] repoUrl [] (Forall_nil_2 _) (Forall_nil_2 _)
                          Hh Hl) as Hid.
    cbn [app] in Hid. rewrite app_nil_r in Hid. by rewrite Hid.
Qed.

(* ===================================================================== *)
(** * The further properties on the scenarios *)
(* ===================================================================== *)

(** A patch request without the bytes of the IPA is answered with one
    [failed] operation message; nothing is written or spawned. *)
Lemma invalid_patch_request_is_refused_witness :
  dispatched (step (ready ∅) (ipc_start_patching patch_request_without_ipa 0))
  = [(js "backend-message",
      operation_failed (js "Invalid file data provided.")
                       (js "https://host/tweak.deb"))]
  /\ with_trace [] (step (ready ∅)
                         (ipc_start_patching patch_request_without_ipa 0))
     = ready ∅.
Proof.
  destruct (invalid_patch_request_is_refused
              (H := posix) (ready ∅) patch_request_without_ipa 0)
    as ([Hd _] & Hst & _).
  - reflexivity.
  - left. reflexivity.
  - split; [exact Hd|exact Hst].
Defined.

(** A traceback on the stderr of the download worker is logged and
    nothing else happens. *)
Lemma stderr_is_only_logged_witness :
  dispatched (step download_started (stderr_data 0 (bytesq "Traceback |")))
  = dispatched download_started
  /\ trace (step download_started (stderr_data 0 (bytesq "Traceback |")))
     = trace download_started
       ++ [Console Error (js "[BACKEND STDERR] Traceback")].
Proof.
  destruct (stderr_is_only_logged (H := posix) download_started 0%nat
                                  (bytesq "Traceback |"))
    as (_ & Hd & _ & _ & Ht).
  split; [exact Hd|].
  apply (Ht download_child); reflexivity.
Defined.

(** The download worker exits after the window was closed: the key is
    released and the exit message is lost. *)
Lemma exit_message_is_lost_without_a_window_witness :
  activeProcesses (step download_without_window (child_close 0 (Some 0)))
  = delete (registry_key Download app_deb)
           (activeProcesses download_without_window)
  /\ dispatched (step download_without_window (child_close 0 (Some 0)))
     = dispatched download_without_window
  /\ uncaught (trace (step download_without_window (child_close 0 (Some 0))))
     = uncaught (trace download_without_window) ++ [TypeError].
Proof.
  destruct (exit_message_is_lost_without_a_window
              (H := posix) download_without_window 0%nat download_child
              (Some 0))
    as (Hreg & _ & Hd & Hu).
  - reflexivity.
  - reflexivity.
  - discriminate.
  - reflexivity.
  - split; [exact Hreg|]. split; [exact Hd|exact Hu].
Defined.

(** The unlink of [/tmp/App.ipa] fails: the file stays and nothing is
    dispatched. *)
Lemma failed_unlink_leaves_the_file_witness :
  files (step patch_exited (unlink_done 0 (Some (js "EBUSY"))))
  = files patch_exited
  /\ dispatched (step patch_exited (unlink_done 0 (Some (js "EBUSY"))))
     = dispatched patch_exited.
Proof.
  destruct (failed_unlink_leaves_the_file
              (H := posix) patch_exited 0%nat
              (mkPendingUnlink (js "/tmp/App.ipa") false) (js "EBUSY"))
    as (Hf & Hd & _).
  - reflexivity.
  - reflexivity.
  - split; [exact Hf|exact Hd].
Defined.

(** The entry of the running download points at its open worker. *)
Lemma registry_points_at_open_children_witness :
  exists c, children download_started !! 0%nat = Some c
            /\ closed c = false
            /\ processKey c = registry_key Download app_deb
            /\ registry_key Download app_deb
               = registry_key (kind c) (subject c).
Proof.
  apply (registry_points_at_open_children (H := posix)).
  - apply reachable_step, reachable_ready.
  - vm_compute. reflexivity.
Defined.

(** Two patch requests for one identifier, the second before the first
    write is done, launch two workers. *)
Lemma patch_requests_during_staging_are_both_launched_witness :
  length (spawned
            (steps (ready ∅)
                   [ipc_start_patching patch_request 1700000000000;
                    ipc_start_patching patch_request 1700000000001;
                    writeFile_done 0 Written (Some 4242);
                    writeFile_done 1 Written (Some 4243)]))
  = 2%nat.
Proof.
  destruct (patch_requests_during_staging_are_both_launched
              (H := posix) (ready ∅) patch_request 1700000000000
              1700000000001 (bytes "IPA") (js "tweaks/t.tar") (Some 4242)
              (Some 4243))
    as (_ & Hs & _).
  - reflexivity.
  - reflexivity.
  - reflexivity.
  - discriminate.
  - apply (f_equal length) in Hs. exact Hs.
Defined.

(** The download of [app_deb] is requested again after its worker has
    exited: a new worker is spawned. *)
Lemma closed_job_can_be_requested_again_witness :
  activeProcesses
    (step (step download_started (child_close 0 (Some 0)))
          (ipc_download_and_compile_deb app_deb (Some 5000)))
  !! registry_key Download app_deb
  = Some 1%nat.
Proof.
  destruct (closed_job_can_be_requested_again
              (H := posix) download_started
              (ipc_download_and_compile_deb app_deb (Some 5000))
              Download app_deb 0%nat (Some 0))
    as (_ & Hreg & _).
  - apply reachable_step, reachable_ready.
  - reflexivity.
  - discriminate.
  - vm_compute. reflexivity.
  - exact Hreg.
Defined.

(** Two jobs stage [/tmp/App.ipa]; when the first worker exits, the file
    the second worker reads is deleted. *)
Lemma shared_staged_file_is_deleted_under_a_running_worker_witness :
  staged_path patch_request 1700000000000
  = staged_path second_patch_request 1700000000001
  /\ files (steps two_jobs_one_name [child_close 0 (Some 0);
                                     unlink_done 0 None])
     !! js "/tmp/App.ipa" = None
  /\ children (steps two_jobs_one_name [child_close 0 (Some 0);
                                        unlink_done 0 None]) !! 1%nat
     = Some (mkChild Patch (js "https://host/other.deb")
                     (registry_key Patch (js "https://host/other.deb"))
                     (js "/tmp/App.ipa") (Some 4243) [] false).
Proof.
  destruct (shared_staged_file_is_deleted_under_a_running_worker (H := posix))
    as (Hpath & Hdel).
  split.
  - apply Hpath; reflexivity.
  - apply (Hdel two_jobs_one_name 0%nat 1%nat patch_child
                (mkChild Patch (js "https://host/other.deb")
                         (registry_key Patch (js "https://host/other.deb"))
                         (js "/tmp/App.ipa") (Some 4243) [] false)
                (Some 0)).
    + discriminate.
    + reflexivity.
    + reflexivity.
    + reflexivity.
    + reflexivity.
    + reflexivity.
Defined.

(** The line [null] is JSON and is logged as a non-JSON line. *)
Lemma patch_line_by_parsed_value_witness :
  line_actions Patch (js "https://host/tweak.deb") (Some browserWindow)
               (js "null")
  = [non_json_warning Patch (js "null")].
Proof.
  destruct (patch_line_by_parsed_value
              (js "https://host/tweak.deb") browserWindow
              (js "null") JNull)
    as (Hl & _).
  - reflexivity.
  - exact Hl.
Defined.

(** A progress line of the download arrives after the window was closed:
    nothing is dispatched, the line is logged as non-JSON. *)
Lemma lines_are_lost_without_a_window_witness :
  dispatched (step download_without_window
                   (stdout_data 0 (bytesq "{'type':'progress'}|")))
  = dispatched download_without_window
  /\ trace (step download_without_window
                 (stdout_data 0 (bytesq "{'type':'progress'}|")))
     = trace download_without_window
       ++ [non_json_warning Download (jsq "{'type':'progress'}")].
Proof.
  destruct (lines_are_lost_without_a_window
              (H := posix) download_without_window 0%nat download_child
              (bytesq "{'type':'progress'}|"))
    as (Hd & _ & _ & Ht).
  - reflexivity.
  - reflexivity.
  - reflexivity.
  - split; [exact Hd|]. rewrite Ht by discriminate. reflexivity.
Defined.

(** A progress message of the fetch worker is dropped without a trace. *)
Lemma fetch_job_dispatches_only_release_data_witness :
  line_actions Fetch (js "owner/repo") (Some browserWindow)
               (jsq "{'type':'progress','status':'fetching'}")
  = [].
Proof.
  destruct fetch_job_dispatches_only_release_data as (Hline & _).
  rewrite (Hline _ _ _ (object [("type", JStr (js "progress"));
                                ("status", JStr (js "fetching"))]));
    reflexivity.
Defined.

(** The patch worker was spawned on the [--patch] command line. *)
Lemma workers_are_spawned_on_three_command_lines_witness :
  Forall worker_command_line (spawned patch_started)
  /\ Forall (fun c => c = js "python") (commands (trace patch_started))
  /\ length (spawned patch_started) = length (children patch_started).
Proof.
  apply (workers_are_spawned_on_three_command_lines (H := posix)).
  apply reachable_step, reachable_step, reachable_ready.
Defined.

(** Minimize is clicked twice and close once before the animation ends:
    one [animation-finished] calls all three methods. *)
Lemma window_methods_run_at_animation_finished_witness :
  window_calls (shell_steps (shell_ready ∅)
                            [ipc_minimize_window; ipc_minimize_window;
                             ipc_close_window])
  = []
  /\ window_calls (shell_step
                     (shell_steps (shell_ready ∅)
                                  [ipc_minimize_window; ipc_minimize_window;
                                   ipc_close_window])
                     ipc_animation_finished)
     = [minimize; minimize; close].
Proof.
  destruct (window_methods_run_at_animation_finished
              (H := posix) (shell_ready ∅) browserWindow
              [ipc_minimize_window; ipc_minimize_window; ipc_close_window])
    as (Hc & _ & Hc2 & _).
  - reflexivity.
  - repeat constructor; eexists; reflexivity.
  - split; [exact Hc|exact Hc2].
Defined.

(** After the window was closed, a maximize request does nothing. *)
Lemma window_controls_without_a_window_witness :
  shell_step (shell_step (shell_ready ∅) (backend_event window_closed))
             ipc_maximize_window
  = shell_step (shell_ready ∅) (backend_event window_closed).
Proof.
  destruct (window_controls_without_a_window
              (H := posix)
              (shell_step (shell_ready ∅) (backend_event window_closed)))
    as (_ & Hmax & _).
  - reflexivity.
  - exact Hmax.
Defined.

(** Two maximize requests leave the window as it was. *)
Lemma maximize_window_toggles_witness :
  isMaximized (shell_steps (shell_ready ∅)
                           [ipc_maximize_window; ipc_maximize_window])
  = false
  /\ window_calls (shell_steps (shell_ready ∅)
                               [ipc_maximize_window; ipc_maximize_window])
     = [maximize; unmaximize].
Proof.
  destruct (maximize_window_toggles (H := posix) (shell_ready ∅)
                                    browserWindow)
    as (_ & _ & _ & _ & Hm & Hc).
  - reflexivity.
  - split; [exact Hm|exact Hc].
Defined.

(** The messages of a minimize request during a download all pass the
    bridge, and the request itself does. *)
Lemma every_dispatch_passes_the_bridge_witness :
  Preload.delivered
    (dispatched
       (backend (shell_steps (shell_ready ∅)
                             [backend_event
                                (ipc_download_and_compile_deb app_deb
                                                              (Some 4242));
                              ipc_minimize_window])))
  = [(js "start-minimize-animation", JUndefined)]
  /\ Preload.send (js "minimize-window") JUndefined
     = Some (js "minimize-window", JUndefined).
Proof.
  destruct (every_dispatch_passes_the_bridge (H := posix)) as (Hout & Hin).
  split.
  - rewrite Hout; [reflexivity|].
    apply (shell_reachable_step _ ipc_minimize_window),
      (shell_reachable_step _ (backend_event _)), shell_reachable_ready.
  - apply (Hin ipc_minimize_window). reflexivity.
Defined.

(** The repository of a full URL. *)
Lemma parseRepoUrl_components_witness :
  js "Germanized" <> [] /\ js "DebMaster" <> []
  /\ (SLASH ∉ js "Germanized") /\ (SLASH ∉ js "DebMaster").
Proof.
  apply (parseRepoUrl_components
           (H := plain_browser)
           (js "https://github.com/Germanized/DebMaster/releases")).
  reflexivity.
Defined.

(** The shorthand [Germanized/DebMaster]. *)
Lemma parseRepoUrl_shorthand_witness :
  GithubApi.parseRepoUrl (js "Germanized/DebMaster")
  = Some (js "Germanized", js "DebMaster")
  /\ GithubApi.parseRepoUrl (js "DebMaster") = None.
Proof.
  destruct (parseRepoUrl_shorthand (H := plain_browser)) as (Hsome & Hnone).
  split.
  - apply (Hsome (js "Germanized") (js "DebMaster") []).
    + discriminate.
    + discriminate.
    + compute_done.
    + compute_done.
    + left. reflexivity.
    + reflexivity.
  - apply Hnone; [compute_done|reflexivity].
Defined.

(** Off line, both URLs are requested, the exception is logged and the
    answer is the network error. *)
Lemma fetchRepoData_answers_with_an_error_or_a_repository_witness :
  GithubApi.requests (GithubApi.fetchRepoData offline
                                              (js "Germanized/DebMaster"))
  = [js "https://api.github.com/repos/Germanized/DebMaster";
     js "https://api.github.com/repos/Germanized/DebMaster/releases"].
Proof.
  destruct (fetchRepoData_answers_with_an_error_or_a_repository
              (H := plain_browser) offline (js "Germanized/DebMaster"))
    as (_ & Hreq & _).
  apply (Hreq (js "Germanized") (js "DebMaster")). reflexivity.
Defined.

(** A drop of [a.deb], a text file and [a.deb] under another name queues
    one file. *)
Lemma file_queue_holds_each_path_once_witness :
  NoDup (LocalFiles.path
         <$> LocalFiles.filesToConvert
               (LocalFiles.step LocalFiles.init
                                (LocalFiles.drop [a_deb; notes_txt;
                                                  a_deb_again])))
  /\ LocalFiles.fileQueue
       (LocalFiles.step LocalFiles.init
                        (LocalFiles.drop [a_deb; notes_txt; a_deb_again]))
     = [js "a.deb"].
Proof.
  destruct (file_queue_holds_each_path_once
              (LocalFiles.step LocalFiles.init
                               (LocalFiles.drop [a_deb; notes_txt;
                                                 a_deb_again])))
    as (Hnd & Hq & _).
  - apply LocalFiles.reachable_step, LocalFiles.reachable_init.
  - split; [exact Hnd|]. rewrite Hq. reflexivity.
Defined.

(** The file input hands over [a.deb] twice: it is queued once. *)
Lemma handleFiles_adds_unknown_paths_once_witness :
  LocalFiles.path a_deb_again
  ∈ LocalFiles.path
    <$> LocalFiles.filesToConvert
          (LocalFiles.handleFiles [a_deb; a_deb_again] LocalFiles.init).
Proof.
  destruct (handleFiles_adds_unknown_paths_once [a_deb; a_deb_again]
                                                LocalFiles.init)
    as (_ & Hin & _).
  apply Hin. right. left.
Defined.

(** The message of a minimize request is on a channel of the main
    process, which is none of the conversion channels. *)
Lemma local_conversion_is_never_answered_witness :
  (js "start-minimize-animation", JUndefined).1 ∈ main_channels
  /\ (js "start-minimize-animation", JUndefined).1
     <> js "conversion-progress"
  /\ (js "start-minimize-animation", JUndefined).1 <> js "conversion-error"
  /\ (js "start-minimize-animation", JUndefined).1
     <> js "conversion-complete".
Proof.
  destruct (local_conversion_is_never_answered (H := posix)) as (Hout & _).
  apply (Hout (shell_step (shell_ready ∅) ipc_minimize_window)).
  - apply shell_reachable_step, shell_reachable_ready.
  - vm_compute. left.
Defined.




(** The repository typed with blanks around it is requested without
    them. *)
Lemma fetch_click_sends_the_trimmed_repository_witness :
  DownloadButton.fetch_click (js "  Germanized/DebMaster ")
  = DownloadButton.fetch_click (js "Germanized/DebMaster")
  /\ DownloadButton.fetch_click (js "   ") = None.
Proof.
  destruct fetch_click_sends_the_trimmed_repository as (_ & Hnone & Hsame).
  split.
  - apply (Hsame (js "  ") (js "Germanized/DebMaster") (js " ")).
    + repeat constructor.
    + repeat constructor.
    + intros c [= <-]. reflexivity.
    + intros c [= <-]. reflexivity.
  - apply Hnone. repeat constructor.
Defined.
